(** * AI Logo Animator: the generation gateway and the job orchestrator

    A shallow embedding of [services/geminiService.ts] and of the event
    handlers of [App.tsx].  Asynchronous functions are interaction trees:
    every interaction with the outside (the remote service, the host's
    credential interface, timers, React's state setters) is an event, and
    an interpreter with an explicit environment runs a tree and records
    what happened. *)

From ITree Require Import ITree.
From Stdlib Require Import List NArith ZArith Lia String Ascii Bool.
Import ListNotations.
Local Open Scope list_scope.

Set Implicit Arguments.

(** ** JavaScript strings *)

Module JS.

(** A JavaScript string is a sequence of UTF-16 code units. *)
Definition jsstring : Type := list N.

(** String literals of the source are ASCII. *)
Definition js (s : string) : jsstring :=
  map N_of_ascii (list_ascii_of_string s).

(** [`${a}${b}`] and [a + b]. *)
Definition concat (a b : jsstring) : jsstring := a ++ b.
Infix "+++" := concat (right associativity, at level 60).

(** ECMAScript WhiteSpace and LineTerminator code points, the characters
    that [String.prototype.trim] strips. *)
Definition isWhiteSpace (c : N) : bool :=
  existsb (N.eqb c)
    [ 9; 10; 11; 12; 13; 32; 160; 5760; 8232; 8233; 8239; 8287; 12288; 65279 ]%N
  || ((8192 <=? c) && (c <=? 8202))%N.

Fixpoint trimStart (s : jsstring) : jsstring :=
  match s with
  | c :: s' => if isWhiteSpace c then trimStart s' else s
  | [] => []
  end.

Definition trimEnd (s : jsstring) : jsstring := rev (trimStart (rev s)).

Definition trim (s : jsstring) : jsstring := trimEnd (trimStart s).

Fixpoint startsWith (s p : jsstring) : bool :=
  match p, s with
  | [], _ => true
  | a :: p', b :: s' => N.eqb a b && startsWith s' p'
  | _ :: _, [] => false
  end.

Fixpoint includes (s p : jsstring) : bool :=
  startsWith s p ||
  match s with
  | [] => false
  | _ :: s' => includes s' p
  end.

(** Truthiness of a string: the empty string is falsy. *)
Definition truthy (s : jsstring) : bool :=
  match s with [] => false | _ :: _ => true end.

(** Truthiness of [string | undefined]. *)
Definition truthy_opt (v : option jsstring) : bool :=
  match v with Some s => truthy s | None => false end.

(** A value of type [string | undefined] inside a template literal. *)
Definition toString (v : option jsstring) : jsstring :=
  match v with Some s => s | None => js "undefined" end.

End JS.
Export JS.

(** ** Promises as interaction trees *)

Module Async.

(** A thrown value, as far as the program looks at it: [e.message].  The
    values thrown here are objects; a rejection with [null] or
    [undefined], on which reading [e.message] would itself throw, is not
    a value of this type. *)
Record Error : Type := mkError { message : option jsstring }.

(** [new Error(msg)] *)
Definition newError (msg : jsstring) : Error := mkError (Some msg).

(** An [async] function over events [E]: it settles with a rejection
    ([inl]) or a value ([inr]). *)
Definition async (E : Type -> Type) (A : Type) : Type := itree E (Error + A)%type.

Definition resolve {E : Type -> Type} {A : Type} (a : A) : async E A := Ret (inr a).

Definition throw {E : Type -> Type} {A : Type} (e : Error) : async E A := Ret (inl e).

(** Sequencing: a rejection skips the rest. *)
Definition andThen {E : Type -> Type} {A B : Type} (m : async E A) (k : A -> async E B) : async E B :=
  ITree.bind m (fun r => match r with
                         | inl e => Ret (inl e)
                         | inr a => k a
                         end).

Arguments andThen {E A B} m & k.

(** [await p] for an awaited operation [p] of the environment, whose
    answer is already a rejection or a value. *)
Definition await {E : Type -> Type} {X : Type} (e : E (Error + X)%type) : async E X := ITree.trigger e.

(** An operation of the environment that cannot throw. *)
Definition perform {E : Type -> Type} {X : Type} (e : E X) : async E X :=
  ITree.bind (ITree.trigger e) (fun x => Ret (inr x)).

(** [try { body } catch (e) { handler e }] *)
Definition tryCatch {E : Type -> Type} {A : Type} (body : async E A) (handler : Error -> async E A)
  : async E A :=
  ITree.bind body (fun r => match r with
                            | inl e => handler e
                            | inr a => Ret (inr a)
                            end).

(** [try { body } finally { fin }]: [fin] runs on both outcomes, and the
    outcome of [body] is kept unless [fin] itself throws. *)
Definition tryFinally {E : Type -> Type} {A : Type} (body : async E A) (fin : async E unit)
  : async E A :=
  ITree.bind body (fun r =>
    ITree.bind fin (fun r' => match r' with
                              | inl e => Ret (inl e)
                              | inr _ => Ret r
                              end)).

(** [while (cond s) { s = await body s }], with the loop variable [s]. *)
Definition while {E : Type -> Type} {S : Type} (cond : S -> bool) (body : S -> async E S) (s : S)
  : async E S :=
  ITree.iter (fun s =>
    if cond s
    then ITree.bind (body s) (fun r => match r with
                                       | inl e => Ret (inr (inl e))
                                       | inr s' => Ret (inl s')
                                       end)
    else Ret (inr (inr s))) s.

Module Notations.
Notation "'let*' x ':=' m 'in' k" := (andThen m (fun x => k))
  (at level 10, x name, m at level 100, k at level 200).
Notation "m ';;;' k" := (andThen m (fun _ => k))
  (at level 100, k at level 200, right associativity).
End Notations.

(** *** Running a tree against an environment

    [handle] answers an event in a world [W] and gives the next world.
    [exec] runs a tree with it; the fuel bounds the number of steps, for
    the trees of unbounded loops. *)
Section Exec.
Context {E : Type -> Type} {W : Type}.
Variable handle : forall X, E X -> W -> X * W.

Fixpoint exec {R} (fuel : nat) (t : itree E R) (w : W) : option (R * W) :=
  match fuel with
  | 0 => None
  | S f =>
      match observe t with
      | RetF r => Some (r, w)
      | TauF t' => exec f t' w
      | VisF e k => let (x, w') := handle e w in exec f (k x) w'
      end
  end.

(** The run of [t] from [w] ends with result [r] in world [w']. *)
Definition returns {R} (t : itree E R) (w : W) (r : R) (w' : W) : Prop :=
  exists fuel, exec fuel t w = Some (r, w').

(** The run of [t] from [w] never ends. *)
Definition diverges {R} (t : itree E R) (w : W) : Prop :=
  forall fuel, exec fuel t w = None.
End Exec.

End Async.
Export Async.

(** ** services/geminiService.ts *)

Module Gateway.
Import Async.Notations.

(** [AspectRatio = '16:9' | '9:16'] *)
Variant AspectRatio : Type := ratio_16_9 | ratio_9_16.

(** Modelled from the spec: the response type of the image endpoint is
    declared by the SDK, which is not part of the sources.  The spec gives
    a response as a list of generated images each exposing raw image
    bytes as base64 text, and names malformed responses beside it: the
    list may be missing, which the code guards against, and so may the
    image of an entry and the bytes of an image, which the code reads
    unguarded as [.image.imageBytes]. *)
Record Image : Type := mkImage { imageBytes : option jsstring }.
Record GeneratedImage : Type := mkGeneratedImage { image : option Image }.
Record GenerateImagesResponse : Type :=
  mkGenerateImagesResponse { generatedImages : option (list GeneratedImage) }.

(** The job handle of a video generation, as far as the code reads it:
    [done] as [!operation.done] reads it (a missing flag is false), and
    every level of [operation.response?.generatedVideos?.[0]?.video?.uri]
    may be missing.  [opName] stands for the rest of the opaque handle. *)
Record Video : Type := mkVideo { uri : option jsstring }.
Record GeneratedVideo : Type := mkGeneratedVideo { video : option Video }.
Record GenerateVideosResponse : Type :=
  mkGenerateVideosResponse { generatedVideos : option (list GeneratedVideo) }.
Record Operation : Type := mkOperation {
  opName : jsstring;
  done : bool;
  response : option GenerateVideosResponse
}.

(** Arguments of [ai.models.generateImages]. *)
Record GenerateImagesParameters : Type := mkGenerateImagesParameters {
  gi_model : jsstring;
  gi_prompt : jsstring;
  gi_numberOfImages : Z;
  gi_outputMimeType : jsstring;
  gi_aspectRatio : jsstring
}.

(** Arguments of [ai.models.generateVideos]. *)
Record GenerateVideosParameters : Type := mkGenerateVideosParameters {
  gv_model : jsstring;
  gv_prompt : jsstring;
  gv_imageBytes : jsstring;
  gv_mimeType : jsstring;
  gv_numberOfVideos : Z;
  gv_resolution : jsstring;
  gv_aspectRatio : AspectRatio
}.

(** What the code reads of a [fetch] response; [responseId] stands for
    the rest of the object. *)
Record Response : Type := mkResponse {
  ok : bool;
  statusText : jsstring;
  responseId : N
}.

(** A blob: the downloaded bytes. *)
Definition Blob : Type := list N.

(** The interactions of the gateway with its environment.  The remote
    calls carry the [apiKey] of the [GoogleGenAI] client they go through. *)
Variant gatewayE : Type -> Type :=
| ProcessEnvApiKey : gatewayE (option jsstring)
| GenerateImages (apiKey : jsstring) (p : GenerateImagesParameters)
  : gatewayE (Error + GenerateImagesResponse)%type
| GenerateVideos (apiKey : jsstring) (p : GenerateVideosParameters)
  : gatewayE (Error + Operation)%type
| SetTimeout (ms : Z) : gatewayE unit
| GetVideosOperation (apiKey : jsstring) (operation : Operation)
  : gatewayE (Error + Operation)%type
| Fetch (url : jsstring) : gatewayE (Error + Response)%type
| ResponseBlob (r : Response) : gatewayE (Error + Blob)%type
| CreateObjectURL (b : Blob) : gatewayE jsstring.

(** [getApiKey]: [!key] holds for [undefined] and for the empty string. *)
Definition getApiKey : async gatewayE jsstring :=
  let* key := perform ProcessEnvApiKey in
  if negb (truthy_opt key)
  then throw (newError (js "API_KEY environment variable not set."))
  else resolve (toString key).

Definition logoPrompt (prompt : jsstring) : jsstring :=
  js "A professional, modern, minimalist logo for a company. The logo should be based on the following description: "
  +++ [34%N] +++ prompt +++ [34%N]
  +++ js ". The logo should be on a clean, solid background.".

Definition generateImagesParameters (prompt : jsstring) : GenerateImagesParameters :=
  {| gi_model := js "imagen-4.0-generate-001";
     gi_prompt := logoPrompt prompt;
     gi_numberOfImages := 1;
     gi_outputMimeType := js "image/png";
     gi_aspectRatio := js "1:1" |}.

(** The [TypeError] that the engine throws when property [p] of
    [undefined] is read.  The wording of its message is the engine's, not
    the program's: this is V8's. *)
Definition readOfUndefined (p : jsstring) : Error :=
  newError (js "Cannot read properties of undefined (reading '" +++ p +++ js "')").

(** [generateLogo] is declared [Promise<string>]; what it resolves with is
    [response.generatedImages[0].image.imageBytes], a string or
    [undefined]. *)
Definition generateLogo (prompt : jsstring) : async gatewayE (option jsstring) :=
  let* apiKey := getApiKey in
  let* response := await (GenerateImages apiKey (generateImagesParameters prompt)) in
  match generatedImages response with
  | Some (first :: _) =>
      match image first with
      | Some img => resolve (imageBytes img)
      | None => throw (readOfUndefined (js "imageBytes"))
      end
  | Some [] | None =>
      throw (newError (js "Image generation failed or returned no images."))
  end.

Definition generateVideosParameters (imageData mimeType : jsstring)
  (aspectRatio : AspectRatio) : GenerateVideosParameters :=
  {| gv_model := js "veo-3.1-fast-generate-preview";
     gv_prompt := js "Animate this logo with a subtle, professional, and engaging motion. The animation should be clean and elegant.";
     gv_imageBytes := imageData;
     gv_mimeType := mimeType;
     gv_numberOfVideos := 1;
     gv_resolution := js "720p";
     gv_aspectRatio := aspectRatio |}.

(** [operation.response?.generatedVideos?.[0]?.video?.uri] *)
Definition downloadLinkOf (operation : Operation) : option jsstring :=
  match response operation with
  | None => None
  | Some r =>
      match generatedVideos r with
      | None => None
      | Some vs =>
          match nth_error vs 0 with
          | None => None
          | Some v =>
              match video v with
              | None => None
              | Some vid => uri vid
              end
          end
      end
  end.

Definition animateLogo (imageData mimeType : jsstring) (aspectRatio : AspectRatio)
  : async gatewayE jsstring :=
  let* apiKey := getApiKey in
  let* operation :=
    await (GenerateVideos apiKey
             (generateVideosParameters imageData mimeType aspectRatio)) in
  let* operation :=
    while (fun operation => negb (done operation))
          (fun operation =>
             perform (SetTimeout 5000) ;;;
             await (GetVideosOperation apiKey operation))
          operation in
  let downloadLink := downloadLinkOf operation in
  if negb (truthy_opt downloadLink)
  then throw (newError (js "Video generation did not return a valid download link."))
  else
    let* key := getApiKey in
    let* videoResponse :=
      await (Fetch (toString downloadLink +++ js "&key=" +++ key)) in
    if negb (ok videoResponse)
    then throw (newError (js "Failed to fetch video: " +++ statusText videoResponse))
    else
      let* videoBlob := await (ResponseBlob videoResponse) in
      perform (CreateObjectURL videoBlob).

(** *** The environment of the gateway

    An interaction is an event with the answer it got; the log of a run
    is the list of its interactions, oldest first. *)
Inductive interaction : Type :=
| Ev : forall X : Type, gatewayE X -> X -> interaction.
Arguments Ev {X} _ _.

Variant kind : Type :=
| KApiKey | KGenerateImages | KGenerateVideos | KSetTimeout
| KGetVideosOperation | KFetch | KBlob | KCreateObjectURL.

Definition kindOf {X : Type} (e : gatewayE X) : kind :=
  match e with
  | ProcessEnvApiKey => KApiKey
  | GenerateImages _ _ => KGenerateImages
  | GenerateVideos _ _ => KGenerateVideos
  | SetTimeout _ => KSetTimeout
  | GetVideosOperation _ _ => KGetVideosOperation
  | Fetch _ => KFetch
  | ResponseBlob _ => KBlob
  | CreateObjectURL _ => KCreateObjectURL
  end.

Definition kind_eqb (a b : kind) : bool :=
  match a, b with
  | KApiKey, KApiKey | KGenerateImages, KGenerateImages
  | KGenerateVideos, KGenerateVideos | KSetTimeout, KSetTimeout
  | KGetVideosOperation, KGetVideosOperation | KFetch, KFetch
  | KBlob, KBlob | KCreateObjectURL, KCreateObjectURL => true
  | _, _ => false
  end.

Definition is_kind (k : kind) (i : interaction) : bool :=
  match i with Ev e _ => kind_eqb (kindOf e) k end.

(** Number of interactions of kind [k] in a log. *)
Definition count (k : kind) (log : list interaction) : nat :=
  List.length (filter (is_kind k) log).

(** The environment: what each operation answers, given its arguments and
    how many operations of the same kind came before it.  The remote
    service, the network and [process.env] are arbitrary otherwise. *)
Record Environment : Type := mkEnvironment {
  API_KEY : nat -> option jsstring;
  generateImages :
    nat -> jsstring -> GenerateImagesParameters -> Error + GenerateImagesResponse;
  generateVideos :
    nat -> jsstring -> GenerateVideosParameters -> Error + Operation;
  getVideosOperation : nat -> jsstring -> Operation -> Error + Operation;
  fetch : nat -> jsstring -> Error + Response;
  blob : nat -> Response -> Error + Blob;
  createObjectURL : nat -> Blob -> jsstring
}.

Definition answer (env : Environment) (log : list interaction)
  {X : Type} (e : gatewayE X) : X :=
  match e in gatewayE X return X with
  | ProcessEnvApiKey => API_KEY env (count KApiKey log)
  | GenerateImages k p => generateImages env (count KGenerateImages log) k p
  | GenerateVideos k p => generateVideos env (count KGenerateVideos log) k p
  | SetTimeout _ => tt
  | GetVideosOperation k o =>
      getVideosOperation env (count KGetVideosOperation log) k o
  | Fetch u => fetch env (count KFetch log) u
  | ResponseBlob r => blob env (count KBlob log) r
  | CreateObjectURL b => createObjectURL env (count KCreateObjectURL log) b
  end.

Definition handle (env : Environment) (X : Type) (e : gatewayE X)
  (log : list interaction) : X * list interaction :=
  let x := answer env log e in (x, log ++ [Ev e x]).

(** A run of a gateway function in [env], after the interactions [log]. *)
Definition run (env : Environment) {R : Type} (fuel : nat)
  (t : itree gatewayE R) (log : list interaction)
  : option (R * list interaction) :=
  exec (handle env) fuel t log.

(** *** The job handles of one animation

    [jobHandle env base apiKey start k] is the handle the loop of
    [animateLogo] holds after [k] status queries: [start] is the answer of
    the submit call, and each query is asked about the handle before it.
    [base] is the number of status queries made before this run. *)
Fixpoint jobHandle (env : Environment) (base : nat) (apiKey : jsstring)
  (start : Error + Operation) (k : nat) : Error + Operation :=
  match k with
  | 0 => start
  | S k' =>
      match jobHandle env base apiKey start k' with
      | inr operation => getVideosOperation env (base + k') apiKey operation
      | inl e => inl e
      end
  end.

(** The completion flag is observed false [N] times and then true, on the
    handle [operation]. *)
Definition flagFalseThenTrue (env : Environment) (base : nat) (apiKey : jsstring)
  (start : Error + Operation) (N : nat) (operation : Operation) : Prop :=
  (forall k, k < N ->
     exists o, jobHandle env base apiKey start k = inr o /\ done o = false) /\
  jobHandle env base apiKey start N = inr operation /\
  done operation = true.

(** The completion flag is false on every handle of the job. *)
Definition neverDone (env : Environment) (base : nat) (apiKey : jsstring)
  (start : Error + Operation) : Prop :=
  forall k, exists o, jobHandle env base apiKey start k = inr o /\ done o = false.

(** The interactions of [N] rounds of the polling loop. *)
Fixpoint pollLog (env : Environment) (base : nat) (apiKey : jsstring)
  (start : Error + Operation) (N : nat) : list interaction :=
  match N with
  | 0 => []
  | S n =>
      pollLog env base apiKey start n ++
      match jobHandle env base apiKey start n with
      | inr operation =>
          [ Ev (SetTimeout 5000) tt;
            Ev (GetVideosOperation apiKey operation)
               (jobHandle env base apiKey start (S n)) ]
      | inl _ => []
      end
  end.

(** The interactions of [animateLogo] up to the end of the polling loop,
    in an environment whose credential is [apiKey]. *)
Definition submitAndPollLog (env : Environment) (log : list interaction)
  (apiKey : jsstring) (p : GenerateVideosParameters) (N : nat)
  : list interaction :=
  let start := generateVideos env (count KGenerateVideos log) apiKey p in
  Ev ProcessEnvApiKey (API_KEY env (count KApiKey log)) ::
  Ev (GenerateVideos apiKey p) start ::
  pollLog env (count KGetVideosOperation log) apiKey start N.

(** What [animateLogo] does once the loop has ended on [operation],
    read off the environment: the interactions it makes after [log], and
    its result. *)
Definition downloadPhase (env : Environment) (log : list interaction)
  (operation : Operation) : (Error + jsstring) * list interaction :=
  let downloadLink := downloadLinkOf operation in
  let key := API_KEY env (count KApiKey log) in
  let url := toString downloadLink +++ js "&key=" +++ toString key in
  let fetched := fetch env (count KFetch log) url in
  if negb (truthy_opt downloadLink)
  then (inl (newError (js "Video generation did not return a valid download link.")), [])
  else if negb (truthy_opt key)
  then (inl (newError (js "API_KEY environment variable not set.")),
        [Ev ProcessEnvApiKey key])
  else
    match fetched with
    | inl e => (inl e, [Ev ProcessEnvApiKey key; Ev (Fetch url) fetched])
    | inr videoResponse =>
        if negb (ok videoResponse)
        then (inl (newError (js "Failed to fetch video: " +++ statusText videoResponse)),
              [Ev ProcessEnvApiKey key; Ev (Fetch url) fetched])
        else
          let blobbed := blob env (count KBlob log) videoResponse in
          match blobbed with
          | inl e =>
              (inl e, [Ev ProcessEnvApiKey key; Ev (Fetch url) fetched;
                       Ev (ResponseBlob videoResponse) blobbed])
          | inr videoBlob =>
              let handle := createObjectURL env (count KCreateObjectURL log) videoBlob in
              (inr handle,
               [Ev ProcessEnvApiKey key; Ev (Fetch url) fetched;
                Ev (ResponseBlob videoResponse) blobbed;
                Ev (CreateObjectURL videoBlob) handle])
          end
    end.

(** What [generateLogo] answers on a response of the image endpoint. *)
Definition firstImage (r : Error + GenerateImagesResponse)
  : Error + option jsstring :=
  match r with
  | inl e => inl e
  | inr response =>
      match generatedImages response with
      | Some (first :: _) =>
          match image first with
          | Some img => inr (imageBytes img)
          | None => inl (readOfUndefined (js "imageBytes"))
          end
      | Some [] | None =>
          inl (newError (js "Image generation failed or returned no images."))
      end
  end.

(** The error of [getApiKey]. *)
Definition apiKeyError : Error :=
  newError (js "API_KEY environment variable not set.").

(** The error of [animateLogo] on a job without a result location. *)
Definition missingResultError : Error :=
  newError (js "Video generation did not return a valid download link.").

(** The error of [animateLogo] on a response that is not OK. *)
Definition downloadError (videoResponse : Response) : Error :=
  newError (js "Failed to fetch video: " +++ statusText videoResponse).

(** *** Example environments *)

(** A handle with one generated video at [u]. *)
Definition operationWith (n : N) (d : bool) (u : option jsstring) : Operation :=
  {| opName := [n]; done := d;
     response :=
       Some {| generatedVideos := Some [ {| video := Some {| uri := u |} |} ] |} |}.

(** The job is not done at submit nor at the first query, and done at the
    second, with a result at [https://v/1?alt=media]; the download
    succeeds.  The credential is [K1] at first and [K2] from the second
    read on. *)
Definition envTwoPolls : Environment :=
  {| API_KEY := fun k => match k with 0 => Some (js "K1") | _ => Some (js "K2") end;
     generateImages := fun _ _ _ =>
       inr {| generatedImages :=
                Some [ {| image := Some {| imageBytes := Some (js "iVBOR") |} |} ] |};
     generateVideos := fun _ _ _ => inr (operationWith 0 false None);
     getVideosOperation := fun k _ _ =>
       match k with
       | 0 => inr (operationWith 1 false None)
       | _ => inr (operationWith 2 true (Some (js "https://v/1?alt=media")))
       end;
     fetch := fun _ _ => inr {| ok := true; statusText := js "OK"; responseId := 1 |};
     blob := fun _ _ => inr [0; 0; 0; 24]%N;
     createObjectURL := fun _ _ => js "blob:video-1" |}.

(** The job is already done when the submit call answers. *)
Definition envDoneAtSubmit : Environment :=
  {| API_KEY := fun _ => Some (js "K1");
     generateImages := fun _ _ _ => inr {| generatedImages := None |};
     generateVideos := fun _ _ _ =>
       inr (operationWith 0 true (Some (js "https://v/1?alt=media")));
     getVideosOperation := fun _ _ o => inr o;
     fetch := fun _ _ => inr {| ok := true; statusText := js "OK"; responseId := 1 |};
     blob := fun _ _ => inr [0; 0; 0; 24]%N;
     createObjectURL := fun _ _ => js "blob:video-1" |}.

(** The image endpoint answers one generated image whose image carries no
    bytes: [{ generatedImages: [ { image: {} } ] }]. *)
Definition envImageWithoutBytes : Environment :=
  {| API_KEY := fun _ => Some (js "K1");
     generateImages := fun _ _ _ =>
       inr {| generatedImages := Some [ {| image := Some {| imageBytes := None |} |} ] |};
     generateVideos := fun _ _ _ => inr (operationWith 0 false None);
     getVideosOperation := fun _ _ o => inr o;
     fetch := fun _ _ => inr {| ok := true; statusText := js "OK"; responseId := 1 |};
     blob := fun _ _ => inr [0; 0; 0; 24]%N;
     createObjectURL := fun _ _ => js "blob:video-1" |}.

(** The job never completes: every status query answers a handle that is
    not done. *)
Definition envNeverDone : Environment :=
  {| API_KEY := fun _ => Some (js "K1");
     generateImages := fun _ _ _ => inr {| generatedImages := None |};
     generateVideos := fun _ _ _ => inr (operationWith 0 false None);
     getVideosOperation := fun _ _ _ => inr (operationWith 0 false None);
     fetch := fun _ _ => inr {| ok := true; statusText := js "OK"; responseId := 1 |};
     blob := fun _ _ => inr [0; 0; 0; 24]%N;
     createObjectURL := fun _ _ => js "blob:video-1" |}.

End Gateway.

(** ** App.tsx *)

Module App.
Import Async.Notations.
Export Gateway(AspectRatio, ratio_16_9, ratio_9_16).

(** [interface ImageData { base64: string; mimeType: string }] *)
Record ImageData : Type := mkImageData { base64 : jsstring; mimeType : jsstring }.

(** An uploaded file: [file.type], and [fileId] for the rest of it. *)
Record File : Type := mkFile { fileType : jsstring; fileId : N }.

(** The [useState] slots of the component. *)
Record State : Type := mkState {
  prompt : jsstring;
  imageData : option ImageData;
  videoUrl : option jsstring;
  aspectRatio : AspectRatio;
  isGeneratingImage : bool;
  isGeneratingVideo : bool;
  error : option jsstring;
  apiKeySelected : bool;
  videoLoadingMessage : jsstring
}.

Definition initialState : State :=
  {| prompt := js "A stylized phoenix rising from ashes, for a tech startup.";
     imageData := None;
     videoUrl := None;
     aspectRatio := ratio_16_9;
     isGeneratingImage := false;
     isGeneratingVideo := false;
     error := None;
     apiKeySelected := false;
     videoLoadingMessage := js EmptyString |}.

(** The state setters returned by [useState]. *)
Variant setter : Type :=
| setPrompt (v : jsstring)
| setImageData (v : option ImageData)
| setVideoUrl (v : option jsstring)
| setAspectRatio (v : AspectRatio)
| setIsGeneratingImage (v : bool)
| setIsGeneratingVideo (v : bool)
| setError (v : option jsstring)
| setApiKeySelected (v : bool)
| setVideoLoadingMessage (v : jsstring).

Definition update (u : setter) (s : State) : State :=
  match u with
  | setPrompt v =>
      {| prompt := v;
         imageData := imageData s;
         videoUrl := videoUrl s;
         aspectRatio := aspectRatio s;
         isGeneratingImage := isGeneratingImage s;
         isGeneratingVideo := isGeneratingVideo s;
         error := error s;
         apiKeySelected := apiKeySelected s;
         videoLoadingMessage := videoLoadingMessage s |}
  | setImageData v =>
      {| prompt := prompt s;
         imageData := v;
         videoUrl := videoUrl s;
         aspectRatio := aspectRatio s;
         isGeneratingImage := isGeneratingImage s;
         isGeneratingVideo := isGeneratingVideo s;
         error := error s;
         apiKeySelected := apiKeySelected s;
         videoLoadingMessage := videoLoadingMessage s |}
  | setVideoUrl v =>
      {| prompt := prompt s;
         imageData := imageData s;
         videoUrl := v;
         aspectRatio := aspectRatio s;
         isGeneratingImage := isGeneratingImage s;
         isGeneratingVideo := isGeneratingVideo s;
         error := error s;
         apiKeySelected := apiKeySelected s;
         videoLoadingMessage := videoLoadingMessage s |}
  | setAspectRatio v =>
      {| prompt := prompt s;
         imageData := imageData s;
         videoUrl := videoUrl s;
         aspectRatio := v;
         isGeneratingImage := isGeneratingImage s;
         isGeneratingVideo := isGeneratingVideo s;
         error := error s;
         apiKeySelected := apiKeySelected s;
         videoLoadingMessage := videoLoadingMessage s |}
  | setIsGeneratingImage v =>
      {| prompt := prompt s;
         imageData := imageData s;
         videoUrl := videoUrl s;
         aspectRatio := aspectRatio s;
         isGeneratingImage := v;
         isGeneratingVideo := isGeneratingVideo s;
         error := error s;
         apiKeySelected := apiKeySelected s;
         videoLoadingMessage := videoLoadingMessage s |}
  | setIsGeneratingVideo v =>
      {| prompt := prompt s;
         imageData := imageData s;
         videoUrl := videoUrl s;
         aspectRatio := aspectRatio s;
         isGeneratingImage := isGeneratingImage s;
         isGeneratingVideo := v;
         error := error s;
         apiKeySelected := apiKeySelected s;
         videoLoadingMessage := videoLoadingMessage s |}
  | setError v =>
      {| prompt := prompt s;
         imageData := imageData s;
         videoUrl := videoUrl s;
         aspectRatio := aspectRatio s;
         isGeneratingImage := isGeneratingImage s;
         isGeneratingVideo := isGeneratingVideo s;
         error := v;
         apiKeySelected := apiKeySelected s;
         videoLoadingMessage := videoLoadingMessage s |}
  | setApiKeySelected v =>
      {| prompt := prompt s;
         imageData := imageData s;
         videoUrl := videoUrl s;
         aspectRatio := aspectRatio s;
         isGeneratingImage := isGeneratingImage s;
         isGeneratingVideo := isGeneratingVideo s;
         error := error s;
         apiKeySelected := v;
         videoLoadingMessage := videoLoadingMessage s |}
  | setVideoLoadingMessage v =>
      {| prompt := prompt s;
         imageData := imageData s;
         videoUrl := videoUrl s;
         aspectRatio := aspectRatio s;
         isGeneratingImage := isGeneratingImage s;
         isGeneratingVideo := isGeneratingVideo s;
         error := error s;
         apiKeySelected := apiKeySelected s;
         videoLoadingMessage := v |}
  end.

(** The two methods the code looks for on [window.aistudio]. *)
Variant method : Type := method_hasSelectedApiKey | method_openSelectKey.

(** The operations a handler awaits: the host's credential interface, the
    two functions of the gateway and [fileToBase64] of [./utils], which is
    not part of the sources.  How a call settles is up to the environment
    of the handler; [runsGateway] below ties the two calls of the gateway
    to the runs of [Gateway.generateLogo] and [Gateway.animateLogo]. *)
Variant call : Type -> Type :=
| HasSelectedApiKey : call bool
| OpenSelectKey : call unit
| GenerateLogo (prompt : jsstring) : call jsstring
| AnimateLogo (imageData mimeType : jsstring) (aspectRatio : AspectRatio)
  : call jsstring
| FileToBase64 (file : File) : call jsstring.

(** A timer callback: a closure over one mutable local variable.  Run on
    the current value of the variable, it gives the new value and the
    state setters it calls. *)
Definition Callback : Type := nat -> nat * list setter.

(** The interactions of a handler.  [AistudioProvides m] is the guard
    [window.aistudio && typeof window.aistudio.m === 'function']. *)
Variant appE : Type -> Type :=
| Await {X : Type} (c : call X) : appE (Error + X)%type
| SetState (u : setter) : appE unit
| AistudioProvides (m : method) : appE bool
| SetInterval (callback : Callback) (local : nat) (ms : Z) : appE nat
| ClearInterval (intervalId : nat) : appE unit.

Definition setState (u : setter) : async appE unit := perform (SetState u).

Definition checkApiKey : async appE unit :=
  let* provided := perform (AistudioProvides method_hasSelectedApiKey) in
  if provided
  then
    let* hasKey := await (Await HasSelectedApiKey) in
    setState (setApiKeySelected hasKey)
  else resolve tt.

Definition handleSelectApiKey : async appE unit :=
  let* provided := perform (AistudioProvides method_openSelectKey) in
  if provided
  then
    await (Await OpenSelectKey) ;;;
    setState (setApiKeySelected true)
  else resolve tt.

(** The handlers close over the state of the render they were created in:
    [s] is that snapshot; the setters write to the live state. *)
Definition handleGenerateLogo (s : State) : async appE unit :=
  if negb (truthy (trim (prompt s)))
  then setState (setError (Some (js "Please enter a description for your logo.")))
  else
    setState (setError None) ;;;
    setState (setIsGeneratingImage true) ;;;
    setState (setVideoUrl None) ;;;
    setState (setImageData None) ;;;
    tryFinally
      (tryCatch
         (let* base64Image := await (Await (GenerateLogo (prompt s))) in
          setState (setImageData
                 (Some {| base64 := base64Image; mimeType := js "image/png" |})))
         (fun e =>
            setState (setError
                   (Some (js "Image generation failed: " +++ toString (message e))))))
      (setState (setIsGeneratingImage false)).

Definition messages : list jsstring :=
  [ js "Warming up the animation engine...";
    js "Choreographing pixel movements...";
    js "Rendering cinematic magic...";
    js "This can take a few minutes, please wait...";
    js "Almost there, adding the final touches..." ].

(** [messages[i]]; every index the code uses is in range. *)
Definition message_at (i : nat) : jsstring := nth i messages [].

(** The callback given to [setInterval]. *)
Definition rotateMessage : Callback :=
  fun messageIndex =>
    let messageIndex := (messageIndex + 1) mod (List.length messages) in
    (messageIndex, [setVideoLoadingMessage (message_at messageIndex)]).

(** A state with its progress message replaced. *)
Definition showing (msg : jsstring) (s : State) : State :=
  update (setVideoLoadingMessage msg) s.

(** [e.message?.includes(p)], as a condition. *)
Definition messageIncludes (e : Error) (p : jsstring) : bool :=
  match message e with
  | Some m => includes m p
  | None => false
  end.

Definition handleAnimateLogo (s : State) : async appE unit :=
  match imageData s with
  | None => setState (setError (Some (js "Please generate or upload a logo first.")))
  | Some imageData =>
      checkApiKey ;;;
      (if negb (apiKeySelected s) then handleSelectApiKey else resolve tt) ;;;
      setState (setError None) ;;;
      setState (setIsGeneratingVideo true) ;;;
      setState (setVideoUrl None) ;;;
      let messageIndex := 0 in
      setState (setVideoLoadingMessage (message_at messageIndex)) ;;;
      let* intervalId := perform (SetInterval rotateMessage messageIndex 4000) in
      tryFinally
        (tryCatch
           (let* url :=
              await (Await (AnimateLogo (base64 imageData) (mimeType imageData)
                              (aspectRatio s))) in
            setState (setVideoUrl (Some url)))
           (fun e =>
              if messageIncludes e (js "Requested entity was not found")
              then
                setState (setError
                       (Some (js "API Key error. Please re-select your API Key and try again."))) ;;;
                setState (setApiKeySelected false)
              else
                setState (setError
                       (Some (js "Video animation failed: " +++ toString (message e))))))
        (perform (ClearInterval intervalId) ;;;
         setState (setIsGeneratingVideo false) ;;;
         setState (setVideoLoadingMessage (js EmptyString)))
  end.

(** [e.target.files?.[0]] *)
Definition firstFile (files : option (list File)) : option File :=
  match files with
  | Some (file :: _) => Some file
  | Some [] | None => None
  end.

Definition handleFileChange (files : option (list File)) : async appE unit :=
  match firstFile files with
  | None => resolve tt
  | Some file =>
      if negb (startsWith (fileType file) (js "image/"))
      then setState (setError (Some (js "Please upload a valid image file.")))
      else
        tryCatch
          (setState (setError None) ;;;
           setState (setVideoUrl None) ;;;
           let* base64 := await (Await (FileToBase64 file)) in
           setState (setImageData
                  (Some {| base64 := base64; mimeType := fileType file |})))
          (fun e =>
             setState (setError
                    (Some (js "Failed to read file: " +++ toString (message e)))) ;;;
             setState (setImageData None))
  end.

(** *** The environment of the component

    The machine a handler runs on: the live React state and the pending
    interval timers of the browser. *)
Record Interval : Type := mkInterval {
  intervalId : nat;
  delay : Z;
  callback : Callback;
  local : nat
}.

Record Machine : Type := mkMachine {
  state : State;
  intervals : list Interval;
  nextIntervalId : nat
}.

(** The component freshly mounted with state [s]. *)
Definition mounted (s : State) : Machine :=
  {| state := s; intervals := []; nextIntervalId := 1 |}.

Definition withState (m : Machine) (s : State) : Machine :=
  {| state := s; intervals := intervals m; nextIntervalId := nextIntervalId m |}.

(** The machine after one call of a state setter. *)
Definition after (u : setter) (m : Machine) : Machine :=
  withState m (update u (state m)).

(** One firing of every pending interval, oldest first: each callback runs
    on its local variable and its setters are applied. *)
Fixpoint fireAll (pending : list Interval) (s : State) : list Interval * State :=
  match pending with
  | [] => ([], s)
  | i :: rest =>
      let (local', calls) := callback i (local i) in
      let s' := fold_left (fun s u => update u s) calls s in
      let (rest', s'') := fireAll rest s' in
      ({| intervalId := intervalId i; delay := delay i;
          callback := callback i; local := local' |} :: rest', s'')
  end.

Definition tick (m : Machine) : Machine :=
  let (pending, s) := fireAll (intervals m) (state m) in
  {| state := s; intervals := pending; nextIntervalId := nextIntervalId m |}.

Fixpoint ticks (n : nat) (m : Machine) : Machine :=
  match n with
  | 0 => m
  | S n' => ticks n' (tick m)
  end.

(** Teardown of the component.  React runs the cleanup functions that the
    effects of the component returned; the one effect of [App],
    [useEffect(() => { checkApiKey(); }, [checkApiKey])], returns none. *)
Definition effectCleanups : list (Machine -> Machine) := [].

Definition unmount (m : Machine) : Machine :=
  fold_left (fun m cleanup => cleanup m) effectCleanups m.

(** An interaction is an event with the answer it got; a log entry keeps
    the machine as it was when the event was issued. *)
Inductive interaction : Type :=
| Ev : forall X : Type, appE X -> X -> interaction.
Arguments Ev {X} _ _.

Record entry : Type := mkEntry { before : Machine; what : interaction }.

Definition World : Type := (Machine * list entry)%type.

(** The environment of a handler: whether the host provides each method,
    how each awaited call settles, and how many times the event loop
    fires the pending intervals while the call is awaited. *)
Record Environment : Type := mkEnvironment {
  aistudio : method -> bool;
  settle : forall X : Type, call X -> Error + X;
  firings : forall X : Type, call X -> nat
}.

Definition clearInterval (id : nat) (m : Machine) : Machine :=
  {| state := state m;
     intervals := filter (fun i => negb (Nat.eqb (intervalId i) id)) (intervals m);
     nextIntervalId := nextIntervalId m |}.

Definition setInterval (cb : Callback) (local0 : nat) (ms : Z) (m : Machine)
  : Machine :=
  {| state := state m;
     intervals := intervals m ++
       [ {| intervalId := nextIntervalId m; delay := ms;
            callback := cb; local := local0 |} ];
     nextIntervalId := S (nextIntervalId m) |}.

Definition handle (env : Environment) (X : Type) (e : appE X) (w : World)
  : X * World :=
  let (m, log) := w in
  match e in appE X return X * World with
  | Await c =>
      let x := settle env c in
      (x, (ticks (firings env c) m, log ++ [mkEntry m (Ev (Await c) x)]))
  | SetState u =>
      (tt, (after u m, log ++ [mkEntry m (Ev (SetState u) tt)]))
  | AistudioProvides meth =>
      let x := aistudio env meth in
      (x, (m, log ++ [mkEntry m (Ev (AistudioProvides meth) x)]))
  | SetInterval cb local0 ms =>
      let x := nextIntervalId m in
      (x, (setInterval cb local0 ms m,
           log ++ [mkEntry m (Ev (SetInterval cb local0 ms) x)]))
  | ClearInterval id =>
      (tt, (clearInterval id m, log ++ [mkEntry m (Ev (ClearInterval id) tt)]))
  end.

(** A run of a handler in [env] on machine [m], with an empty log. *)
Definition run (env : Environment) {R : Type} (fuel : nat)
  (t : itree appE R) (m : Machine) : option (R * World) :=
  exec (handle env) fuel t (m, []).

(** The events of a log, without the snapshots. *)
Definition events (log : list entry) : list interaction := map what log.

(** The calls to the host's credential interface settle with a value. *)
Definition hostResponds (env : Environment) : Prop :=
  (exists hasKey, settle env HasSelectedApiKey = inr hasKey) /\
  settle env OpenSelectKey = inr tt.

(** Classes of interactions. *)
Definition isOpenSelectKey (i : interaction) : bool :=
  match i with
  | Ev (Await OpenSelectKey) _ => true
  | _ => false
  end.

Definition isAnimateLogo (i : interaction) : bool :=
  match i with
  | Ev (Await (AnimateLogo _ _ _)) _ => true
  | _ => false
  end.

Definition isHostEvent (i : interaction) : bool :=
  match i with
  | Ev (Await HasSelectedApiKey) _ => true
  | Ev (Await OpenSelectKey) _ => true
  | Ev (AistudioProvides _) _ => true
  | _ => false
  end.

Definition setsApiKeySelected (i : interaction) : bool :=
  match i with
  | Ev (SetState (setApiKeySelected _)) _ => true
  | _ => false
  end.

(** The interval that [handleAnimateLogo] registers on machine [m]. *)
Definition rotation (m : Machine) (messageIndex : nat) : Interval :=
  {| intervalId := nextIntervalId m; delay := 4000;
     callback := rotateMessage; local := messageIndex |}.

(** The number of interactions of [handleAnimateLogo] before it awaits
    [animateLogo]: the credential check, the picker, and five more to
    start the progress display. *)
Definition interactionsBeforeAnimate (env : Environment) (s : State) : nat :=
  (if aistudio env method_hasSelectedApiKey then 3 else 1) +
  (if apiKeySelected s then 0
   else if aistudio env method_openSelectKey then 3 else 1) + 5.

(** What the handler receives when a run of [Gateway.generateLogo] ends
    with [r].  The handler takes the result as the [string] of the
    function's declaration: a rejection and a string are received as they
    are; [undefined] is not a value of that type, and the component's
    model says nothing of a call that resolves with it. *)
Definition received (r : Error + option jsstring) : option (Error + jsstring) :=
  match r with
  | inl e => Some (inl e)
  | inr (Some bytes) => Some (inr bytes)
  | inr None => None
  end.

(** The environment [env] of the component runs the gateway in [genv]:
    a call of one of the two gateway functions settles as the run of that
    function in [genv] ends. *)
Definition runsGateway (genv : Gateway.Environment) (env : Environment) : Prop :=
  (forall prompt r log x,
     returns (Gateway.handle genv) (Gateway.generateLogo prompt) [] r log ->
     received r = Some x ->
     settle env (GenerateLogo prompt) = x) /\
  (forall imageData mimeType aspectRatio r log,
     returns (Gateway.handle genv)
       (Gateway.animateLogo imageData mimeType aspectRatio) [] r log ->
     settle env (AnimateLogo imageData mimeType aspectRatio) = r).

(** *** Example environments and states *)

(** A host that provides both methods or none, says [hasKey], lets the
    picker return, and settles the three other calls as given; every
    awaited call lasts [n] firings of the pending intervals. *)
Definition exampleEnv (provided hasKey : bool)
  (logo video file : Error + jsstring) (n : nat) : Environment :=
  {| aistudio := fun _ => provided;
     settle := fun X c =>
       match c in call X return Error + X with
       | HasSelectedApiKey => inr hasKey
       | OpenSelectKey => inr tt
       | GenerateLogo _ => logo
       | AnimateLogo _ _ _ => video
       | FileToBase64 _ => file
       end;
     firings := fun _ _ => n |}.

(** A state with a generated logo and its video. *)
Definition stateWithVideo : State :=
  {| prompt := js "A minimalist owl icon for an education app";
     imageData := Some {| base64 := js "iVBOR"; mimeType := js "image/png" |};
     videoUrl := Some (js "blob:video-1");
     aspectRatio := ratio_16_9;
     isGeneratingImage := false;
     isGeneratingVideo := false;
     error := None;
     apiKeySelected := false;
     videoLoadingMessage := js EmptyString |}.

Definition pngFile : File := {| fileType := js "image/png"; fileId := 1 |}.
Definition textFile : File := {| fileType := js "text/plain"; fileId := 2 |}.

(** The same state with a description made of a space, a tab and a
    no-break space. *)
Definition stateBlankPrompt : State :=
  update (setPrompt [32; 9; 160]%N) stateWithVideo.

End App.

(** ** Runs of the gateway that fail *)

Module Failures.
Import Gateway.

(** The completion flag is observed false [N] times, and then the remote
    call that should answer the next handle rejects with [e]: the submit
    call when [N] is zero, the [N]-th status query otherwise. *)
Definition flagFalseThenRejected (env : Environment) (base : nat)
  (apiKey : jsstring) (start : Error + Operation) (N : nat) (e : Error) : Prop :=
  (forall k, k < N ->
     exists o, jobHandle env base apiKey start k = inr o /\ done o = false) /\
  jobHandle env base apiKey start N = inl e.

(** The first status query answers a handle that is not done, and the
    second rejects. *)
Definition envSecondQueryRejects : Environment :=
  {| API_KEY := fun _ => Some (js "K1");
     generateImages := fun _ _ _ => inr {| generatedImages := None |};
     generateVideos := fun _ _ _ => inr (operationWith 0 false None);
     getVideosOperation := fun k _ _ =>
       match k with
       | 0 => inr (operationWith 1 false None)
       | _ => inl (newError (js "503 Service Unavailable"))
       end;
     fetch := fun _ _ => inr {| ok := true; statusText := js "OK"; responseId := 1 |};
     blob := fun _ _ => inr [0; 0; 0; 24]%N;
     createObjectURL := fun _ _ => js "blob:video-1" |}.

(** The job is done at submit, and the credential is gone when the
    download starts. *)
Definition envKeyWithdrawn : Environment :=
  {| API_KEY := fun k => match k with 0 => Some (js "K1") | _ => None end;
     generateImages := fun _ _ _ => inr {| generatedImages := None |};
     generateVideos := fun _ _ _ =>
       inr (operationWith 0 true (Some (js "https://v/1?alt=media")));
     getVideosOperation := fun _ _ o => inr o;
     fetch := fun _ _ => inr {| ok := true; statusText := js "OK"; responseId := 1 |};
     blob := fun _ _ => inr [0; 0; 0; 24]%N;
     createObjectURL := fun _ _ => js "blob:video-1" |}.

(** The video endpoint does not know the model for the credential. *)
Definition envEntityNotFound : Environment :=
  {| API_KEY := fun _ => Some (js "K1");
     generateImages := fun _ _ _ => inr {| generatedImages := None |};
     generateVideos := fun _ _ _ =>
       inl (newError (js "404: Requested entity was not found."));
     getVideosOperation := fun _ _ o => inr o;
     fetch := fun _ _ => inr {| ok := true; statusText := js "OK"; responseId := 1 |};
     blob := fun _ _ => inr [0; 0; 0; 24]%N;
     createObjectURL := fun _ _ => js "blob:video-1" |}.

End Failures.

(** ** The result of a completed job *)

Module Locations.
Import Gateway.

(** The result location of a job handle, in the words of the
    specification: the location URI nested in the handle, that of the
    video of the first generated video of its response.  It is absent
    when the response, the list, its first entry, the video or the URI is
    missing. *)
Definition resultLocation (operation : Operation) (location : jsstring) : Prop :=
  exists r first others vid,
    response operation = Some r /\
    generatedVideos r = Some (first :: others) /\
    video first = Some vid /\
    uri vid = Some location.

(** A handle of a completed job with no response at all. *)
Definition operationWithoutResponse : Operation :=
  {| opName := [0%N]; done := true; response := None |}.

(** The job is done at submit and its handle holds no result. *)
Definition envNoResult : Environment :=
  {| API_KEY := fun _ => Some (js "K1");
     generateImages := fun _ _ _ => inr {| generatedImages := None |};
     generateVideos := fun _ _ _ => inr operationWithoutResponse;
     getVideosOperation := fun _ _ o => inr o;
     fetch := fun _ _ => inr {| ok := true; statusText := js "OK"; responseId := 1 |};
     blob := fun _ _ => inr [0; 0; 0; 24]%N;
     createObjectURL := fun _ _ => js "blob:video-1" |}.

(** The job is done at submit with a result, and [fetch] rejects. *)
Definition envFetchRejects : Environment :=
  {| API_KEY := fun _ => Some (js "K1");
     generateImages := fun _ _ _ => inr {| generatedImages := None |};
     generateVideos := fun _ _ _ =>
       inr (operationWith 0 true (Some (js "https://v/1?alt=media")));
     getVideosOperation := fun _ _ o => inr o;
     fetch := fun _ _ => inl (newError (js "Failed to fetch"));
     blob := fun _ _ => inr [0; 0; 0; 24]%N;
     createObjectURL := fun _ _ => js "blob:video-1" |}.

(** The job is done at submit with a result, the download answers OK and
    the read of its body rejects. *)
Definition envBlobRejects : Environment :=
  {| API_KEY := fun _ => Some (js "K1");
     generateImages := fun _ _ _ => inr {| generatedImages := None |};
     generateVideos := fun _ _ _ =>
       inr (operationWith 0 true (Some (js "https://v/1?alt=media")));
     getVideosOperation := fun _ _ o => inr o;
     fetch := fun _ _ => inr {| ok := true; statusText := js "OK"; responseId := 1 |};
     blob := fun _ _ => inl (newError (js "network error"));
     createObjectURL := fun _ _ => js "blob:video-1" |}.

End Locations.

(** ** App.tsx: what the component renders *)

Module View.
Import App.

(** The icons of [./components/icons]. *)
Variant Icon : Type := ImageIcon | LoaderIcon | MovieIcon.

(** The five alternatives of the display column. *)
Variant Display : Type :=
| VideoLoader (message : jsstring)
| VideoPlayer (src : jsstring)
| LogoImage (src : jsstring)
| LogoLoader
| Placeholder.

(** The string that a value of type [AspectRatio] is. *)
Definition ratioString (ratio : AspectRatio) : jsstring :=
  match ratio with
  | ratio_16_9 => js "16:9"
  | ratio_9_16 => js "9:16"
  end.

(** [a === b] on [AspectRatio]. *)
Definition ratio_eqb (a b : AspectRatio) : bool :=
  match a, b with
  | ratio_16_9, ratio_16_9 | ratio_9_16, ratio_9_16 => true
  | _, _ => false
  end.

(** One button of the aspect-ratio row: its [key], which is also the
    value its [onClick] stores, whether it is highlighted, and its text. *)
Record RatioButton : Type := mkRatioButton {
  ratio : AspectRatio;
  ratioDisabled : bool;
  ratioSelected : bool;
  ratioText : jsstring
}.

(** The parts of the rendered tree that depend on the state. *)
Record View : Type := mkView {
  alert : option jsstring;
  promptValue : jsstring;
  promptDisabled : bool;
  generateDisabled : bool;
  generateLabel : Icon * jsstring;
  uploadDisabled : bool;
  ratioButtons : list RatioButton;
  keyBanner : bool;
  animateDisabled : bool;
  animateLabel : Icon * jsstring;
  display : Display
}.

(** The JSX that [App] returns, for the state [s] of the render.
    - [alert] is [{error && <div role="alert">...{error}</div>}]: the
      empty string renders nothing;
    - the text area, the generate button, the file input and the ratio
      buttons carry [disabled={isGeneratingImage || isGeneratingVideo}],
      the animate button
      [disabled={!imageData || isGeneratingImage || isGeneratingVideo}];
    - the label of a button is its icon and the text that follows it;
    - the ratio buttons are
      [(['16:9', '9:16'] as AspectRatio[]).map((ratio) => ...)];
    - [keyBanner] is [{!apiKeySelected && ...}];
    - [display] is the chain of conditionals of the display column. *)
Definition render (s : State) : View :=
  {| alert :=
       match error s with
       | Some e => if truthy e then Some e else None
       | None => None
       end;
     promptValue := prompt s;
     promptDisabled := isGeneratingImage s || isGeneratingVideo s;
     generateDisabled := isGeneratingImage s || isGeneratingVideo s;
     generateLabel :=
       if isGeneratingImage s
       then (LoaderIcon, js " Generating...")
       else (ImageIcon, js " Generate Logo");
     uploadDisabled := isGeneratingImage s || isGeneratingVideo s;
     ratioButtons :=
       map (fun ratio =>
              {| ratio := ratio;
                 ratioDisabled := isGeneratingImage s || isGeneratingVideo s;
                 ratioSelected := ratio_eqb (aspectRatio s) ratio;
                 ratioText :=
                   ratioString ratio +++ js " " +++
                   (if ratio_eqb ratio ratio_16_9
                    then js "(Landscape)" else js "(Portrait)") |})
           [ratio_16_9; ratio_9_16];
     keyBanner := negb (apiKeySelected s);
     animateDisabled :=
       negb (match imageData s with Some _ => true | None => false end)
       || isGeneratingImage s || isGeneratingVideo s;
     animateLabel :=
       if isGeneratingVideo s
       then (LoaderIcon, js " Animating...")
       else (MovieIcon, js " Animate Logo");
     display :=
       if isGeneratingVideo s then VideoLoader (videoLoadingMessage s)
       else if truthy_opt (videoUrl s) then VideoPlayer (toString (videoUrl s))
       else
         match imageData s with
         | Some img =>
             LogoImage (js "data:" +++ mimeType img +++ js ";base64," +++ base64 img)
         | None => if isGeneratingImage s then LogoLoader else Placeholder
         end |}.

(** What the user can do to the rendered tree: the events that have a
    listener. *)
Variant Action : Type :=
| ChangePrompt (value : jsstring)
| ClickGenerateLogo
| ChangeFile (files : option (list File))
| ClickRatio (ratio : AspectRatio)
| ClickSelectApiKey
| ClickAnimateLogo.

(** The element of the action is rendered and is not disabled. *)
Definition enabled (v : View) (a : Action) : bool :=
  match a with
  | ChangePrompt _ => negb (promptDisabled v)
  | ClickGenerateLogo => negb (generateDisabled v)
  | ChangeFile _ => negb (uploadDisabled v)
  | ClickRatio r =>
      existsb (fun b => ratio_eqb (ratio b) r && negb (ratioDisabled b))
        (ratioButtons v)
  | ClickSelectApiKey => keyBanner v
  | ClickAnimateLogo => negb (animateDisabled v)
  end.

(** The listener of each action, as created by the render of state [s]. *)
Definition listener (s : State) (a : Action) : async appE unit :=
  match a with
  | ChangePrompt value => setState (setPrompt value)
  | ClickGenerateLogo => handleGenerateLogo s
  | ChangeFile files => handleFileChange files
  | ClickRatio ratio => setState (setAspectRatio ratio)
  | ClickSelectApiKey => handleSelectApiKey
  | ClickAnimateLogo => handleAnimateLogo s
  end.

(** The effect that runs once the component is mounted:
    [useEffect(() => { checkApiKey(); }, [checkApiKey])]. *)
Definition mountEffect : async appE unit := checkApiKey.

(** Neither busy flag is set and no timer is pending. *)
Definition idle (m : Machine) : Prop :=
  isGeneratingImage (state m) = false /\
  isGeneratingVideo (state m) = false /\
  intervals m = [].

(** The states a session can be in: the component is mounted, its
    effect runs, and then the user triggers one listener that the view
    offers after the other, each running to its end in some environment. *)
Inductive reachable : Machine -> Prop :=
| reachable_mounted env r m log :
    returns (handle env) mountEffect (mounted initialState, []) r (m, log) ->
    reachable m
| reachable_action env m a r m' log :
    reachable m ->
    enabled (render (state m)) a = true ->
    returns (handle env) (listener (state m) a) (m, []) r (m', log) ->
    reachable m'.

(** Between two listeners: nothing is in progress, the progress message
    is empty, a video is there only with its image, and the error, if any,
    is shown. *)
Definition settled (m : Machine) : Prop :=
  idle m /\
  videoLoadingMessage (state m) = [] /\
  (imageData (state m) = None -> videoUrl (state m) = None) /\
  alert (render (state m)) = error (state m).

(** *** Example environments and states *)

(** A host whose query for the selected key rejects. *)
Definition envHostFailure : Environment :=
  {| aistudio := fun _ => true;
     settle := fun X c =>
       match c in call X return Error + X with
       | HasSelectedApiKey => inl (newError (js "host unavailable"))
       | OpenSelectKey => inr tt
       | GenerateLogo _ => inr (js "iVBOR")
       | AnimateLogo _ _ _ => inr (js "blob:video-1")
       | FileToBase64 _ => inr (js "AAAA")
       end;
     firings := fun _ _ => 0 |}.

(** A host that reports no key and whose picker rejects. *)
Definition envPickerRejects : Environment :=
  {| aistudio := fun _ => true;
     settle := fun X c =>
       match c in call X return Error + X with
       | HasSelectedApiKey => inr false
       | OpenSelectKey => inl (newError (js "picker closed"))
       | GenerateLogo _ => inr (js "iVBOR")
       | AnimateLogo _ _ _ => inr (js "blob:video-1")
       | FileToBase64 _ => inr (js "AAAA")
       end;
     firings := fun _ _ => 0 |}.

(** A state with a logo and the key marked as selected. *)
Definition stateKeySelected : State :=
  update (setApiKeySelected true) stateWithVideo.

End View.

(** ** Listeners that overlap *)

Module Overlap.
Import App View.

(** A listener stopped at an awaited call: the call, and what the
    listener does with its answer. *)
Inductive Pending : Type :=
| pending : forall X : Type, call X -> (Error + X -> async appE unit) -> Pending.

(** A listener runs without interruption until it ends or awaits a call:
    [advance] runs [t] that far, answering its other events as [handle]
    does. *)
Fixpoint advance (env : Environment) (fuel : nat) (t : async appE unit) (w : World)
  : option (((Error + unit) + Pending) * World) :=
  match fuel with
  | 0 => None
  | S f =>
      match observe t with
      | RetF r => Some (inl r, w)
      | TauF t' => advance env f t' w
      | VisF e k =>
          match e in appE X
                return (X -> itree appE (Error + unit)) ->
                       option (((Error + unit) + Pending) * World)
          with
          | Await c => fun k => Some (inr (pending c k), w)
          | SetState u => fun k =>
              let (x, w') := handle env (SetState u) w in advance env f (k x) w'
          | AistudioProvides meth => fun k =>
              let (x, w') := handle env (AistudioProvides meth) w in
              advance env f (k x) w'
          | SetInterval cb local0 ms => fun k =>
              let (x, w') := handle env (SetInterval cb local0 ms) w in
              advance env f (k x) w'
          | ClearInterval id => fun k =>
              let (x, w') := handle env (ClearInterval id) w in
              advance env f (k x) w'
          end k
      end
  end.

(** The awaited call of a stopped listener settles: the listener goes on
    with the answer, until it ends or awaits again. *)
Definition resume (env : Environment) (fuel : nat) (p : Pending) (w : World)
  : option (((Error + unit) + Pending) * World) :=
  match p with
  | pending c k =>
      let (x, w') := handle env (Await c) w in advance env fuel (k x) w'
  end.

(** What happens next in the page: the user triggers a listener, or the
    awaited call of the [i]-th stopped listener settles. *)
Variant Step : Type :=
| Dispatch (a : Action)
| Settle (i : nat).

(** The page between two steps: the machine with the log, and the
    listeners stopped at a call, oldest first. *)
Record Page : Type := mkPage {
  world : World;
  waiting : list Pending
}.

(** One step.  A listener is created by the latest render, so it closes
    over the state of the machine when it is triggered; it is triggered
    only when the view offers it. *)
Definition step (env : Environment) (fuel : nat) (st : Step) (pg : Page)
  : option Page :=
  match st with
  | Dispatch a =>
      let s := state (fst (world pg)) in
      if enabled (render s) a
      then
        match advance env fuel (listener s a) (world pg) with
        | Some (inl _, w') => Some {| world := w'; waiting := waiting pg |}
        | Some (inr p, w') => Some {| world := w'; waiting := waiting pg ++ [p] |}
        | None => None
        end
      else None
  | Settle i =>
      match nth_error (waiting pg) i with
      | Some p =>
          match resume env fuel p (world pg) with
          | Some (inl _, w') =>
              Some {| world := w';
                      waiting := firstn i (waiting pg) ++ skipn (S i) (waiting pg) |}
          | Some (inr p', w') =>
              Some {| world := w';
                      waiting :=
                        firstn i (waiting pg) ++ p' :: skipn (S i) (waiting pg) |}
          | None => None
          end
      | None => None
      end
  end.

Fixpoint steps (env : Environment) (fuel : nat) (sts : list Step) (pg : Page)
  : option Page :=
  match sts with
  | [] => Some pg
  | st :: rest =>
      match step env fuel st pg with
      | Some pg' => steps env fuel rest pg'
      | None => None
      end
  end.

(** The component freshly mounted with state [s], nothing stopped. *)
Definition opened (s : State) : Page :=
  {| world := (mounted s, []); waiting := [] |}.

(** A host without the credential interface; the read of a file gives
    [AAAA] and a call of [animateLogo] gives [blob:video-2]. *)
Definition envOverlap : Environment :=
  exampleEnv false false (inr (js "iVBOR")) (inr (js "blob:video-2"))
    (inr (js "AAAA")) 0.

End Overlap.

(** ** Runs that end *)

Module Outcomes.

Section Ends.
Context {E : Type -> Type} {W : Type}.
Variable handle : forall X, E X -> W -> X * W.

(** The run of [t] from [w] ends, and its result and final world
    satisfy [Q]. *)
Definition ends {R : Type} (t : itree E R) (w : W) (Q : R -> W -> Prop) : Prop :=
  exists r w', returns handle t w r w' /\ Q r w'.

End Ends.

End Outcomes.

(** ** Facts about runs *)

Module AsyncFacts.

Section ExecFacts.
Context {E : Type -> Type} {W : Type}.
Variable handle : forall X, E X -> W -> X * W.

Lemma exec_observe {R} (t u : itree E R) :
  observe t = observe u ->
  forall fuel w, exec handle fuel t w = exec handle fuel u w.
Proof.
  intros H [|f] w; simpl; [reflexivity|]. rewrite H. reflexivity.
Qed.

Lemma exec_S {R} fuel (t : itree E R) w res :
  exec handle fuel t w = Some res -> exec handle (S fuel) t w = Some res.
Proof.
  revert t w. induction fuel as [|f IH]; intros t w H; [discriminate|].
  simpl in H. change (exec handle (S (S f)) t w) with
    (match observe t with
     | RetF r => Some (r, w)
     | TauF t' => exec handle (S f) t' w
     | VisF e k => let (x, w') := handle e w in exec handle (S f) (k x) w'
     end).
  destruct (observe t) as [r|t'|X e k].
  - exact H.
  - apply IH, H.
  - destruct (handle e w) as [x w']. apply IH, H.
Qed.

Lemma exec_mono {R} f1 f2 (t : itree E R) w res :
  f1 <= f2 -> exec handle f1 t w = Some res -> exec handle f2 t w = Some res.
Proof.
  induction 1 as [|m Hle IH]; intro H; [exact H|].
  apply exec_S, IH, H.
Qed.

Lemma returns_det {R} (t : itree E R) w r1 w1 r2 w2 :
  returns handle t w r1 w1 -> returns handle t w r2 w2 ->
  r1 = r2 /\ w1 = w2.
Proof.
  intros [f1 H1] [f2 H2].
  apply (exec_mono (f2 := Nat.max f1 f2)) in H1; [|lia].
  apply (exec_mono (f2 := Nat.max f1 f2)) in H2; [|lia].
  rewrite H1 in H2. inversion H2. split; reflexivity.
Qed.

Lemma returns_ret {R} (r : R) w : returns handle (Ret r) w r w.
Proof. exists 1. reflexivity. Qed.

Lemma returns_tau {R} (t : itree E R) w r w' :
  returns handle t w r w' -> returns handle (Tau t) w r w'.
Proof. intros [f H]. exists (S f). exact H. Qed.

Lemma returns_trigger {X} (e : E X) w :
  returns handle (ITree.trigger e) w (fst (handle e w)) (snd (handle e w)).
Proof. exists 2. simpl. destruct (handle e w). reflexivity. Qed.

Lemma observe_bind {R S} (t : itree E R) (k : R -> itree E S) :
  observe (ITree.bind t k) =
  observe (match observe t with
           | RetF r => k r
           | TauF t' => Tau (ITree.bind t' k)
           | VisF e h => Vis e (fun x => ITree.bind (h x) k)
           end).
Proof. reflexivity. Qed.

Lemma exec_bind {R S} (k : R -> itree E S) f1 :
  forall (t : itree E R) w x w1,
  exec handle f1 t w = Some (x, w1) ->
  forall f2 res, exec handle f2 (k x) w1 = Some res ->
  exec handle (f1 + f2) (ITree.bind t k) w = Some res.
Proof.
  induction f1 as [|f IH]; intros t w x w1 H f2 res H2; [discriminate|].
  simpl in H.
  rewrite (exec_observe (ITree.bind t k) _ (observe_bind t k)).
  destruct (observe t) as [r|t'|X e h].
  - inversion H; subst. apply (exec_mono (f1 := f2)); [lia|exact H2].
  - simpl. apply (IH _ _ _ _ H _ _ H2).
  - simpl. destruct (handle e w) as [a w']. apply (IH _ _ _ _ H _ _ H2).
Qed.

Lemma returns_bind {R S} (t : itree E R) (k : R -> itree E S) w x w1 y w2 :
  returns handle t w x w1 -> returns handle (k x) w1 y w2 ->
  returns handle (ITree.bind t k) w y w2.
Proof.
  intros [f1 H1] [f2 H2]. exists (f1 + f2). eapply exec_bind; eassumption.
Qed.

Lemma returns_observe {R} (t u : itree E R) w r w' :
  observe t = observe u -> returns handle t w r w' -> returns handle u w r w'.
Proof.
  intros H [f Hf]. exists f. rewrite <- (exec_observe t u H). exact Hf.
Qed.

Lemma returns_resolve {A} (a : A) w : returns handle (resolve a) w (inr a) w.
Proof. apply returns_ret. Qed.

Lemma returns_throw {A} (e : Error) w :
  returns handle (@throw E A e) w (inl e) w.
Proof. apply returns_ret. Qed.

Lemma returns_perform {X} (e : E X) w :
  returns handle (perform e) w (inr (fst (handle e w))) (snd (handle e w)).
Proof.
  unfold perform. eapply returns_bind; [apply returns_trigger|apply returns_ret].
Qed.

Lemma returns_await {X} (e : E (Error + X)%type) w :
  returns handle (await e) w (fst (handle e w)) (snd (handle e w)).
Proof. apply returns_trigger. Qed.

Lemma returns_await_as {X} (e : E (Error + X)%type) w x w' :
  handle e w = (x, w') -> returns handle (await e) w x w'.
Proof. intros H. generalize (returns_await e w). rewrite H. exact (fun r => r). Qed.

Lemma returns_perform_as {X} (e : E X) w x w' :
  handle e w = (x, w') -> returns handle (perform e) w (inr x) w'.
Proof. intros H. generalize (returns_perform e w). rewrite H. exact (fun r => r). Qed.

Lemma returns_andThen {A B} (m : async E A) (k : A -> async E B) w x w1 r w2 :
  returns handle m w x w1 ->
  returns handle (match x with inl e => throw e | inr a => k a end) w1 r w2 ->
  returns handle (andThen m k) w r w2.
Proof.
  intros H1 H2. unfold andThen. eapply returns_bind; [exact H1|].
  destruct x; exact H2.
Qed.

Lemma returns_tryCatch {A} (body : async E A) handler w x w1 r w2 :
  returns handle body w x w1 ->
  returns handle (match x with inl e => handler e | inr a => resolve a end)
    w1 r w2 ->
  returns handle (tryCatch body handler) w r w2.
Proof.
  intros H1 H2. unfold tryCatch. eapply returns_bind; [exact H1|].
  destruct x; exact H2.
Qed.

Lemma returns_tryFinally {A} (body : async E A) fin w x w1 y w2 r :
  returns handle body w x w1 ->
  returns handle fin w1 y w2 ->
  r = match y with inl e => inl e | inr _ => x end ->
  returns handle (tryFinally body fin) w r w2.
Proof.
  intros H1 H2 ->. unfold tryFinally. eapply returns_bind; [exact H1|].
  eapply returns_bind; [exact H2|]. destruct y; apply returns_ret.
Qed.

Lemma observe_while {S} (cond : S -> bool) (body : S -> async E S) (s : S) :
  observe
    (ITree.bind
       (if cond s
        then ITree.bind (body s) (fun r => match r with
                                           | inl e => Ret (inr (inl e))
                                           | inr s' => Ret (inl s')
                                           end)
        else Ret (inr (inr s)))
       (fun lr => match lr with
                  | inl l => Tau (while cond body l)
                  | inr r => Ret r
                  end))
  = observe (while cond body s).
Proof. reflexivity. Qed.

Lemma returns_while_stop {S} (cond : S -> bool) (body : S -> async E S) s w :
  cond s = false -> returns handle (while cond body s) w (inr s) w.
Proof.
  intros Hc. eapply returns_observe; [apply observe_while|].
  rewrite Hc. eapply returns_bind; apply returns_ret.
Qed.

Lemma returns_while_step {S} (cond : S -> bool) (body : S -> async E S)
  s w s' w1 r w2 :
  cond s = true ->
  returns handle (body s) w (inr s') w1 ->
  returns handle (while cond body s') w1 r w2 ->
  returns handle (while cond body s) w r w2.
Proof.
  intros Hc Hb Hw. eapply returns_observe; [apply observe_while|].
  rewrite Hc. eapply returns_bind.
  - eapply returns_bind; [exact Hb|apply returns_ret].
  - apply returns_tau, Hw.
Qed.

Lemma returns_while_throw {S} (cond : S -> bool) (body : S -> async E S)
  s w e w1 :
  cond s = true ->
  returns handle (body s) w (inl e) w1 ->
  returns handle (while cond body s) w (inl e) w1.
Proof.
  intros Hc Hb. eapply returns_observe; [apply observe_while|].
  rewrite Hc. eapply returns_bind.
  - eapply returns_bind; [exact Hb|apply returns_ret].
  - apply returns_ret.
Qed.

(** *** Inversion: what a run that ends is made of *)

Lemma exec_bind_inv {R T} (k : R -> itree E T) f :
  forall (t : itree E R) w res,
  exec handle f (ITree.bind t k) w = Some res ->
  exists x w1 f2,
    returns handle t w x w1 /\ f2 <= f /\ exec handle f2 (k x) w1 = Some res.
Proof.
  induction f as [|f IH]; intros t w res H; [discriminate|].
  rewrite (exec_observe (ITree.bind t k) _ (observe_bind t k)) in H.
  destruct (observe t) as [r|t'|X e h] eqn:Ht.
  - exists r, w, (S f). split; [|split; [lia|exact H]].
    exists 1. simpl. rewrite Ht. reflexivity.
  - simpl in H. destruct (IH _ _ _ H) as (x & w1 & f2 & (f1 & H1) & Hle & H2).
    exists x, w1, f2. split; [|split; [lia|exact H2]].
    exists (S f1). simpl. rewrite Ht. exact H1.
  - simpl in H. destruct (handle e w) as [a w'] eqn:He.
    destruct (IH _ _ _ H) as (x & w1 & f2 & (f1 & H1) & Hle & H2).
    exists x, w1, f2. split; [|split; [lia|exact H2]].
    exists (S f1). simpl. rewrite Ht, He. exact H1.
Qed.

Lemma returns_ret_inv {R} (r x : R) w w' :
  returns handle (Ret r) w x w' -> x = r /\ w' = w.
Proof.
  intros H. destruct (returns_det H (returns_ret r w)) as (-> & ->).
  split; reflexivity.
Qed.

(** One round of a loop whose condition holds and whose body gives the
    next value: the rest of the run is a run of the loop on that value,
    on less fuel. *)
Lemma exec_while_inv {T} (cond : T -> bool) (body : T -> async E T)
  s w s' w1 f res :
  cond s = true ->
  returns handle (body s) w (inr s') w1 ->
  exec handle f (while cond body s) w = Some res ->
  exists f', f' < f /\ exec handle f' (while cond body s') w1 = Some res.
Proof.
  intros Hc Hb H.
  rewrite <- (exec_observe _ _ (observe_while cond body s)) in H.
  rewrite Hc in H.
  destruct (exec_bind_inv _ _ _ _ H) as (x & w2 & f2 & Hx & Hle & H2).
  assert (Hstep : returns handle
            (ITree.bind (body s)
               (fun r : Error + T =>
                match r return itree E (T + (Error + T)) with
                | inl e => Ret (inr (inl e))
                | inr s' => Ret (inl s')
                end)) w (inl s') w1).
  { eapply returns_bind; [exact Hb|apply returns_ret]. }
  destruct (returns_det Hx Hstep) as (-> & ->).
  destruct f2 as [|f3]; [discriminate|]. simpl in H2.
  exists f3. split; [lia|exact H2].
Qed.

End ExecFacts.

End AsyncFacts.

(** ** Facts about strings *)

Module JSFacts.

Lemma startsWith_iff s p :
  startsWith s p = true <-> exists rest, s = p ++ rest.
Proof.
  revert s. induction p as [|a p IH]; intros s.
  - split; [intros _; exists s; reflexivity|intros _; destruct s; reflexivity].
  - destruct s as [|b s]; cbn [startsWith].
    + split; [discriminate|intros (rest & H); discriminate].
    + rewrite andb_true_iff, N.eqb_eq, IH. split.
      * intros (-> & rest & ->). exists rest. reflexivity.
      * intros (rest & H). inversion H; subst. split; [reflexivity|].
        exists rest. reflexivity.
Qed.

(** [s.includes(p)] holds exactly when [p] occurs in [s]. *)
Lemma includes_iff s p :
  includes s p = true <-> exists before after, s = before ++ p ++ after.
Proof.
  induction s as [|c s IH]; cbn [includes]; rewrite orb_true_iff, startsWith_iff.
  - split.
    + intros [(rest & H)|H]; [|discriminate]. exists [], rest. exact H.
    + intros (before & after & H). left.
      destruct before; [exists after; exact H|discriminate].
  - rewrite IH. split.
    + intros [(rest & H)|(before & after & H)].
      * exists [], rest. exact H.
      * exists (c :: before), after. rewrite H. reflexivity.
    + intros (before & after & H). destruct before as [|c' before].
      * left. exists after. exact H.
      * right. inversion H; subst. exists before, after. reflexivity.
Qed.

Lemma trimStart_nil_iff s :
  trimStart s = [] <-> Forall (fun c => isWhiteSpace c = true) s.
Proof.
  induction s as [|c s IH]; cbn [trimStart].
  - split; [constructor|reflexivity].
  - destruct (isWhiteSpace c) eqn:Hc.
    + rewrite IH. split; [intros H; constructor; assumption|].
      intros H; inversion H; assumption.
    + split; [discriminate|]. intros H; inversion H; congruence.
Qed.

Lemma trimStart_whitespace_iff s :
  Forall (fun c => isWhiteSpace c = true) (trimStart s) <->
  Forall (fun c => isWhiteSpace c = true) s.
Proof.
  induction s as [|c s IH]; cbn [trimStart]; [reflexivity|].
  destruct (isWhiteSpace c) eqn:Hc.
  - rewrite IH. split; [intros H; constructor; assumption|].
    intros H; inversion H; assumption.
  - reflexivity.
Qed.

(** [!s.trim()] holds exactly when [s] is empty or made of white space. *)
Lemma trim_falsy_iff s :
  truthy (trim s) = false <-> Forall (fun c => isWhiteSpace c = true) s.
Proof.
  unfold trim, trimEnd.
  assert (Hn : forall l : jsstring, truthy l = false <-> l = []).
  { intros [|x l]; split; intros H; try reflexivity; discriminate. }
  rewrite Hn. split.
  - intros H. apply (f_equal (@rev N)) in H. rewrite rev_involutive in H.
    cbn [rev] in H. apply trimStart_nil_iff in H.
    apply Forall_rev in H. rewrite rev_involutive in H.
    apply trimStart_whitespace_iff, H.
  - intros H. apply trimStart_whitespace_iff in H. apply Forall_rev in H.
    apply trimStart_nil_iff in H. rewrite H. reflexivity.
Qed.

End JSFacts.

(** ** Facts about the gateway *)

Unset Implicit Arguments.

Module GatewayFacts.
Import Gateway AsyncFacts.

Lemma count_app k l1 l2 : count k (l1 ++ l2) = count k l1 + count k l2.
Proof. unfold count. rewrite filter_app, length_app. reflexivity. Qed.

Lemma count_snoc k l X (e : gatewayE X) x :
  count k (l ++ [Ev e x]) =
  count k l + (if kind_eqb (kindOf e) k then 1 else 0).
Proof.
  rewrite count_app. unfold count at 2. simpl.
  destruct (kind_eqb (kindOf e) k); reflexivity.
Qed.

(** Stepping through a gateway function: one interaction at a time. *)
Ltac gw_simpl :=
  cbn [handle answer fst snd negb];
  cbv beta iota.

Ltac gw_step :=
  gw_simpl;
  lazymatch goal with
  | |- returns _ (andThen _ _) _ _ _ => eapply returns_andThen
  | |- returns _ (perform _) _ _ _ => apply returns_perform
  | |- returns _ (await _) _ _ _ => apply returns_await
  | |- returns _ (resolve _) _ _ _ => apply returns_resolve
  | |- returns _ (throw _) _ _ _ => apply returns_throw
  end; gw_simpl.

Lemma getApiKey_run env log :
  returns (handle env) getApiKey log
    (let key := API_KEY env (count KApiKey log) in
     if truthy_opt key then inr (toString key)
     else inl (newError (js "API_KEY environment variable not set.")))
    (log ++ [Ev ProcessEnvApiKey (API_KEY env (count KApiKey log))]).
Proof.
  unfold getApiKey. gw_step; [gw_step|]. gw_simpl.
  destruct (truthy_opt (API_KEY env (count KApiKey log))); gw_step.
Qed.

Lemma generateLogo_run env log prompt :
  let key := API_KEY env (count KApiKey log) in
  let p := generateImagesParameters prompt in
  let answer := generateImages env (count KGenerateImages log) (toString key) p in
  returns (handle env) (generateLogo prompt) log
    (if truthy_opt key then firstImage answer
     else inl (newError (js "API_KEY environment variable not set.")))
    (log ++ Ev ProcessEnvApiKey key ::
       (if truthy_opt key then [Ev (GenerateImages (toString key) p) answer]
        else [])).
Proof.
  intros key p answer. unfold generateLogo.
  gw_step; [apply getApiKey_run|]. fold key. gw_simpl.
  destruct (truthy_opt key) eqn:Hk; [|gw_step].
  gw_step; [gw_step|]. gw_simpl.
  rewrite count_snoc. cbn [kindOf kind_eqb]. rewrite Nat.add_0_r.
  fold p answer. rewrite <- app_assoc. cbn [app].
  unfold firstImage.
  destruct answer as [e|response]; [gw_step|].
  destruct (generatedImages response) as [[|first rest]|]; [gw_step| |gw_step].
  destruct (image first) as [img|]; gw_step.
Qed.

(** *** The polling loop *)

Section Polling.
Variable env : Environment.
Variable base : nat.
Variable apiKey : jsstring.
Variable start : Error + Operation.

Lemma flag_handle N operation k :
  flagFalseThenTrue env base apiKey start N operation -> k <= N ->
  exists o, jobHandle env base apiKey start k = inr o.
Proof.
  intros (Hlt & HN & _) Hk. destruct (Nat.eq_dec k N) as [->|Hne].
  - exists operation. exact HN.
  - destruct (Hlt k) as (o & Ho & _); [lia|]. exists o. exact Ho.
Qed.

Lemma count_pollLog N operation k kd :
  flagFalseThenTrue env base apiKey start N operation -> k <= N ->
  count kd (pollLog env base apiKey start k) =
  match kd with
  | KSetTimeout | KGetVideosOperation => k
  | _ => 0
  end.
Proof.
  intros Hf. induction k as [|k IH]; intros Hk.
  - destruct kd; reflexivity.
  - cbn [pollLog]. rewrite count_app, IH by lia.
    destruct (flag_handle _ _ k Hf) as (o & ->); [lia|].
    destruct kd; cbn; lia.
Qed.

Lemma polling_run N operation (Hf : flagFalseThenTrue env base apiKey start N operation) :
  forall d j o l,
  j + d = N ->
  jobHandle env base apiKey start j = inr o ->
  count KGetVideosOperation l = base ->
  returns (handle env)
    (while (fun operation => negb (done operation))
       (fun operation =>
          andThen (perform (SetTimeout 5000))
            (fun _ => await (GetVideosOperation apiKey operation))) o)
    (l ++ pollLog env base apiKey start j)
    (inr operation)
    (l ++ pollLog env base apiKey start N).
Proof.
  induction d as [|d IH]; intros j o l Hj Ho Hl.
  - replace j with N in * by lia. pose proof Hf as (_ & HN & Hd).
    rewrite HN in Ho. inversion Ho; subst o.
    apply returns_while_stop. rewrite Hd. reflexivity.
  - pose proof Hf as (Hlt & _). destruct (Hlt j) as (o' & Ho' & Hd'); [lia|].
    rewrite Ho in Ho'. inversion Ho'; subst o'.
    destruct (flag_handle _ _ (S j) Hf) as (o2 & Ho2); [lia|].
    eapply returns_while_step.
    + rewrite Hd'. reflexivity.
    + gw_step; [gw_step|]. gw_simpl.
      assert (Hq : getVideosOperation env
                (count KGetVideosOperation
                   ((l ++ pollLog env base apiKey start j) ++ [Ev (SetTimeout 5000) tt]))
                apiKey o = inr o2).
      { rewrite count_snoc, count_app, (count_pollLog _ _ j KGetVideosOperation Hf), Hl by lia.
        cbn [kindOf kind_eqb]. rewrite Nat.add_0_r.
        cbn [jobHandle] in Ho2. rewrite Ho in Ho2. exact Ho2. }
      apply returns_await_as. unfold handle. cbn [answer]. rewrite Hq.
      reflexivity.
    + replace (((l ++ pollLog env base apiKey start j) ++ [Ev (SetTimeout 5000) tt]) ++
               [Ev (GetVideosOperation apiKey o) (inr o2)])
        with (l ++ pollLog env base apiKey start (S j)).
      * apply IH; [lia|exact Ho2|exact Hl].
      * cbn [pollLog]. rewrite Ho, Ho2, <- !app_assoc. reflexivity.
Qed.

End Polling.

(** *** The whole run of [animateLogo] *)

Lemma download_run env log operation :
  returns (handle env)
    (let downloadLink := downloadLinkOf operation in
     if negb (truthy_opt downloadLink)
     then throw (newError (js "Video generation did not return a valid download link."))
     else
       andThen getApiKey (fun key =>
       andThen (await (Fetch (toString downloadLink +++ js "&key=" +++ key)))
         (fun videoResponse =>
       if negb (ok videoResponse)
       then throw (newError (js "Failed to fetch video: " +++ statusText videoResponse))
       else
         andThen (await (ResponseBlob videoResponse)) (fun videoBlob =>
         perform (CreateObjectURL videoBlob)))))
    log
    (fst (downloadPhase env log operation))
    (log ++ snd (downloadPhase env log operation)).
Proof.
  unfold downloadPhase. cbv zeta.
  destruct (truthy_opt (downloadLinkOf operation)); gw_simpl.
  2: { rewrite app_nil_r. gw_step. }
  gw_step; [apply getApiKey_run|]. gw_simpl.
  destruct (truthy_opt (API_KEY env (count KApiKey log))); gw_simpl; [|gw_step].
  gw_step; [gw_step|]. gw_simpl.
  rewrite !count_snoc. cbn [kindOf kind_eqb]. rewrite !Nat.add_0_r.
  destruct (fetch env (count KFetch log) _) as [e|videoResponse].
  { gw_simpl. rewrite <- app_assoc. gw_step. }
  gw_simpl. destruct (ok videoResponse); gw_simpl.
  2: { rewrite <- app_assoc. gw_step. }
  gw_step; [gw_step|]. gw_simpl.
  rewrite !count_snoc. cbn [kindOf kind_eqb]. rewrite !Nat.add_0_r.
  destruct (blob env (count KBlob log) videoResponse) as [e|videoBlob]; gw_simpl.
  { rewrite <- !app_assoc. gw_step. }
  apply returns_perform_as. unfold handle. cbn [answer].
  rewrite !count_snoc. cbn [kindOf kind_eqb]. rewrite !Nat.add_0_r.
  rewrite <- !app_assoc. reflexivity.
Qed.

Section AnimateRun.
Variable env : Environment.
Variable log : list interaction.
Variables imageData mimeType : jsstring.
Variable aspectRatio : AspectRatio.
Variable N : nat.
Variable operation : Operation.

Let key := API_KEY env (count KApiKey log).
Let apiKey := toString key.
Let p := generateVideosParameters imageData mimeType aspectRatio.
Let start := generateVideos env (count KGenerateVideos log) apiKey p.
Let base := count KGetVideosOperation log.

Hypothesis Hkey : truthy_opt key = true.
Hypothesis Hflag : flagFalseThenTrue env base apiKey start N operation.

Lemma count_submitAndPollLog kd :
  count kd (submitAndPollLog env log apiKey p N) =
  match kd with
  | KApiKey | KGenerateVideos => 1
  | KSetTimeout | KGetVideosOperation => N
  | _ => 0
  end.
Proof.
  unfold submitAndPollLog. fold start base.
  change (Ev ProcessEnvApiKey (API_KEY env (count KApiKey log))
          :: Ev (GenerateVideos apiKey p) start :: pollLog env base apiKey start N)
    with ([Ev ProcessEnvApiKey (API_KEY env (count KApiKey log));
           Ev (GenerateVideos apiKey p) start] ++ pollLog env base apiKey start N).
  rewrite count_app, (count_pollLog env base apiKey start N operation N kd Hflag) by lia.
  destruct kd; reflexivity.
Qed.

(** Up to the end of the loop, for any continuation [rest]. *)
Lemma submit_and_poll_run (rest : Operation -> async gatewayE jsstring) r log' :
  returns (handle env) (rest operation)
    (log ++ submitAndPollLog env log apiKey p N) r log' ->
  returns (handle env)
    (andThen getApiKey (fun apiKey =>
     andThen (await (GenerateVideos apiKey p)) (fun operation =>
     andThen
       (while (fun operation => negb (done operation))
          (fun operation =>
             andThen (perform (SetTimeout 5000))
               (fun _ => await (GetVideosOperation apiKey operation)))
          operation)
       rest)))
    log r log'.
Proof.
  intros Hrest.
  destruct (flag_handle env base apiKey start N operation 0 Hflag) as (o0 & Ho0); [lia|].
  cbn [jobHandle] in Ho0.
  gw_step; [apply getApiKey_run|]. fold key. gw_simpl. rewrite Hkey. gw_simpl.
  fold apiKey.
  gw_step.
  { apply returns_await_as. unfold handle. cbn [answer].
    rewrite count_snoc. cbn [kindOf kind_eqb]. rewrite Nat.add_0_r.
    fold start. rewrite Ho0. reflexivity. }
  gw_simpl. gw_step.
  - pose proof (polling_run env base apiKey start N operation Hflag N 0 o0
                  ((log ++ [Ev ProcessEnvApiKey key]) ++ [Ev (GenerateVideos apiKey p) (inr o0)]))
      as Hp.
    cbn [pollLog] in Hp. rewrite app_nil_r in Hp. apply Hp.
    + lia.
    + exact Ho0.
    + rewrite !count_snoc. cbn [kindOf kind_eqb]. fold base. lia.
  - gw_simpl. unfold submitAndPollLog in Hrest. fold key start base in Hrest.
    rewrite <- !app_assoc. rewrite <- Ho0. exact Hrest.
Qed.

(** The run of [animateLogo] when the job completes after [N] queries. *)
Lemma animateLogo_run :
  let log1 := log ++ submitAndPollLog env log apiKey p N in
  returns (handle env) (animateLogo imageData mimeType aspectRatio) log
    (fst (downloadPhase env log1 operation))
    (log1 ++ snd (downloadPhase env log1 operation)).
Proof.
  intros log1. unfold animateLogo. apply submit_and_poll_run.
  apply download_run.
Qed.

End AnimateRun.

(** *** generateLogo *)

(** What a call of [generateLogo] ends with, case by case.  It makes at
    most one remote call: no retry. *)
Lemma generateLogo_outcome env log prompt :
  let key := API_KEY env (count KApiKey log) in
  let answer :=
    generateImages env (count KGenerateImages log) (toString key)
      (generateImagesParameters prompt) in
  exists r new,
    returns (handle env) (generateLogo prompt) log r (log ++ new) /\
    count KGenerateImages new <= 1 /\
    (truthy_opt key = false -> r = inl apiKeyError) /\
    (truthy_opt key = true ->
       (forall e, answer = inl e -> r = inl e) /\
       (forall response, answer = inr response ->
          generatedImages response = Some [] \/ generatedImages response = None ->
          r = inl (newError (js "Image generation failed or returned no images."))) /\
       (forall response first others, answer = inr response ->
          generatedImages response = Some (first :: others) ->
          (image first = None -> r = inl (readOfUndefined (js "imageBytes"))) /\
          (forall img, image first = Some img -> r = inr (imageBytes img)))).
Proof.
  intros key answer. pose proof (generateLogo_run env log prompt) as Hrun.
  cbv zeta in Hrun. fold key answer in Hrun.
  eexists. eexists. split; [exact Hrun|].
  destruct (truthy_opt key).
  - split; [cbn; lia|]. unfold firstImage. split; [discriminate|].
    intros _. split; [|split].
    + intros e ->. reflexivity.
    + intros response -> [->| ->]; reflexivity.
    + intros response first others -> ->. split.
      * intros ->. reflexivity.
      * intros img ->. reflexivity.
  - split; [cbn; lia|]. split; [reflexivity|discriminate].
Qed.

(** C3.  The claim fails where the endpoint answers a list whose first
    generated image has an image without bytes: for every description,
    [generateLogo] then resolves with [undefined] after its one request;
    it returns no image and raises no error.  The code throws its own
    error on a missing list and on an empty one, and reads
    [.image.imageBytes] of the first entry with no guard. *)
Theorem generateLogo_resolves_undefined_without_bytes
  env log prompt response first others img :
  let key := API_KEY env (count KApiKey log) in
  let p := generateImagesParameters prompt in
  let answer := generateImages env (count KGenerateImages log) (toString key) p in
  truthy_opt key = true ->
  answer = inr response ->
  generatedImages response = Some (first :: others) ->
  image first = Some img ->
  imageBytes img = None ->
  returns (handle env) (generateLogo prompt) log (inr None)
    (log ++ [Ev ProcessEnvApiKey key; Ev (GenerateImages (toString key) p) answer]).
Proof.
  intros key p answer Hk Ha Hg Hi Hb.
  pose proof (generateLogo_run env log prompt) as Hrun.
  cbv zeta in Hrun. fold key p answer in Hrun. rewrite Hk in Hrun.
  unfold firstImage in Hrun. rewrite Ha, Hg, Hi, Hb in Hrun.
  rewrite <- Ha in Hrun. exact Hrun.
Qed.

(** The endpoint answers one generated image whose image has no bytes. *)
Lemma generateLogo_undefined_witness :
  exists log,
    returns (handle envImageWithoutBytes) (generateLogo (js "an owl")) []
      (inr None) log /\
    count KGenerateImages log = 1.
Proof.
  eexists. split.
  - apply (generateLogo_resolves_undefined_without_bytes
             envImageWithoutBytes [] (js "an owl")
             {| generatedImages := Some [ {| image := Some {| imageBytes := None |} |} ] |}
             {| image := Some {| imageBytes := None |} |} []
             {| imageBytes := None |});
      reflexivity.
  - reflexivity.
Defined.

(** *** The credential *)

(** C10.  A call made when the credential is absent throws after reading
    it, with no other interaction.  Each call reads the credential anew:
    the request of a call carries the value read at its start, so two
    calls in a row use the two values the environment held, and
    [animateLogo] reads it once more for the download URL. *)
Theorem api_key_read_at_each_call env log :
  let key := API_KEY env (count KApiKey log) in
  (truthy_opt key = false ->
   (forall prompt,
      returns (handle env) (generateLogo prompt) log (inl apiKeyError)
        (log ++ [Ev ProcessEnvApiKey key])) /\
   (forall imageData mimeType aspectRatio,
      returns (handle env) (animateLogo imageData mimeType aspectRatio) log
        (inl apiKeyError) (log ++ [Ev ProcessEnvApiKey key]))) /\
  (forall k1 k2 prompt1 prompt2,
     key = Some k1 -> truthy k1 = true ->
     API_KEY env (S (count KApiKey log)) = Some k2 -> truthy k2 = true ->
     exists r1 a1 r2 a2 log1,
       returns (handle env) (generateLogo prompt1) log r1 log1 /\
       returns (handle env) (generateLogo prompt2) log1 r2
         (log ++
          [ Ev ProcessEnvApiKey (Some k1);
            Ev (GenerateImages k1 (generateImagesParameters prompt1)) a1;
            Ev ProcessEnvApiKey (Some k2);
            Ev (GenerateImages k2 (generateImagesParameters prompt2)) a2 ])) /\
  (forall imageData mimeType aspectRatio N operation,
     let p := generateVideosParameters imageData mimeType aspectRatio in
     let start := generateVideos env (count KGenerateVideos log) (toString key) p in
     let key2 := API_KEY env (S (count KApiKey log)) in
     truthy_opt key = true ->
     flagFalseThenTrue env (count KGetVideosOperation log) (toString key) start
       N operation ->
     truthy_opt (downloadLinkOf operation) = true ->
     exists r tail,
       returns (handle env) (animateLogo imageData mimeType aspectRatio) log r
         (log ++ submitAndPollLog env log (toString key) p N ++
          Ev ProcessEnvApiKey key2 :: tail) /\
       (truthy_opt key2 = false -> r = inl apiKeyError /\ tail = []) /\
       (truthy_opt key2 = true ->
        exists answer tail',
          tail =
          Ev (Fetch (toString (downloadLinkOf operation) +++ js "&key=" +++
                     toString key2)) answer :: tail')).
Proof.
  intros key. split; [|split].
  - intros Hk. split.
    + intros prompt. pose proof (generateLogo_run env log prompt) as Hrun.
      cbv zeta in Hrun. fold key in Hrun. rewrite Hk in Hrun. exact Hrun.
    + intros imageData mimeType aspectRatio. unfold animateLogo.
      gw_step; [apply getApiKey_run|]. fold key. gw_simpl. rewrite Hk.
      gw_step.
  - intros k1 k2 prompt1 prompt2 Hk1 Ht1 Hk2 Ht2.
    pose proof (generateLogo_run env log prompt1) as Hrun1.
    cbv zeta in Hrun1. fold key in Hrun1. rewrite Hk1 in Hrun1.
    cbn [truthy_opt toString] in Hrun1. rewrite Ht1 in Hrun1.
    match type of Hrun1 with returns _ _ _ _ ?l => set (log1 := l) in * end.
    pose proof (generateLogo_run env log1 prompt2) as Hrun2.
    cbv zeta in Hrun2.
    assert (Hc : count KApiKey log1 = S (count KApiKey log)).
    { unfold log1. rewrite count_app. cbn. lia. }
    rewrite Hc, Hk2 in Hrun2. cbn [truthy_opt toString] in Hrun2.
    rewrite Ht2 in Hrun2.
    do 5 eexists. split; [exact Hrun1|].
    unfold log1 in Hrun2 |- *. rewrite <- app_assoc in Hrun2. exact Hrun2.
  - intros imageData mimeType aspectRatio N operation p start key2 Hk Hf Hl.
    pose proof (animateLogo_run env log imageData mimeType aspectRatio N operation
                  Hk Hf) as Hrun.
    cbv zeta in Hrun.
    unfold downloadPhase in Hrun. cbv zeta in Hrun. rewrite Hl in Hrun.
    rewrite count_app in Hrun.
    rewrite (count_submitAndPollLog env log imageData mimeType aspectRatio N
               operation Hf KApiKey) in Hrun.
    replace (count KApiKey log + 1) with (S (count KApiKey log)) in Hrun by lia.
    fold key p in Hrun. fold key2 in Hrun. cbn [negb] in Hrun. rewrite <- app_assoc in Hrun.
    destruct (truthy_opt key2) eqn:Hk2; cbn [negb] in Hrun.
    + match type of Hrun with
      | context [match ?f with inl _ => _ | inr _ => _ end] => destruct f as [e|resp]
      end.
      * do 2 eexists. split; [exact Hrun|]. split; [discriminate|].
        intros _. do 2 eexists. reflexivity.
      * destruct (ok resp); cbn [negb] in Hrun.
        -- match type of Hrun with
           | context [match ?f with inl _ => _ | inr _ => _ end] => destruct f as [e|b]
           end;
           (do 2 eexists; split; [exact Hrun|]; split; [discriminate|];
            intros _; do 2 eexists; reflexivity).
        -- do 2 eexists. split; [exact Hrun|]. split; [discriminate|].
           intros _. do 2 eexists. reflexivity.
    + do 2 eexists. split; [exact Hrun|]. split; [|discriminate].
      intros _. split; reflexivity.
Qed.

(** *** animateLogo *)

Lemma count_downloadPhase env log operation kd :
  count kd (snd (downloadPhase env log operation)) =
  match kd with
  | KGenerateImages | KGenerateVideos | KSetTimeout | KGetVideosOperation => 0
  | _ => count kd (snd (downloadPhase env log operation))
  end.
Proof.
  destruct kd; try reflexivity; unfold downloadPhase; cbv zeta;
    repeat match goal with
           | |- context [if ?c then _ else _] => destruct c
           | |- context [match ?f with inl _ => _ | inr _ => _ end] => destruct f
           end; reflexivity.
Qed.

Lemma nth_error_skip2 {A} (a b : A) L T n :
  nth_error ((a :: b :: L) ++ T) (S (S n)) = nth_error (L ++ T) n.
Proof. reflexivity. Qed.

Section PollPositions.
Variable env : Environment.
Variable base : nat.
Variable apiKey : jsstring.
Variable start : Error + Operation.
Variable M : nat.
Hypothesis Hall :
  forall k, k <= M -> exists o, jobHandle env base apiKey start k = inr o.

Lemma length_pollLog N :
  N <= M -> List.length (pollLog env base apiKey start N) = 2 * N.
Proof.
  induction N as [|N IH]; intros HN; [reflexivity|].
  cbn [pollLog]. rewrite length_app, IH by lia.
  destruct (Hall N) as (o & ->); [lia|]. cbn [List.length]. lia.
Qed.

Lemma nth_error_pollLog N :
  N <= M ->
  forall k o, k < N -> jobHandle env base apiKey start k = inr o ->
  nth_error (pollLog env base apiKey start N) (2 * k) =
    Some (Ev (SetTimeout 5000) tt) /\
  nth_error (pollLog env base apiKey start N) (S (2 * k)) =
    Some (Ev (GetVideosOperation apiKey o) (jobHandle env base apiKey start (S k))).
Proof.
  induction N as [|N IH]; intros HN k o Hk Ho; [lia|].
  cbn [pollLog]. destruct (Nat.eq_dec k N) as [->|Hne].
  - rewrite Ho. rewrite !nth_error_app2 by (rewrite length_pollLog by lia; lia).
    rewrite length_pollLog by lia.
    replace (2 * N - 2 * N) with 0 by lia.
    replace (S (2 * N) - 2 * N) with 1 by lia. split; reflexivity.
  - destruct (IH ltac:(lia) k o ltac:(lia) Ho) as (H1 & H2).
    rewrite !nth_error_app1 by (rewrite length_pollLog by lia; lia).
    split; assumption.
Qed.

End PollPositions.

(** C1, amended.  When the completion flag is observed false [N] times
    and then true, [animateLogo] ends after exactly one submit call and
    exactly [N] status queries, one for each time the flag was false.
    The submit call is its second interaction, after the read of the
    credential; the [k]-th query comes right after a suspension of
    5000 ms and is asked about the handle that the call before it
    answered, so no query precedes the submit and no two overlap. *)
Theorem animateLogo_one_submit_then_one_query_per_false_flag
  env log imageData mimeType aspectRatio N operation :
  let key := API_KEY env (count KApiKey log) in
  let p := generateVideosParameters imageData mimeType aspectRatio in
  let start := generateVideos env (count KGenerateVideos log) (toString key) p in
  let base := count KGetVideosOperation log in
  truthy_opt key = true ->
  flagFalseThenTrue env base (toString key) start N operation ->
  exists r new,
    returns (handle env) (animateLogo imageData mimeType aspectRatio) log r
      (log ++ new) /\
    count KGenerateVideos new = 1 /\
    count KGetVideosOperation new = N /\
    count KSetTimeout new = N /\
    nth_error new 1 = Some (Ev (GenerateVideos (toString key) p) start) /\
    (forall k, k < N ->
       exists o,
         jobHandle env base (toString key) start k = inr o /\
         nth_error new (2 + 2 * k) = Some (Ev (SetTimeout 5000) tt) /\
         nth_error new (3 + 2 * k) =
           Some (Ev (GetVideosOperation (toString key) o)
                    (jobHandle env base (toString key) start (S k)))).
Proof.
  intros key p start base Hk Hf.
  pose proof (animateLogo_run env log imageData mimeType aspectRatio N operation
                Hk Hf) as Hrun.
  cbv zeta in Hrun. rewrite <- app_assoc in Hrun.
  pose proof (count_submitAndPollLog env log imageData mimeType aspectRatio N
                operation Hf) as Hc.
  fold key p in Hrun, Hc.
  eexists. eexists. split; [exact Hrun|].
  rewrite !count_app, !Hc.
  rewrite (count_downloadPhase _ _ _ KGenerateVideos),
    (count_downloadPhase _ _ _ KGetVideosOperation),
    (count_downloadPhase _ _ _ KSetTimeout).
  repeat split; try lia.
  intros k Hlt. pose proof Hf as (Hfalse & _).
  destruct (Hfalse k Hlt) as (o & Ho & _). exists o. split; [exact Ho|].
  unfold submitAndPollLog. fold key start base.
  change (2 + 2 * k) with (S (S (2 * k))).
  change (3 + 2 * k) with (S (S (S (2 * k)))).
  rewrite !nth_error_skip2.
  destruct (nth_error_pollLog env base (toString key) start N
              (fun j => flag_handle env base (toString key) start N operation j Hf)
              N (le_n N) k o Hlt Ho) as (H1 & H2).
  rewrite !nth_error_app1
    by (rewrite (length_pollLog env base (toString key) start N
                   (fun j => flag_handle env base (toString key) start N operation j Hf))
          by lia; lia).
  split; assumption.
Qed.

(** A run of [animateLogo] with two status queries. *)
Lemma animateLogo_two_queries_witness :
  exists r new,
    returns (handle envTwoPolls)
      (animateLogo (js "iVBOR") (js "image/png") ratio_16_9) [] r new /\
    count KGenerateVideos new = 1 /\
    count KGetVideosOperation new = 2 /\
    count KSetTimeout new = 2.
Proof.
  destruct (animateLogo_one_submit_then_one_query_per_false_flag
              envTwoPolls [] (js "iVBOR") (js "image/png") ratio_16_9 2
              (operationWith 2 true (Some (js "https://v/1?alt=media"))))
    as (r & new & Hrun & H1 & H2 & H3 & _).
  - reflexivity.
  - split; [|split; reflexivity].
    intros k Hk. destruct k as [|[|k]].
    + eexists. split; reflexivity.
    + eexists. split; reflexivity.
    + exfalso. lia.
  - exists r, new. repeat split; assumption.
Defined.

(** C1 as stated fails when the job is already done at submit: the flag
    is observed false zero times and then true, and the run makes no
    status query at all, not one. *)
Lemma animateLogo_done_at_submit_makes_no_query :
  exists operation r new,
    flagFalseThenTrue envDoneAtSubmit 0 (js "K1")
      (generateVideos envDoneAtSubmit 0 (js "K1")
         (generateVideosParameters (js "iVBOR") (js "image/png") ratio_16_9))
      0 operation /\
    run envDoneAtSubmit 30
      (animateLogo (js "iVBOR") (js "image/png") ratio_16_9) [] = Some (r, new) /\
    count KGenerateVideos new = 1 /\
    count KGetVideosOperation new = 0 /\
    count KGetVideosOperation new <> 0 + 1.
Proof.
  eexists. eexists. eexists. split; [|split].
  - split; [intros k Hk; exfalso; lia|]. split; reflexivity.
  - vm_compute. reflexivity.
  - split; [reflexivity|]. split; [reflexivity|]. discriminate.
Qed.

(** Two calls in a row while the credential changes from [K1] to [K2]. *)
Lemma api_key_reread_witness :
  exists r1 a1 r2 a2 log1,
    returns (handle envTwoPolls) (generateLogo (js "an owl")) [] r1 log1 /\
    returns (handle envTwoPolls) (generateLogo (js "a fox")) log1 r2
      [ Ev ProcessEnvApiKey (Some (js "K1"));
        Ev (GenerateImages (js "K1") (generateImagesParameters (js "an owl"))) a1;
        Ev ProcessEnvApiKey (Some (js "K2"));
        Ev (GenerateImages (js "K2") (generateImagesParameters (js "a fox"))) a2 ].
Proof.
  destruct (api_key_read_at_each_call envTwoPolls []) as (_ & Htwo & _).
  exact (Htwo (js "K1") (js "K2") (js "an owl") (js "a fox")
           eq_refl eq_refl eq_refl eq_refl).
Defined.

(** *** A job that never completes *)

Lemma poll_round env apiKey o l o' :
  getVideosOperation env (count KGetVideosOperation l) apiKey o = inr o' ->
  returns (handle env)
    (andThen (perform (SetTimeout 5000))
       (fun _ => await (GetVideosOperation apiKey o)))
    l (inr o')
    (l ++ [Ev (SetTimeout 5000) tt; Ev (GetVideosOperation apiKey o) (inr o')]).
Proof.
  intros Hq. gw_step; [gw_step|]. gw_simpl.
  apply returns_await_as. unfold handle. cbn [answer].
  rewrite count_snoc. cbn [kindOf kind_eqb]. rewrite Nat.add_0_r, Hq.
  rewrite <- app_assoc. reflexivity.
Qed.

Lemma polling_never_ends env base apiKey start :
  neverDone env base apiKey start ->
  forall f j o l,
  jobHandle env base apiKey start j = inr o ->
  count KGetVideosOperation l = base + j ->
  exec (handle env) f
    (while (fun operation => negb (done operation))
       (fun operation =>
          andThen (perform (SetTimeout 5000))
            (fun _ => await (GetVideosOperation apiKey operation))) o) l
  = None.
Proof.
  intros Hnever f. induction f as [f IH] using lt_wf_ind. intros j o l Ho Hl.
  match goal with |- ?run = None => destruct run as [res|] eqn:Hrun end;
    [exfalso|reflexivity].
  destruct (Hnever j) as (o1 & Ho1 & Hd). rewrite Ho in Ho1.
  inversion Ho1; subst o1.
  destruct (Hnever (S j)) as (o' & Ho' & _).
  assert (Hq : getVideosOperation env (count KGetVideosOperation l) apiKey o = inr o').
  { cbn [jobHandle] in Ho'. rewrite Ho in Ho'. rewrite Hl. exact Ho'. }
  assert (Hc : negb (done o) = true) by (rewrite Hd; reflexivity).
  destruct (@exec_while_inv _ _ (handle env) _
              (fun operation => negb (done operation)) _ o l o' _ f res
              Hc (poll_round env apiKey o l o' Hq) Hrun) as (f' & Hlt & Hrest).
  rewrite (IH f' Hlt (S j) o' _ Ho') in Hrest; [discriminate|].
  rewrite !count_app, Hl. cbn. lia.
Qed.

(** X1.  The loop of [animateLogo] has no bound: when the credential is
    set and the completion flag is false on every handle of the job, the
    run does not end, whatever the fuel. *)
Theorem animateLogo_polls_without_bound env log imageData mimeType aspectRatio :
  let key := API_KEY env (count KApiKey log) in
  let p := generateVideosParameters imageData mimeType aspectRatio in
  let start := generateVideos env (count KGenerateVideos log) (toString key) p in
  truthy_opt key = true ->
  neverDone env (count KGetVideosOperation log) (toString key) start ->
  diverges (handle env) (animateLogo imageData mimeType aspectRatio) log.
Proof.
  intros key p start Hk Hnever f.
  match goal with |- ?run = None => destruct run as [res|] eqn:Hrun end;
    [exfalso|reflexivity].
  unfold animateLogo, andThen in Hrun.
  destruct (exec_bind_inv _ _ _ _ _ Hrun) as (x1 & w1 & f1 & Hx1 & _ & Hrun1).
  pose proof (getApiKey_run env log) as Hkey. cbv zeta in Hkey.
  fold key in Hkey. rewrite Hk in Hkey.
  destruct (returns_det Hx1 Hkey) as (-> & ->). clear Hx1 Hrun.
  destruct (exec_bind_inv _ _ _ _ _ Hrun1) as (x2 & w2 & f2 & Hx2 & _ & Hrun2).
  pose proof (returns_await (handle env) (GenerateVideos (toString key) p)
                (log ++ [Ev ProcessEnvApiKey key])) as Hsub.
  destruct (returns_det Hx2 Hsub) as (-> & ->). clear Hx2 Hrun1.
  cbn [handle answer fst snd] in Hrun2.
  rewrite count_snoc in Hrun2. cbn [kindOf kind_eqb] in Hrun2.
  rewrite Nat.add_0_r in Hrun2. fold start in Hrun2.
  destruct (Hnever 0) as (o0 & Ho0 & _). cbn [jobHandle] in Ho0.
  rewrite Ho0 in Hrun2.
  destruct (exec_bind_inv _ _ _ _ _ Hrun2) as (x3 & w3 & f3 & (f4 & Hx3) & _).
  rewrite (polling_never_ends env _ (toString key) start Hnever f4 0 o0) in Hx3.
  - discriminate.
  - exact Ho0.
  - rewrite !count_snoc. cbn [kindOf kind_eqb]. lia.
Qed.

(** A job that stays pending. *)
Lemma animateLogo_polls_without_bound_witness :
  diverges (handle envNeverDone)
    (animateLogo (js "iVBOR") (js "image/png") ratio_16_9) [].
Proof.
  apply (animateLogo_polls_without_bound envNeverDone []
           (js "iVBOR") (js "image/png") ratio_16_9).
  - reflexivity.
  - intros k. exists (operationWith 0 false None). split; [|reflexivity].
    induction k as [|k IH]; [reflexivity|]. cbn [jobHandle]. rewrite IH.
    reflexivity.
Defined.

End GatewayFacts.

(** ** Facts about the handlers *)

Module AppFacts.
Import App AsyncFacts JSFacts.

(** *** Timers *)

Lemma ticks_no_interval n m : intervals m = [] -> ticks n m = m.
Proof.
  intros H. induction n as [|n IH]; [reflexivity|].
  cbn [ticks]. replace (tick m) with m; [exact IH|].
  unfold tick. rewrite H. destruct m; cbn in *. subst. reflexivity.
Qed.

Lemma ticks_S n m : ticks (S n) m = tick (ticks n m).
Proof.
  revert m. induction n as [|n IH]; intros m; [reflexivity|].
  cbn [ticks] in *. rewrite IH. reflexivity.
Qed.

(** [n] firings of one pending rotation whose variable is [l]. *)
Lemma ticks_rotation n : forall s id ms l next,
  ticks n {| state := s;
             intervals := [ {| intervalId := id; delay := ms;
                               callback := rotateMessage; local := l |} ];
             nextIntervalId := next |} =
  {| state := match n with
              | 0 => s
              | S _ => showing (message_at ((l + n) mod 5)) s
              end;
     intervals := [ {| intervalId := id; delay := ms;
                       callback := rotateMessage;
                       local := match n with 0 => l | S _ => (l + n) mod 5 end |} ];
     nextIntervalId := next |}.
Proof.
  induction n as [|n IH]; intros s id ms l next; [reflexivity|].
  rewrite ticks_S, IH. unfold tick. cbn [intervals state fireAll callback local rotateMessage].
  change (List.length messages) with 5.
  destruct n as [|n].
  - cbn [fold_left intervalId delay nextIntervalId]. rewrite Nat.add_1_r.
    reflexivity.
  - cbn [fold_left intervalId delay nextIntervalId].
    replace (((l + S n) mod 5 + 1) mod 5) with ((l + S (S n)) mod 5).
    + reflexivity.
    + rewrite Nat.Div0.add_mod_idemp_l. f_equal. lia.
Qed.

(** Stepping through a handler: one interaction at a time. *)
Ltac app_simpl :=
  cbn [handle fst snd negb app];
  cbv beta iota.

Ltac app_rewrite :=
  repeat match goal with
         | H : settle _ _ = _ |- _ => progress rewrite H
         | H : aistudio _ _ = _ |- _ => progress rewrite H
         | H : ?c = _ |- context [if ?c then _ else _] => rewrite H
         end.

Ltac app_run :=
  app_simpl; app_rewrite; app_simpl;
  lazymatch goal with
  | |- returns _ (andThen _ _) _ _ _ =>
      eapply returns_andThen; [app_run|app_run]
  | |- returns _ (tryCatch _ _) _ _ _ =>
      eapply returns_tryCatch; [app_run|app_run]
  | |- returns _ (tryFinally _ _) _ _ _ =>
      eapply returns_tryFinally; [app_run|app_run|reflexivity]
  | |- returns _ (setState _) _ _ _ =>
      apply returns_perform_as; app_simpl; reflexivity
  | |- returns _ (perform _) _ _ _ =>
      apply returns_perform_as; app_simpl; reflexivity
  | |- returns _ (await _) _ _ _ =>
      apply returns_await_as; app_simpl; reflexivity
  | |- returns _ (resolve _) _ _ _ => apply returns_resolve
  | |- returns _ (throw _) _ _ _ => apply returns_throw
  | |- returns _ checkApiKey _ _ _ => unfold checkApiKey; app_run
  | |- returns _ handleSelectApiKey _ _ _ => unfold handleSelectApiKey; app_run
  end.

(** *** Validation failures *)

(** C7.  Each validation failure (a description that is empty or made of
    white space on an image request, no image on a video request, an
    upload that is not an image) ends the handler after a single
    interaction, the call of [setError] with the message of that failure:
    no operation is awaited, so no remote endpoint is contacted, and the
    image, the video and the two busy flags are as they were. *)
Theorem validation_failure_only_sets_error env m :
  let unchanged (m' : Machine) :=
    imageData (state m') = imageData (state m) /\
    videoUrl (state m') = videoUrl (state m) /\
    isGeneratingImage (state m') = isGeneratingImage (state m) /\
    isGeneratingVideo (state m') = isGeneratingVideo (state m) /\
    intervals m' = intervals m in
  let failsWith (handler : async appE unit) (msg : jsstring) :=
    let m' := after (setError (Some msg)) m in
    returns (handle env) handler (m, []) (inr tt)
      (m', [mkEntry m (Ev (SetState (setError (Some msg))) tt)]) /\
    error (state m') = Some msg /\ unchanged m' in
  (Forall (fun c => isWhiteSpace c = true) (prompt (state m)) ->
   failsWith (handleGenerateLogo (state m))
     (js "Please enter a description for your logo.")) /\
  (imageData (state m) = None ->
   failsWith (handleAnimateLogo (state m))
     (js "Please generate or upload a logo first.")) /\
  (forall file others,
     startsWith (fileType file) (js "image/") = false ->
     failsWith (handleFileChange (Some (file :: others)))
       (js "Please upload a valid image file.")).
Proof.
  intros unchanged failsWith. unfold failsWith, unchanged, after.
  split; [|split].
  - intros Hws. apply trim_falsy_iff in Hws.
    split; [|repeat split].
    unfold handleGenerateLogo. rewrite Hws. app_run.
  - intros Hnone. split; [|repeat split].
    unfold handleAnimateLogo. rewrite Hnone. app_run.
  - intros file others Hty. split; [|repeat split].
    unfold handleFileChange. cbn [firstFile]. rewrite Hty. app_run.
Qed.

(** *** A new image *)

(** X18.  When a new image is about to be produced by a handler that
    runs on its own, on a request for a logo that passes validation or
    on the upload of an image file, the
    video is cleared before the awaited operation is issued: it is absent
    when the call is awaited, at every later step of the handler and at
    its end, whether the call settles with a value or an error.  At the
    end the image is the new one, or none when the call failed. *)
Theorem video_cleared_before_new_image env m :
  intervals m = [] ->
  (truthy (trim (prompt (state m))) = true ->
   let c := GenerateLogo (prompt (state m)) in
   exists m' log en,
     returns (handle env) (handleGenerateLogo (state m)) (m, []) (inr tt) (m', log) /\
     nth_error log 4 = Some en /\
     what en = Ev (Await c) (settle env c) /\
     Forall (fun e => videoUrl (state (before e)) = None) (skipn 3 log) /\
     videoUrl (state m') = None /\
     imageData (state m') =
       match settle env c with
       | inr base64Image =>
           Some {| base64 := base64Image; mimeType := js "image/png" |}
       | inl _ => None
       end) /\
  (forall file others,
   startsWith (fileType file) (js "image/") = true ->
   let c := FileToBase64 file in
   exists m' log en,
     returns (handle env) (handleFileChange (Some (file :: others))) (m, [])
       (inr tt) (m', log) /\
     nth_error log 2 = Some en /\
     what en = Ev (Await c) (settle env c) /\
     Forall (fun e => videoUrl (state (before e)) = None) (skipn 2 log) /\
     videoUrl (state m') = None /\
     imageData (state m') =
       match settle env c with
       | inr base64 => Some {| base64 := base64; mimeType := fileType file |}
       | inl _ => None
       end).
Proof.
  intros Hi. split.
  - intros Ht c. unfold handleGenerateLogo. rewrite Ht. cbn [negb]. subst c.
    destruct (settle env (GenerateLogo (prompt (state m)))) as [e|b] eqn:Hs;
      (do 3 eexists; split; [app_run|]);
      (split; [reflexivity|]); (split; [reflexivity|]);
      cbn [skipn]; rewrite ticks_no_interval by exact Hi;
      (split; [repeat constructor|split; reflexivity]).
  - intros file others Hty c. unfold handleFileChange. cbn [firstFile].
    rewrite Hty. cbn [negb]. subst c.
    destruct (settle env (FileToBase64 file)) as [e|b] eqn:Hs;
      (do 3 eexists; split; [app_run|]);
      (split; [reflexivity|]); (split; [reflexivity|]);
      cbn [skipn]; rewrite ticks_no_interval by exact Hi;
      (split; [repeat constructor|split; reflexivity]).
Qed.

(** A second request for a logo, which fails, made while a video exists. *)
Lemma video_cleared_witness :
  exists m' log,
    returns
      (handle (exampleEnv true true (inl (newError (js "quota"))) (inr (js "blob:video-2"))
                 (inr (js "AAAA")) 3))
      (handleGenerateLogo stateWithVideo) (mounted stateWithVideo, []) (inr tt)
      (m', log) /\
    videoUrl (state m') = None /\
    imageData (state m') = None.
Proof.
  destruct (video_cleared_before_new_image
              (exampleEnv true true (inl (newError (js "quota")))
                 (inr (js "blob:video-2")) (inr (js "AAAA")) 3)
              (mounted stateWithVideo) eq_refl) as (Hgen & _).
  destruct (Hgen eq_refl) as (m' & log & en & Hrun & _ & _ & _ & Hv & Hi).
  exists m', log. split; [exact Hrun|]. split; [exact Hv|exact Hi].
Defined.

(** *** A file that cannot be read *)

(** C9.  When the read of an uploaded image file fails, the handler ends
    with the image cleared and the read-failure message as the error;
    the upload of a file that is not an image, in contrast, leaves the
    image as it was. *)
Theorem read_failure_clears_image env m file others e :
  startsWith (fileType file) (js "image/") = true ->
  settle env (FileToBase64 file) = inl e ->
  (exists m' log,
     returns (handle env) (handleFileChange (Some (file :: others))) (m, [])
       (inr tt) (m', log) /\
     imageData (state m') = None /\
     error (state m') =
       Some (js "Failed to read file: " +++ toString (message e)) /\
     events log =
       [ Ev (SetState (setError None)) tt;
         Ev (SetState (setVideoUrl None)) tt;
         Ev (Await (FileToBase64 file)) (inl e);
         Ev (SetState
               (setError
                  (Some (js "Failed to read file: " +++ toString (message e))))) tt;
         Ev (SetState (setImageData None)) tt ]) /\
  (forall other others',
     startsWith (fileType other) (js "image/") = false ->
     exists m' log,
       returns (handle env) (handleFileChange (Some (other :: others'))) (m, [])
         (inr tt) (m', log) /\
       imageData (state m') = imageData (state m)).
Proof.
  intros Hty Hs. split.
  - unfold handleFileChange. cbn [firstFile]. rewrite Hty. cbn [negb].
    do 2 eexists. split; [app_run|]. repeat split.
  - intros other others' Hother. unfold handleFileChange. cbn [firstFile].
    rewrite Hother. cbn [negb]. do 2 eexists. split; [app_run|]. reflexivity.
Qed.

(** The read of an image file fails while a logo is shown. *)
Lemma read_failure_witness :
  exists m' log,
    returns
      (handle (exampleEnv true true (inr (js "AAAA")) (inr (js "blob:video-2"))
                 (inl (newError (js "NotReadableError"))) 0))
      (handleFileChange (Some [pngFile])) (mounted stateWithVideo, []) (inr tt)
      (m', log) /\
    imageData (state m') = None /\
    error (state m') = Some (js "Failed to read file: NotReadableError").
Proof.
  destruct (read_failure_clears_image
              (exampleEnv true true (inr (js "AAAA")) (inr (js "blob:video-2"))
                 (inl (newError (js "NotReadableError"))) 0)
              (mounted stateWithVideo) pngFile [] (newError (js "NotReadableError"))
              eq_refl eq_refl) as ((m' & log & Hrun & Hi & He & _) & _).
  exists m', log. split; [exact Hrun|]. split; [exact Hi|exact He].
Defined.

(** *** The animation handler *)

Lemma ticks_setInterval n m l ms :
  intervals m = [] ->
  ticks n (setInterval rotateMessage l ms m) =
  {| state := match n with
              | 0 => state m
              | S _ => showing (message_at ((l + n) mod 5)) (state m)
              end;
     intervals := [ {| intervalId := nextIntervalId m; delay := ms;
                       callback := rotateMessage;
                       local := match n with 0 => l | S _ => (l + n) mod 5 end |} ];
     nextIntervalId := S (nextIntervalId m) |}.
Proof.
  intros Hi. unfold setInterval. rewrite Hi. apply ticks_rotation.
Qed.

(** Firings change nothing while no interval is pending. *)
Ltac ticks_idle Hi :=
  repeat match goal with
         | |- context [ticks ?n ?mm] =>
             rewrite (ticks_no_interval n mm) by exact Hi
         end.

(** The cases of a run of [handleAnimateLogo] on a state with an image. *)
Ltac animate_cases env m Himg Hhost :=
  destruct Hhost as ((hasKey & Hs1) & Hs2);
  unfold handleAnimateLogo; rewrite Himg;
  destruct (aistudio env method_hasSelectedApiKey) eqn:Ha1;
  destruct (aistudio env method_openSelectKey) eqn:Ha2;
  destruct (apiKeySelected (state m)) eqn:Hsel;
  cbn [negb andb].

(** C2.  When the awaited call of animate-image fails with error [e]: if
    the message of [e] contains ["Requested entity was not found"], the
    handler ends with the credential-selection state false and the
    message that asks to select the key again as the error; otherwise
    it ends with the generic message built from the message of [e], and
    the credential-selection state is the one it was when the call was
    issued, no setter of it being called from then on. *)
Theorem animate_failure_resets_credential_on_signature_only env m img e :
  let c := AnimateLogo (base64 img) (mimeType img) (aspectRatio (state m)) in
  let signature := js "Requested entity was not found" in
  let contains :=
    exists before after, message e = Some (before ++ signature ++ after) in
  let k := interactionsBeforeAnimate env (state m) in
  intervals m = [] ->
  imageData (state m) = Some img ->
  hostResponds env ->
  settle env c = inl e ->
  exists m' log en,
    returns (handle env) (handleAnimateLogo (state m)) (m, []) (inr tt) (m', log) /\
    nth_error log k = Some en /\
    what en = Ev (Await c) (inl e) /\
    (contains ->
       apiKeySelected (state m') = false /\
       error (state m') =
         Some (js "API Key error. Please re-select your API Key and try again.")) /\
    (~ contains ->
       apiKeySelected (state m') = apiKeySelected (state (before en)) /\
       existsb setsApiKeySelected (skipn k (events log)) = false /\
       error (state m') =
         Some (js "Video animation failed: " +++ toString (message e))).
Proof.
  intros c signature contains k Hi Himg Hhost Hs.
  assert (Hinc : messageIncludes e signature = true <-> contains).
  { unfold messageIncludes, contains. destruct (message e) as [msg|].
    - rewrite includes_iff. split.
      + intros (a & b & ->). exists a, b. reflexivity.
      + intros (a & b & H). inversion H. exists a, b. reflexivity.
    - split; [discriminate|]. intros (a & b & H). discriminate. }
  subst c signature k. clearbody contains. unfold interactionsBeforeAnimate.
  animate_cases env m Himg Hhost;
    destruct (messageIncludes e (js "Requested entity was not found")) eqn:Hm;
    do 3 eexists;
    (split; [app_run|]);
    (split; [reflexivity|]);
    (split; [cbn [what]; try rewrite Hs; reflexivity|]);
    ticks_idle Hi; rewrite ticks_setInterval by exact Hi;
    destruct (firings env (AnimateLogo (base64 img) (mimeType img) (aspectRatio (state m))));
    (split; [intros Hc|intros Hc]);
    try (apply Hinc in Hc; discriminate Hc);
    try (exfalso; apply Hc, Hinc; reflexivity);
    repeat split.
Qed.

(** A failure with the signature, and one without. *)
Lemma animate_failure_witness :
  exists m' log,
    returns
      (handle (exampleEnv true true (inr (js "AAAA"))
                 (inl (newError (js "404: Requested entity was not found.")))
                 (inr (js "AAAA")) 2))
      (handleAnimateLogo stateWithVideo) (mounted stateWithVideo, []) (inr tt)
      (m', log) /\
    apiKeySelected (state m') = false /\
    error (state m') =
      Some (js "API Key error. Please re-select your API Key and try again.").
Proof.
  destruct (animate_failure_resets_credential_on_signature_only
              (exampleEnv true true (inr (js "AAAA"))
                 (inl (newError (js "404: Requested entity was not found.")))
                 (inr (js "AAAA")) 2)
              (mounted stateWithVideo)
              {| base64 := js "iVBOR"; mimeType := js "image/png" |}
              (newError (js "404: Requested entity was not found.")))
    as (m' & log & en & Hrun & _ & _ & Hsig & _).
  - reflexivity.
  - reflexivity.
  - split; [exists true; reflexivity|reflexivity].
  - reflexivity.
  - exists m', log. split; [exact Hrun|].
    apply Hsig. exists (js "404: "), (js "."). reflexivity.
Defined.

(** C6, amended.  On a request for a video while an image exists, where
    the answer of the host's query for the selected key, if the host has
    that query, agrees with the selection state of the request: the
    selection state that is current when the handler tests it is that
    state; if and only if it is false and the host provides the picker,
    the handler opens the picker and, as its next interaction after the
    picker returns, sets the selection state to true, with no query to
    the host in between or later; in either case, the host's calls having
    returned, it goes on to await [animateLogo], once. *)
Theorem credential_picker_on_current_selection_state env m img :
  let c := AnimateLogo (base64 img) (mimeType img) (aspectRatio (state m)) in
  let queried := aistudio env method_hasSelectedApiKey in
  let offered := aistudio env method_openSelectKey in
  let current := apiKeySelected (state m) in
  intervals m = [] ->
  imageData (state m) = Some img ->
  hostResponds env ->
  (queried = true -> settle env HasSelectedApiKey = inr current) ->
  exists m' log rest,
    returns (handle env) (handleAnimateLogo (state m)) (m, []) (inr tt) (m', log) /\
    events log =
      (Ev (AistudioProvides method_hasSelectedApiKey) queried ::
       if queried
       then [ Ev (Await HasSelectedApiKey) (inr current);
              Ev (SetState (setApiKeySelected current)) tt ]
       else []) ++
      (if current then []
       else
         Ev (AistudioProvides method_openSelectKey) offered ::
         if offered
         then [ Ev (Await OpenSelectKey) (inr tt);
                Ev (SetState (setApiKeySelected true)) tt ]
         else []) ++
      [ Ev (SetState (setError None)) tt;
        Ev (SetState (setIsGeneratingVideo true)) tt;
        Ev (SetState (setVideoUrl None)) tt;
        Ev (SetState (setVideoLoadingMessage (message_at 0))) tt;
        Ev (SetInterval rotateMessage 0 4000) (nextIntervalId m);
        Ev (Await c) (settle env c) ] ++ rest /\
    (forall en,
       nth_error log (if queried then 3 else 1) = Some en ->
       apiKeySelected (state (before en)) = current) /\
    existsb isHostEvent rest = false /\
    existsb isOpenSelectKey (events log) = negb current && offered /\
    List.length (filter isAnimateLogo (events log)) = 1.
Proof.
  intros c queried offered current Hi Himg Hhost Hagree.
  subst c queried offered current.
  destruct (settle env (AnimateLogo (base64 img) (mimeType img) (aspectRatio (state m))))
    as [e|url] eqn:Hs;
    [destruct (messageIncludes e (js "Requested entity was not found")) eqn:Hm|];
    animate_cases env m Himg Hhost;
    try (specialize (Hagree eq_refl); rewrite Hs1 in Hagree;
         inversion Hagree; subst hasKey);
    do 3 eexists;
    (split; [app_run|]);
    ticks_idle Hi;
    (split; [cbn [events map what app]; reflexivity|]);
    (split;
     [intros en Hen; cbn in Hen; inversion Hen; subst en; cbn;
      first [reflexivity|exact Hsel]|]);
    (split; [reflexivity|]);
    (split; reflexivity).
Qed.

(** A host with both methods and no key selected: the picker is opened. *)
Lemma credential_picker_witness :
  exists m' log,
    returns
      (handle (exampleEnv true false (inr (js "AAAA")) (inr (js "blob:video-2"))
                 (inr (js "AAAA")) 2))
      (handleAnimateLogo stateWithVideo) (mounted stateWithVideo, []) (inr tt)
      (m', log) /\
    existsb isOpenSelectKey (events log) = true /\
    List.length (filter isAnimateLogo (events log)) = 1.
Proof.
  destruct (credential_picker_on_current_selection_state
              (exampleEnv true false (inr (js "AAAA")) (inr (js "blob:video-2"))
                 (inr (js "AAAA")) 2)
              (mounted stateWithVideo)
              {| base64 := js "iVBOR"; mimeType := js "image/png" |})
    as (m' & log & rest & Hrun & _ & _ & _ & Hpick & Hone).
  - reflexivity.
  - reflexivity.
  - split; [exists false; reflexivity|reflexivity].
  - reflexivity.
  - exists m', log. split; [exact Hrun|]. split; [exact Hpick|exact Hone].
Defined.

(** C6 as stated fails on a host without [window.aistudio]: the selection
    state is false, yet the picker is not opened and the state is not set
    to true; the handler awaits [animateLogo] all the same.  It fails as
    well on a host whose picker rejects: the selection state is false,
    the picker is opened, and [animateLogo] is not called. *)
Lemma picker_guarded_and_call_after_host_returns :
  (exists m' log,
     run (exampleEnv false false (inr (js "AAAA")) (inr (js "blob:video-2"))
            (inr (js "AAAA")) 0)
       80 (handleAnimateLogo stateWithVideo) (mounted stateWithVideo)
     = Some (inr tt, (m', log)) /\
     apiKeySelected stateWithVideo = false /\
     existsb isOpenSelectKey (events log) = false /\
     existsb setsApiKeySelected (events log) = false /\
     apiKeySelected (state m') = false /\
     existsb isAnimateLogo (events log) = true) /\
  (exists m' log,
     run View.envPickerRejects 80 (handleAnimateLogo stateWithVideo)
       (mounted stateWithVideo)
     = Some (inl (newError (js "picker closed")), (m', log)) /\
     apiKeySelected stateWithVideo = false /\
     existsb isOpenSelectKey (events log) = true /\
     existsb isAnimateLogo (events log) = false).
Proof.
  split.
  - do 2 eexists. split; [vm_compute; reflexivity|]. repeat split.
  - do 2 eexists. split; [vm_compute; reflexivity|]. repeat split.
Qed.

(** *** The progress messages *)

(** C8, amended.  While [animateLogo] is awaited, one interval is
    pending, with a delay of 4000 ms and the rotation as its callback:
    the message shown is the first of the list, and after [n] firings it
    is the message at [n mod 5], whatever the number of firings and the
    outcome of the call.  When the call has settled, with a value or
    with an error, the handler ends with no interval pending, the
    message empty and the busy flag false, and further firings change
    nothing. *)
Theorem progress_rotation_until_call_settles env m img :
  let c := AnimateLogo (base64 img) (mimeType img) (aspectRatio (state m)) in
  let k := interactionsBeforeAnimate env (state m) in
  intervals m = [] ->
  imageData (state m) = Some img ->
  hostResponds env ->
  exists m' log en,
    returns (handle env) (handleAnimateLogo (state m)) (m, []) (inr tt) (m', log) /\
    nth_error log k = Some en /\
    what en = Ev (Await c) (settle env c) /\
    intervals (before en) = [rotation m 0] /\
    isGeneratingVideo (state (before en)) = true /\
    (forall n,
       videoLoadingMessage (state (ticks n (before en))) = message_at (n mod 5)) /\
    intervals m' = [] /\
    videoLoadingMessage (state m') = [] /\
    isGeneratingVideo (state m') = false /\
    (forall n, ticks n m' = m').
Proof.
  intros c k Hi Himg Hhost. subst c k. unfold interactionsBeforeAnimate.
  destruct (settle env (AnimateLogo (base64 img) (mimeType img) (aspectRatio (state m))))
    as [e|url] eqn:Hs;
    [destruct (messageIncludes e (js "Requested entity was not found")) eqn:Hm|];
    animate_cases env m Himg Hhost;
    do 3 eexists;
    (split; [app_run|]);
    (split; [reflexivity|]);
    (split; [reflexivity|]);
    ticks_idle Hi;
    (split; [cbn; rewrite Hi; reflexivity|]);
    (split; [reflexivity|]);
    (split;
     [intros n; cbn [before]; rewrite ticks_setInterval by exact Hi;
      destruct n; reflexivity|]);
    rewrite ticks_setInterval by exact Hi;
    destruct (firings env (AnimateLogo (base64 img) (mimeType img) (aspectRatio (state m))));
    (split; [cbn; rewrite Nat.eqb_refl; reflexivity|]);
    (split; [reflexivity|]);
    (split; [reflexivity|]);
    intros j; apply ticks_no_interval; cbn; rewrite Nat.eqb_refl; reflexivity.
Qed.

(** Two firings while the call is awaited show the third message. *)
Lemma progress_rotation_witness :
  exists m' log en,
    returns
      (handle (exampleEnv true true (inr (js "AAAA")) (inr (js "blob:video-2"))
                 (inr (js "AAAA")) 2))
      (handleAnimateLogo stateWithVideo) (mounted stateWithVideo, []) (inr tt)
      (m', log) /\
    nth_error log 11 = Some en /\
    videoLoadingMessage (state (ticks 2 (before en))) =
      js "Rendering cinematic magic..." /\
    intervals m' = [].
Proof.
  destruct (progress_rotation_until_call_settles
              (exampleEnv true true (inr (js "AAAA")) (inr (js "blob:video-2"))
                 (inr (js "AAAA")) 2)
              (mounted stateWithVideo)
              {| base64 := js "iVBOR"; mimeType := js "image/png" |})
    as (m' & log & en & Hrun & Hen & _ & _ & _ & Hmsg & Hnone & _).
  - reflexivity.
  - reflexivity.
  - split; [exists true; reflexivity|reflexivity].
  - exists m', log, en. split; [exact Hrun|]. split; [exact Hen|].
    split; [exact (Hmsg 2)|exact Hnone].
Defined.

(** C8 as stated fails for the teardown of the component: torn down
    while [animateLogo] is awaited, the machine still has the rotation
    pending, and its next firing still runs the callback. *)
Lemma rotation_survives_teardown :
  exists m' log en,
    run (exampleEnv true true (inr (js "AAAA")) (inr (js "blob:video-2"))
           (inr (js "AAAA")) 3)
      80 (handleAnimateLogo stateWithVideo) (mounted stateWithVideo)
    = Some (inr tt, (m', log)) /\
    nth_error log 11 = Some en /\
    isAnimateLogo (what en) = true /\
    intervals (unmount (before en)) = [rotation (mounted stateWithVideo) 0] /\
    map local (intervals (tick (unmount (before en)))) = [1].
Proof.
  do 3 eexists. split; [vm_compute; reflexivity|].
  split; [reflexivity|]. repeat split.
Qed.

(** A description made of white space only, a request for a video with
    no image, and the upload of a text file. *)
Lemma validation_failure_witness :
  let env :=
    exampleEnv true true (inr (js "AAAA")) (inr (js "blob:video-2"))
      (inr (js "AAAA")) 0 in
  (exists m' log,
     returns (handle env) (handleGenerateLogo stateBlankPrompt)
       (mounted stateBlankPrompt, []) (inr tt) (m', log) /\
     List.length log = 1 /\
     error (state m') = Some (js "Please enter a description for your logo.") /\
     imageData (state m') = imageData stateBlankPrompt /\
     videoUrl (state m') = videoUrl stateBlankPrompt) /\
  (exists m' log,
     returns (handle env) (handleAnimateLogo initialState)
       (mounted initialState, []) (inr tt) (m', log) /\
     List.length log = 1 /\
     error (state m') = Some (js "Please generate or upload a logo first.")) /\
  (exists m' log,
     returns (handle env) (handleFileChange (Some [textFile]))
       (mounted stateWithVideo, []) (inr tt) (m', log) /\
     List.length log = 1 /\
     error (state m') = Some (js "Please upload a valid image file.") /\
     imageData (state m') = imageData stateWithVideo).
Proof.
  intros env. split; [|split].
  - destruct (validation_failure_only_sets_error env (mounted stateBlankPrompt))
      as (Hblank & _).
    destruct Hblank as (Hrun & Herr & Himg & Hvid & _).
    + repeat constructor.
    + do 2 eexists. split; [exact Hrun|]. split; [reflexivity|].
      split; [exact Herr|]. split; [exact Himg|exact Hvid].
  - destruct (validation_failure_only_sets_error env (mounted initialState))
      as (_ & Hnone & _).
    destruct (Hnone eq_refl) as (Hrun & Herr & _).
    do 2 eexists. split; [exact Hrun|]. split; [reflexivity|exact Herr].
  - destruct (validation_failure_only_sets_error env (mounted stateWithVideo))
      as (_ & _ & Hfile).
    destruct (Hfile textFile [] eq_refl) as (Hrun & Herr & Himg & _).
    do 2 eexists. split; [exact Hrun|]. split; [reflexivity|].
    split; [exact Herr|exact Himg].
Defined.

(** *** From the description to the video *)

Lemma envTwoPolls_generateLogo prompt r log :
  returns (Gateway.handle Gateway.envTwoPolls) (Gateway.generateLogo prompt) [] r log ->
  r = inr (Some (js "iVBOR")).
Proof.
  intros H.
  destruct (returns_det H (GatewayFacts.generateLogo_run Gateway.envTwoPolls [] prompt))
    as (-> & _).
  reflexivity.
Qed.

Lemma envTwoPolls_animateLogo imageData mimeType aspectRatio r log :
  returns (Gateway.handle Gateway.envTwoPolls)
    (Gateway.animateLogo imageData mimeType aspectRatio) [] r log ->
  r = inr (js "blob:video-1") /\
  Gateway.count Gateway.KGetVideosOperation log = 2.
Proof.
  intros H.
  assert (Hflag : Gateway.flagFalseThenTrue Gateway.envTwoPolls 0 (js "K1")
            (Gateway.generateVideos Gateway.envTwoPolls 0 (js "K1")
               (Gateway.generateVideosParameters imageData mimeType aspectRatio))
            2 (Gateway.operationWith 2 true (Some (js "https://v/1?alt=media")))).
  { split; [|split; reflexivity].
    intros k Hk. destruct k as [|[|k]].
    - eexists. split; reflexivity.
    - eexists. split; reflexivity.
    - exfalso. lia. }
  destruct (returns_det H
              (GatewayFacts.animateLogo_run Gateway.envTwoPolls [] imageData mimeType
                 aspectRatio 2 _ eq_refl Hflag)) as (-> & ->).
  split; reflexivity.
Qed.

(** X2.  The scenario of the specification: the description of an owl
    icon, a generated image, then its animation in 16:9, for which the
    gateway makes two status queries before the download succeeds.  The
    component ends with the image, the video and no error. *)
Theorem description_to_video env m :
  runsGateway Gateway.envTwoPolls env ->
  hostResponds env ->
  intervals m = [] ->
  prompt (state m) = js "A minimalist owl icon for an education app" ->
  aspectRatio (state m) = ratio_16_9 ->
  exists m1 log1 m2 log2,
    returns (handle env) (handleGenerateLogo (state m)) (m, []) (inr tt) (m1, log1) /\
    returns (handle env) (handleAnimateLogo (state m1)) (m1, []) (inr tt) (m2, log2) /\
    imageData (state m2) =
      Some {| base64 := js "iVBOR"; mimeType := js "image/png" |} /\
    videoUrl (state m2) = Some (js "blob:video-1") /\
    error (state m2) = None /\
    isGeneratingImage (state m2) = false /\
    isGeneratingVideo (state m2) = false /\
    intervals m2 = [] /\
    (forall r log,
       returns (Gateway.handle Gateway.envTwoPolls)
         (Gateway.animateLogo (js "iVBOR") (js "image/png") ratio_16_9) [] r log ->
       Gateway.count Gateway.KGetVideosOperation log = 2).
Proof.
  intros (Hgen & Hani) ((hasKey & Hs1) & Hs2) Hi Hp Hr.
  assert (Hlogo : settle env (GenerateLogo (prompt (state m))) = inr (js "iVBOR")).
  { destruct (GatewayFacts.generateLogo_run Gateway.envTwoPolls [] (prompt (state m)))
      as (f & Hf).
    exact (Hgen (prompt (state m)) _ _ _ (ex_intro _ f Hf) eq_refl). }
  assert (Hvideo : settle env (AnimateLogo (js "iVBOR") (js "image/png")
                                 (aspectRatio (state m)))
                   = inr (js "blob:video-1")).
  { assert (Hflag : Gateway.flagFalseThenTrue Gateway.envTwoPolls 0 (js "K1")
              (Gateway.generateVideos Gateway.envTwoPolls 0 (js "K1")
                 (Gateway.generateVideosParameters (js "iVBOR") (js "image/png")
                    (aspectRatio (state m))))
              2 (Gateway.operationWith 2 true (Some (js "https://v/1?alt=media")))).
    { split; [|split; reflexivity].
      intros k Hk. destruct k as [|[|k]].
      - eexists. split; reflexivity.
      - eexists. split; reflexivity.
      - exfalso. lia. }
    pose proof (GatewayFacts.animateLogo_run Gateway.envTwoPolls [] (js "iVBOR")
                  (js "image/png") (aspectRatio (state m)) 2 _ eq_refl Hflag) as Hrun.
    rewrite (Hani _ _ _ _ _ Hrun). reflexivity. }
  assert (Ht : truthy (trim (prompt (state m))) = true)
    by (rewrite Hp; reflexivity).
  rewrite Hr in Hvideo.
  assert (Hfirst : exists w,
    returns (handle env) (handleGenerateLogo (state m)) (m, []) (inr tt) w /\
    fst w = after (setIsGeneratingImage false)
              (after (setImageData
                        (Some {| base64 := js "iVBOR"; mimeType := js "image/png" |}))
                 (after (setImageData None)
                    (after (setVideoUrl None)
                       (after (setIsGeneratingImage true)
                          (after (setError None) m)))))).
  { unfold handleGenerateLogo. rewrite Ht. cbn [negb].
    eexists. split; [app_run|]. cbn [fst]. ticks_idle Hi. reflexivity. }
  destruct Hfirst as ((m1 & log1) & Hrun1 & Hm1). cbn [fst] in Hm1.
  assert (Himg1 : imageData (state m1) =
                  Some {| base64 := js "iVBOR"; mimeType := js "image/png" |})
    by (rewrite Hm1; reflexivity).
  assert (Hr1 : aspectRatio (state m1) = ratio_16_9)
    by (rewrite Hm1; exact Hr).
  assert (Hi1 : intervals m1 = []) by (rewrite Hm1; exact Hi).
  assert (Hg1 : isGeneratingImage (state m1) = false)
    by (rewrite Hm1; reflexivity).
  clear Hm1. exists m1, log1.
  unfold handleAnimateLogo. rewrite Himg1, Hr1. cbn [base64 mimeType].
  destruct (aistudio env method_hasSelectedApiKey) eqn:Ha1;
    destruct (aistudio env method_openSelectKey) eqn:Ha2;
    destruct (apiKeySelected (state m1)) eqn:Hsel;
    cbn [negb];
    do 2 eexists;
    (split; [exact Hrun1|]);
    (split; [app_run|]);
    ticks_idle Hi1; rewrite ticks_setInterval by exact Hi1;
    destruct (firings env (AnimateLogo (js "iVBOR") (js "image/png") ratio_16_9));
    (split; [cbn; exact Himg1|]);
    (split; [reflexivity|]);
    (split; [reflexivity|]);
    (split; [cbn; exact Hg1|]);
    (split; [reflexivity|]);
    (split; [cbn; rewrite Nat.eqb_refl; reflexivity|]);
    intros r log Hrun; exact (proj2 (envTwoPolls_animateLogo _ _ _ r log Hrun)).
Qed.

(** An environment that runs the gateway of the scenario. *)
Lemma description_to_video_witness :
  let env :=
    exampleEnv true true (inr (js "iVBOR")) (inr (js "blob:video-1"))
      (inr (js "AAAA")) 2 in
  let m :=
    mounted
      (update (setPrompt (js "A minimalist owl icon for an education app"))
         initialState) in
  exists m1 log1 m2 log2,
    returns (handle env) (handleGenerateLogo (state m)) (m, []) (inr tt) (m1, log1) /\
    returns (handle env) (handleAnimateLogo (state m1)) (m1, []) (inr tt) (m2, log2) /\
    videoUrl (state m2) = Some (js "blob:video-1") /\
    error (state m2) = None.
Proof.
  intros env m.
  destruct (description_to_video env m)
    as (m1 & log1 & m2 & log2 & H1 & H2 & _ & Hv & He & _).
  - split.
    + intros prompt r log x H Hx.
      rewrite (envTwoPolls_generateLogo prompt r log H) in Hx.
      inversion Hx. reflexivity.
    + intros i mt a r log H. symmetry.
      exact (proj1 (envTwoPolls_animateLogo i mt a r log H)).
  - split; [exists true; reflexivity|reflexivity].
  - reflexivity.
  - reflexivity.
  - reflexivity.
  - exists m1, log1, m2, log2. split; [exact H1|]. split; [exact H2|].
    split; [exact Hv|exact He].
Defined.

End AppFacts.

(** ** Facts about failing and arbitrary runs of the gateway *)

Module FailureFacts.
Import Gateway Failures AsyncFacts GatewayFacts.

(** One round of the loop, whatever the query answers. *)
Lemma round_run env apiKey o l :
  let answered := getVideosOperation env (count KGetVideosOperation l) apiKey o in
  returns (handle env)
    (andThen (perform (SetTimeout 5000))
       (fun _ => await (GetVideosOperation apiKey o)))
    l answered
    (l ++ [Ev (SetTimeout 5000) tt; Ev (GetVideosOperation apiKey o) answered]).
Proof.
  intros answered. gw_step; [gw_step|]. gw_simpl.
  apply returns_await_as. unfold handle. cbn [answer].
  rewrite count_snoc. cbn [kindOf kind_eqb]. rewrite Nat.add_0_r.
  rewrite <- app_assoc. reflexivity.
Qed.

Section Rejected.
Variable env : Environment.
Variable base : nat.
Variable apiKey : jsstring.
Variable start : Error + Operation.
Variable N : nat.
Hypothesis Hfalse :
  forall k, k < N ->
  exists o, jobHandle env base apiKey start k = inr o /\ done o = false.

Lemma count_pollLog_false k kd :
  k <= N ->
  count kd (pollLog env base apiKey start k) =
  match kd with
  | KSetTimeout | KGetVideosOperation => k
  | _ => 0
  end.
Proof.
  induction k as [|k IH]; intros Hk.
  - destruct kd; reflexivity.
  - cbn [pollLog]. rewrite count_app, IH by lia.
    destruct (Hfalse k) as (o & -> & _); [lia|].
    destruct kd; cbn; lia.
Qed.

(** The loop from round [j] on, when the [N]-th query rejects. *)
Lemma polling_rejected e :
  jobHandle env base apiKey start N = inl e ->
  forall d j o l,
  j + S d = N ->
  jobHandle env base apiKey start j = inr o ->
  count KGetVideosOperation l = base ->
  returns (handle env)
    (while (fun operation => negb (done operation))
       (fun operation =>
          andThen (perform (SetTimeout 5000))
            (fun _ => await (GetVideosOperation apiKey operation))) o)
    (l ++ pollLog env base apiKey start j)
    (inl e)
    (l ++ pollLog env base apiKey start N).
Proof.
  intros HN. induction d as [|d IH]; intros j o l Hj Ho Hl.
  - destruct (Hfalse j) as (o' & Ho' & Hd); [lia|].
    rewrite Ho in Ho'. inversion Ho'; subst o'.
    assert (HSj : jobHandle env base apiKey start (S j) = inl e)
      by (replace (S j) with N by lia; exact HN).
    apply returns_while_throw; [rewrite Hd; reflexivity|].
    cbn [jobHandle] in HSj. rewrite Ho in HSj.
    pose proof (round_run env apiKey o (l ++ pollLog env base apiKey start j)) as Hr.
    cbv zeta in Hr.
    rewrite count_app, (count_pollLog_false j KGetVideosOperation), Hl, HSj in Hr
      by lia.
    replace N with (S j) by lia. cbn [pollLog jobHandle]. rewrite Ho, HSj.
    rewrite app_assoc. exact Hr.
  - destruct (Hfalse j) as (o' & Ho' & Hd); [lia|].
    rewrite Ho in Ho'. inversion Ho'; subst o'.
    destruct (Hfalse (S j)) as (o2 & Ho2 & _); [lia|].
    eapply returns_while_step.
    + rewrite Hd. reflexivity.
    + apply (poll_round env apiKey o _ o2).
      rewrite count_app, (count_pollLog_false j KGetVideosOperation), Hl by lia.
      cbn [jobHandle] in Ho2. rewrite Ho in Ho2. exact Ho2.
    + replace ((l ++ pollLog env base apiKey start j) ++
               [Ev (SetTimeout 5000) tt; Ev (GetVideosOperation apiKey o) (inr o2)])
        with (l ++ pollLog env base apiKey start (S j)).
      * apply IH; [lia|exact Ho2|exact Hl].
      * cbn [pollLog]. rewrite Ho, Ho2, <- !app_assoc. reflexivity.
Qed.

End Rejected.

(** The run of [animateLogo] when the [N]-th answer of the job rejects. *)
Lemma remote_rejection_run env log imageData mimeType aspectRatio N e :
  let key := API_KEY env (count KApiKey log) in
  let p := generateVideosParameters imageData mimeType aspectRatio in
  let start := generateVideos env (count KGenerateVideos log) (toString key) p in
  truthy_opt key = true ->
  flagFalseThenRejected env (count KGetVideosOperation log) (toString key) start N e ->
  returns (handle env) (animateLogo imageData mimeType aspectRatio) log (inl e)
    (log ++ submitAndPollLog env log (toString key) p N).
Proof.
  intros key p start Hk (Hfalse & HN).
  unfold animateLogo.
  gw_step; [apply getApiKey_run|]. fold key. gw_simpl. rewrite Hk. gw_simpl.
  destruct N as [|n].
  - cbn [jobHandle] in HN. gw_step.
    + apply returns_await_as. unfold handle. cbn [answer].
      rewrite count_snoc. cbn [kindOf kind_eqb]. rewrite Nat.add_0_r.
      fold p start. rewrite HN. reflexivity.
    + gw_simpl. unfold submitAndPollLog. fold key start.
      rewrite HN. cbn [pollLog]. rewrite <- app_assoc. gw_step.
  - destruct (Hfalse 0) as (o0 & Ho0 & _); [lia|]. cbn [jobHandle] in Ho0.
    gw_step.
    + apply returns_await_as. unfold handle. cbn [answer].
      rewrite count_snoc. cbn [kindOf kind_eqb]. rewrite Nat.add_0_r.
      fold p start. rewrite Ho0. reflexivity.
    + gw_simpl. gw_step.
      * pose proof (polling_rejected env _ (toString key) start (S n) Hfalse e HN
                      n 0 o0
                      ((log ++ [Ev ProcessEnvApiKey key]) ++
                       [Ev (GenerateVideos (toString key) p) (inr o0)])) as Hp.
        cbn [pollLog] in Hp. rewrite app_nil_r in Hp. apply Hp.
        -- lia.
        -- exact Ho0.
        -- rewrite !count_snoc. cbn [kindOf kind_eqb]. lia.
      * gw_simpl. unfold submitAndPollLog. fold key start.
        rewrite <- !app_assoc. rewrite <- Ho0. gw_step.
Qed.

(** X3.  A rejection by the service is the rejection of [animateLogo]:
    when the credential is set, the completion flag is false on the first
    [N] handles of the job and the next answer (the submit call for
    [N = 0], the [N]-th status query otherwise) rejects with [e], the run
    ends rejected with [e] itself, after one submit call, [N] waits and
    [N] queries, and makes no download and no object URL. *)
Theorem animateLogo_remote_rejection
  env log imageData mimeType aspectRatio N e :
  let key := API_KEY env (count KApiKey log) in
  let p := generateVideosParameters imageData mimeType aspectRatio in
  let start := generateVideos env (count KGenerateVideos log) (toString key) p in
  let new := submitAndPollLog env log (toString key) p N in
  truthy_opt key = true ->
  flagFalseThenRejected env (count KGetVideosOperation log) (toString key) start N e ->
  returns (handle env) (animateLogo imageData mimeType aspectRatio) log (inl e)
    (log ++ new) /\
  count KGenerateVideos new = 1 /\
  count KGetVideosOperation new = N /\
  count KSetTimeout new = N /\
  count KApiKey new = 1 /\
  count KFetch new = 0 /\
  count KCreateObjectURL new = 0.
Proof.
  intros key p start new Hk Hrej.
  split;
    [exact (remote_rejection_run env log imageData mimeType aspectRatio N e Hk Hrej)|].
  destruct Hrej as (Hfalse & HN).
  assert (Hcount : forall kd,
            count kd new =
            match kd with
            | KApiKey | KGenerateVideos => 1
            | KSetTimeout | KGetVideosOperation => N
            | _ => 0
            end).
  { intros kd. unfold new, submitAndPollLog. fold key start.
    change (Ev ProcessEnvApiKey key :: Ev (GenerateVideos (toString key) p) start
            :: pollLog env (count KGetVideosOperation log) (toString key) start N)
      with ([Ev ProcessEnvApiKey key; Ev (GenerateVideos (toString key) p) start]
            ++ pollLog env (count KGetVideosOperation log) (toString key) start N).
    rewrite count_app, (count_pollLog_false env _ _ _ N Hfalse N kd) by lia.
    destruct kd; reflexivity. }
  rewrite !Hcount. repeat split.
Qed.

(** The second status query answers 503. *)
Lemma animateLogo_remote_rejection_witness :
  exists new,
    returns (handle envSecondQueryRejects)
      (animateLogo (js "iVBOR") (js "image/png") ratio_16_9) []
      (inl (newError (js "503 Service Unavailable"))) new /\
    count KGetVideosOperation new = 2 /\
    count KFetch new = 0 /\ count KCreateObjectURL new = 0.
Proof.
  destruct (animateLogo_remote_rejection
              envSecondQueryRejects [] (js "iVBOR") (js "image/png") ratio_16_9 2
              (newError (js "503 Service Unavailable")))
    as (Hrun & _ & Hq & _ & _ & Hf & Hu).
  - reflexivity.
  - split; [|reflexivity].
    intros k Hk. destruct k as [|[|k]].
    + eexists. split; reflexivity.
    + eexists. split; reflexivity.
    + exfalso. lia.
  - eexists. split; [exact Hrun|]. repeat split; assumption.
Defined.

(** *** Every run that ends *)

Lemma polling_ended env apiKey f :
  forall o l r l',
  exec (handle env) f
    (while (fun operation => negb (done operation))
       (fun operation =>
          andThen (perform (SetTimeout 5000))
            (fun _ => await (GetVideosOperation apiKey operation))) o) l
  = Some (r, l') ->
  exists polls,
    l' = l ++ polls /\
    (forall kd,
       count kd polls =
       match kd with
       | KSetTimeout | KGetVideosOperation => count KGetVideosOperation polls
       | _ => 0
       end) /\
    (forall operation, r = inr operation -> done operation = true).
Proof.
  induction f as [f IH] using lt_wf_ind. intros o l r l' Hrun.
  match type of Hrun with
  | exec _ _ ?t _ = _ =>
      assert (Hret : returns (handle env) t l r l') by (exists f; exact Hrun)
  end.
  destruct (done o) eqn:Hd.
  - match type of Hrun with
    | exec _ _ ?t _ = _ =>
        assert (Hstop : returns (handle env) t l (inr o) l)
          by (apply returns_while_stop; rewrite Hd; reflexivity)
    end.
    destruct (returns_det Hret Hstop) as (-> & ->).
    exists []. split; [rewrite app_nil_r; reflexivity|]. split.
    + intros kd. destruct kd; reflexivity.
    + intros operation Hop. inversion Hop; subst. exact Hd.
  - assert (Hgo : negb (done o) = true) by (rewrite Hd; reflexivity).
    pose proof (round_run env apiKey o l) as Hround. cbv zeta in Hround.
    destruct (getVideosOperation env (count KGetVideosOperation l) apiKey o)
      as [e|o'] eqn:Hq.
    + match type of Hrun with
      | exec _ _ ?t _ = _ =>
          assert (Hthrow : returns (handle env) t l (inl e)
                    (l ++ [Ev (SetTimeout 5000) tt;
                           Ev (GetVideosOperation apiKey o) (inl e)]))
            by (apply returns_while_throw; [exact Hgo|exact Hround])
      end.
      destruct (returns_det Hret Hthrow) as (-> & ->).
      eexists. split; [reflexivity|]. split.
      * intros kd. destruct kd; reflexivity.
      * intros operation Hop. discriminate.
    + destruct (@exec_while_inv _ _ (handle env) _
                  (fun operation => negb (done operation)) _ o l o' _ f (r, l')
                  Hgo Hround Hrun) as (f' & Hlt & Hrest).
      destruct (IH f' Hlt _ _ _ _ Hrest) as (polls & -> & Hcount & Hdone).
      exists ([Ev (SetTimeout 5000) tt; Ev (GetVideosOperation apiKey o) (inr o')]
              ++ polls).
      split; [rewrite app_assoc; reflexivity|]. split; [|exact Hdone].
      intros kd. rewrite !count_app, Hcount. destruct kd; cbn; lia.
Qed.

Lemma downloadPhase_tidy env log operation :
  let tail := snd (downloadPhase env log operation) in
  let r := fst (downloadPhase env log operation) in
  count KApiKey tail <= 1 /\
  count KGenerateImages tail = 0 /\
  count KGenerateVideos tail = 0 /\
  count KSetTimeout tail = 0 /\
  count KGetVideosOperation tail = 0 /\
  count KFetch tail <= 1 /\
  count KBlob tail <= count KFetch tail /\
  count KCreateObjectURL tail = match r with inr _ => 1 | inl _ => 0 end /\
  (forall u, r = inr u ->
     count KApiKey tail = 1 /\ count KFetch tail = 1 /\ count KBlob tail = 1).
Proof.
  unfold downloadPhase; cbv zeta.
  destruct (truthy_opt (downloadLinkOf operation));
    [|cbn; repeat split; try lia; discriminate].
  destruct (truthy_opt (API_KEY env (count KApiKey log)));
    [|cbn; repeat split; try lia; discriminate].
  destruct (fetch env (count KFetch log) _) as [e|videoResponse];
    [cbn; repeat split; try lia; discriminate|].
  destruct (ok videoResponse);
    [|cbn; repeat split; try lia; discriminate].
  destruct (blob env (count KBlob log) videoResponse) as [e|videoBlob];
    cbn; repeat split; try lia; discriminate.
Qed.

Ltac polls_counts H :=
  pose proof (H KApiKey); pose proof (H KGenerateImages);
  pose proof (H KGenerateVideos); pose proof (H KSetTimeout);
  pose proof (H KFetch); pose proof (H KBlob); pose proof (H KCreateObjectURL);
  cbv beta iota in *.

(** X4.  Whatever the environment answers, a call of [animateLogo] that
    ends has only added to the log, and what it added has no image
    request, at most two reads of the credential, at most one submit call,
    as many waits as status queries, at most one download, a blob read
    only after a download, and an object URL exactly when it resolves; a
    call that resolves has read the credential twice, submitted once,
    downloaded once and read one blob. *)
Theorem animateLogo_ended_run_is_tidy
  env log imageData mimeType aspectRatio r log' :
  returns (handle env) (animateLogo imageData mimeType aspectRatio) log r log' ->
  exists new,
    log' = log ++ new /\
    count KGenerateImages new = 0 /\
    count KApiKey new <= 2 /\
    count KGenerateVideos new <= 1 /\
    count KSetTimeout new = count KGetVideosOperation new /\
    count KFetch new <= 1 /\
    count KBlob new <= count KFetch new /\
    count KCreateObjectURL new = match r with inr _ => 1 | inl _ => 0 end /\
    (forall url, r = inr url ->
       count KApiKey new = 2 /\ count KGenerateVideos new = 1 /\
       count KFetch new = 1 /\ count KBlob new = 1).
Proof.
  intros [fuel Hrun].
  unfold animateLogo, andThen in Hrun.
  destruct (exec_bind_inv _ _ _ _ _ Hrun) as (x1 & w1 & f1 & Hx1 & _ & Hrun1).
  pose proof (getApiKey_run env log) as Hkey. cbv zeta in Hkey.
  destruct (returns_det Hx1 Hkey) as (-> & ->). clear Hx1 Hrun Hkey.
  destruct (truthy_opt (API_KEY env (count KApiKey log))).
  2: { destruct (returns_ret_inv (ex_intro _ f1 Hrun1)) as (-> & ->).
       eexists. split; [reflexivity|].
       cbn. repeat split; try lia; discriminate. }
  destruct (exec_bind_inv _ _ _ _ _ Hrun1) as (x2 & w2 & f2 & Hx2 & _ & Hrun2).
  match type of Hx2 with
  | returns _ (await ?e) ?w _ _ =>
      pose proof (returns_await (handle env) e w) as Hsub
  end.
  destruct (returns_det Hx2 Hsub) as (-> & ->). clear Hx2 Hrun1 Hsub.
  cbn [handle answer fst snd] in Hrun2.
  destruct (generateVideos env _ _ _) as [e|o0].
  { destruct (returns_ret_inv (ex_intro _ f2 Hrun2)) as (-> & ->).
    eexists. split; [rewrite <- app_assoc; reflexivity|].
    cbn. repeat split; try lia; discriminate. }
  destruct (exec_bind_inv _ _ _ _ _ Hrun2) as (x3 & w3 & f3 & [f Hx3] & _ & Hrun3).
  destruct (polling_ended _ _ _ _ _ _ _ Hx3) as (polls & -> & Hpolls & Hdone).
  clear Hx3 Hrun2.
  destruct x3 as [e|operation].
  { destruct (returns_ret_inv (ex_intro _ f3 Hrun3)) as (-> & ->).
    eexists. split; [rewrite <- !app_assoc; reflexivity|].
    polls_counts Hpolls.
    rewrite !count_app. cbn. repeat split; try lia; discriminate. }
  match type of Hrun3 with
  | exec _ _ _ ?w = _ => pose proof (download_run env w operation) as Hdl
  end.
  destruct (returns_det (ex_intro _ f3 Hrun3) Hdl) as (Hr & ->). clear Hdl Hrun3.
  match goal with
  | |- context [downloadPhase env ?w operation] =>
      pose proof (downloadPhase_tidy env w operation) as Htail;
      cbv zeta in Htail; rewrite <- Hr in Htail;
      set (tail := snd (downloadPhase env w operation)) in *
  end.
  destruct Htail as (Ha & Hi & Hv & Ht & Hq & Hf & Hb & Hc & Hu).
  eexists. split; [rewrite <- !app_assoc; reflexivity|].
  polls_counts Hpolls.
  rewrite !count_app. cbn.
  repeat (split; [lia|]).
  intros url Hurl. destruct (Hu url Hurl) as (Ha1 & Hf1 & Hb1).
  repeat split; lia.
Qed.

(** The run with two status queries that resolves. *)
Lemma animateLogo_ended_run_witness :
  exists r log',
    returns (handle envTwoPolls)
      (animateLogo (js "iVBOR") (js "image/png") ratio_16_9) [] r log' /\
    exists new,
      log' = [] ++ new /\
      count KSetTimeout new = count KGetVideosOperation new /\
      count KCreateObjectURL new = match r with inr _ => 1 | inl _ => 0 end.
Proof.
  destruct (run envTwoPolls 60
              (animateLogo (js "iVBOR") (js "image/png") ratio_16_9) [])
    as [[r log']|] eqn:Hrun; [|vm_compute in Hrun; discriminate].
  exists r, log'. split; [exists 60; exact Hrun|].
  destruct (animateLogo_ended_run_is_tidy
              envTwoPolls [] (js "iVBOR") (js "image/png") ratio_16_9 r log')
    as (new & Hlog & _ & _ & _ & Ht & _ & _ & Hc & _).
  - exists 60. exact Hrun.
  - exists new. repeat split; assumption.
Defined.

(** *** The download *)

(** X5.  The ways the download can fail once the job is complete with a
    result location: when the credential is no longer set at the second
    read, [animateLogo] rejects with the error of [getApiKey] and makes
    no request; when [fetch] rejects, or the download is OK and reading
    its blob rejects, [animateLogo] rejects with that very error and
    stops there.  An object URL is made only by a call that resolves. *)
Theorem animateLogo_download_failures
  env log imageData mimeType aspectRatio N operation :
  let key := API_KEY env (count KApiKey log) in
  let p := generateVideosParameters imageData mimeType aspectRatio in
  let start := generateVideos env (count KGenerateVideos log) (toString key) p in
  let base := count KGetVideosOperation log in
  let downloadLink := downloadLinkOf operation in
  let key2 := API_KEY env (S (count KApiKey log)) in
  let url := toString downloadLink +++ js "&key=" +++ toString key2 in
  let fetched := fetch env (count KFetch log) url in
  truthy_opt key = true ->
  flagFalseThenTrue env base (toString key) start N operation ->
  truthy_opt downloadLink = true ->
  exists r tail,
    returns (handle env) (animateLogo imageData mimeType aspectRatio) log r
      (log ++ submitAndPollLog env log (toString key) p N ++ tail) /\
    (truthy_opt key2 = false ->
       r = inl apiKeyError /\ tail = [Ev ProcessEnvApiKey key2]) /\
    (truthy_opt key2 = true ->
       (forall e, fetched = inl e ->
          r = inl e /\
          tail = [Ev ProcessEnvApiKey key2; Ev (Fetch url) (inl e)]) /\
       (forall videoResponse e,
          fetched = inr videoResponse -> ok videoResponse = true ->
          blob env (count KBlob log) videoResponse = inl e ->
          r = inl e /\
          tail = [Ev ProcessEnvApiKey key2; Ev (Fetch url) (inr videoResponse);
                  Ev (ResponseBlob videoResponse) (inl e)])) /\
    count KCreateObjectURL tail = match r with inr _ => 1 | inl _ => 0 end.
Proof.
  intros key p start base downloadLink key2 url fetched Hk Hf Hl.
  pose proof (animateLogo_run env log imageData mimeType aspectRatio N operation
                Hk Hf) as Hrun.
  cbv zeta in Hrun. rewrite <- app_assoc in Hrun.
  pose proof (count_submitAndPollLog env log imageData mimeType aspectRatio N
                operation Hf) as Hc.
  unfold downloadPhase in Hrun. cbv zeta in Hrun.
  rewrite !count_app, !Hc, !Nat.add_0_r in Hrun.
  replace (count KApiKey log + 1) with (S (count KApiKey log)) in Hrun by lia.
  fold key p downloadLink in Hrun. fold key2 in Hrun. fold url in Hrun.
  fold fetched in Hrun.
  rewrite Hl in Hrun. cbn [negb] in Hrun.
  destruct (truthy_opt key2) eqn:Hk2; cbn [negb] in Hrun.
  2: { do 2 eexists. split; [exact Hrun|]. split; [|split; [discriminate|]].
       - intros _. split; reflexivity.
       - reflexivity. }
  destruct fetched as [e|videoResponse] eqn:Hfetch.
  { do 2 eexists. split; [exact Hrun|]. split; [discriminate|].
    split; [|reflexivity]. intros _. split.
    - intros e' He. inversion He; subst e'. split; reflexivity.
    - intros v e' Hv. discriminate. }
  destruct (ok videoResponse) eqn:Hok; cbn [negb] in Hrun.
  2: { do 2 eexists. split; [exact Hrun|]. split; [discriminate|].
       split; [|reflexivity]. intros _. split.
       - intros e' He. discriminate.
       - intros v e' Hv Hokv. inversion Hv; subst v. rewrite Hok in Hokv.
         discriminate. }
  destruct (blob env (count KBlob log) videoResponse) as [e|videoBlob] eqn:Hb.
  { do 2 eexists. split; [exact Hrun|]. split; [discriminate|].
    split; [|reflexivity]. intros _. split.
    - intros e' He. discriminate.
    - intros v e' Hv _ Hbv. inversion Hv; subst v. rewrite Hb in Hbv.
      inversion Hbv; subst e'. split; reflexivity. }
  do 2 eexists. split; [exact Hrun|]. split; [discriminate|].
  split; [|reflexivity]. intros _. split.
  - intros e' He. discriminate.
  - intros v e' Hv _ Hbv. inversion Hv; subst v. rewrite Hb in Hbv. discriminate.
Qed.

(** The credential is withdrawn while the job runs. *)
Lemma animateLogo_download_failures_witness :
  exists tail,
    returns (handle envKeyWithdrawn)
      (animateLogo (js "iVBOR") (js "image/png") ratio_16_9) []
      (inl apiKeyError)
      ([] ++ submitAndPollLog envKeyWithdrawn [] (js "K1")
               (generateVideosParameters (js "iVBOR") (js "image/png") ratio_16_9) 0
          ++ tail) /\
    tail = [Ev ProcessEnvApiKey None].
Proof.
  destruct (animateLogo_download_failures
              envKeyWithdrawn [] (js "iVBOR") (js "image/png") ratio_16_9 0
              (operationWith 0 true (Some (js "https://v/1?alt=media"))))
    as (r & tail & Hrun & Hnone & _).
  - reflexivity.
  - split; [|split; reflexivity]. intros k Hk. exfalso. lia.
  - reflexivity.
  - destruct (Hnone eq_refl) as (Hr & Ht). rewrite Hr in Hrun.
    exists tail. split; [exact Hrun|exact Ht].
Defined.

End FailureFacts.

(** ** Facts about runs that end *)

Module OutcomeFacts.
Import Outcomes AsyncFacts.

Section EndsFacts.
Context {E : Type -> Type} {W : Type}.
Variable handle : forall X, E X -> W -> X * W.

Lemma ends_returns {R} (t : itree E R) w (Q : R -> W -> Prop) r w' :
  ends handle t w Q -> returns handle t w r w' -> Q r w'.
Proof.
  intros (r0 & w0 & Hrun & HQ) H.
  destruct (returns_det H Hrun) as (-> & ->). exact HQ.
Qed.

Lemma ends_weaken {R} (t : itree E R) w (Q Q' : R -> W -> Prop) :
  ends handle t w Q -> (forall r w', Q r w' -> Q' r w') -> ends handle t w Q'.
Proof.
  intros (r & w' & Hrun & HQ) H. exists r, w'. split; [exact Hrun|apply H, HQ].
Qed.

Lemma ends_resolve {A} (a : A) w (Q : Error + A -> W -> Prop) :
  Q (inr a) w -> ends handle (resolve a) w Q.
Proof.
  intros HQ. exists (inr a), w. split; [apply returns_resolve|exact HQ].
Qed.

Lemma ends_throw {A} (e : Error) w (Q : Error + A -> W -> Prop) :
  Q (inl e) w -> ends handle (throw e) w Q.
Proof.
  intros HQ. exists (inl e), w. split; [apply returns_throw|exact HQ].
Qed.

Lemma ends_perform {X} (e : E X) w (Q : Error + X -> W -> Prop) :
  Q (inr (fst (handle _ e w))) (snd (handle _ e w)) -> ends handle (perform e) w Q.
Proof.
  intros HQ. do 2 eexists. split; [|exact HQ].
  apply returns_perform_as. destruct (handle _ e w); reflexivity.
Qed.

Lemma ends_await {X} (e : E (Error + X)%type) w (Q : Error + X -> W -> Prop) :
  Q (fst (handle _ e w)) (snd (handle _ e w)) -> ends handle (await e) w Q.
Proof.
  intros HQ. do 2 eexists. split; [|exact HQ].
  apply returns_await_as. destruct (handle _ e w); reflexivity.
Qed.

Lemma ends_andThen {A B} (m : async E A) (k : A -> async E B) w
  (Q : Error + B -> W -> Prop) :
  ends handle m w
    (fun x w1 =>
       match x with
       | inl e => Q (inl e) w1
       | inr a => ends handle (k a) w1 Q
       end) ->
  ends handle (andThen m k) w Q.
Proof.
  intros (x & w1 & Hm & Hk). destruct x as [e|a].
  - exists (inl e), w1. split; [|exact Hk].
    eapply returns_andThen; [exact Hm|apply returns_throw].
  - destruct Hk as (r & w2 & Hk & HQ). exists r, w2. split; [|exact HQ].
    eapply returns_andThen; [exact Hm|exact Hk].
Qed.

Lemma ends_tryCatch {A} (body : async E A) handler w
  (Q : Error + A -> W -> Prop) :
  ends handle body w
    (fun x w1 =>
       match x with
       | inl e => ends handle (handler e) w1 Q
       | inr a => Q (inr a) w1
       end) ->
  ends handle (tryCatch body handler) w Q.
Proof.
  intros (x & w1 & Hm & Hk). destruct x as [e|a].
  - destruct Hk as (r & w2 & Hk & HQ). exists r, w2. split; [|exact HQ].
    eapply returns_tryCatch; [exact Hm|exact Hk].
  - exists (inr a), w1. split; [|exact Hk].
    eapply returns_tryCatch; [exact Hm|apply returns_resolve].
Qed.

Lemma ends_tryFinally {A} (body : async E A) fin w
  (Q : Error + A -> W -> Prop) :
  ends handle body w
    (fun x w1 =>
       ends handle fin w1
         (fun y w2 => Q (match y with inl e => inl e | inr _ => x end) w2)) ->
  ends handle (tryFinally body fin) w Q.
Proof.
  intros (x & w1 & Hm & y & w2 & Hf & HQ).
  do 2 eexists. split; [|exact HQ].
  eapply returns_tryFinally; [exact Hm|exact Hf|reflexivity].
Qed.

End EndsFacts.

End OutcomeFacts.

(** ** Facts about the view and the listeners *)

Module ViewFacts.
Import App View AsyncFacts JSFacts AppFacts Outcomes OutcomeFacts.

(** While a busy flag is set, the key banner's listener is the only one
    offered. *)
Lemma busy_locks s a :
  isGeneratingImage s || isGeneratingVideo s = true ->
  enabled (render s) a = true -> a = ClickSelectApiKey.
Proof.
  intros Hbusy He. destruct a as [value| |files|r| |]; cbn in He;
    rewrite ?Hbusy in He; try discriminate.
  - destruct r; discriminate.
  - reflexivity.
  - rewrite <- orb_assoc, Hbusy, orb_true_r in He. discriminate.
Qed.

Lemma enabled_not_busy s a :
  a <> ClickSelectApiKey ->
  enabled (render s) a = true ->
  isGeneratingImage s = false /\ isGeneratingVideo s = false.
Proof.
  intros Ha He.
  destruct (isGeneratingImage s || isGeneratingVideo s) eqn:Hbusy.
  - exfalso. apply Ha. exact (busy_locks s a Hbusy He).
  - apply orb_false_elim in Hbusy. exact Hbusy.
Qed.

(** A fact about the view of a state built from the state of [m]. *)
Ltac view_eq Hgi Hgv :=
  cbn; rewrite ?Hgi, ?Hgv; cbn; reflexivity.

(** X6.  A click on the generate button that the view offers, with a
    description that is not blank: while [generateLogo] is awaited the
    display column shows the logo loader, the button reads "Generating...",
    no alert is shown, and the only listener the view still offers is the
    one of the key banner; at the end the button is back, and the view
    shows the image as a [data:image/png;base64,] URL, or the placeholder
    with the alert "Image generation failed: " and the message of the
    error, in which case the animate button stays disabled. *)
Theorem generate_logo_view env m :
  let c := GenerateLogo (prompt (state m)) in
  enabled (render (state m)) ClickGenerateLogo = true ->
  intervals m = [] ->
  truthy (trim (prompt (state m))) = true ->
  exists m' log en,
    returns (handle env) (listener (state m) ClickGenerateLogo) (m, []) (inr tt)
      (m', log) /\
    nth_error log 4 = Some en /\
    what en = Ev (Await c) (settle env c) /\
    (let v := render (state (before en)) in
     display v = LogoLoader /\
     generateLabel v = (LoaderIcon, js " Generating...") /\
     alert v = None /\
     forall a, enabled v a = true -> a = ClickSelectApiKey) /\
    (let v' := render (state m') in
     generateLabel v' = (ImageIcon, js " Generate Logo") /\
     enabled v' ClickGenerateLogo = true /\
     match settle env c with
     | inr base64Image =>
         display v' = LogoImage (js "data:image/png;base64," +++ base64Image) /\
         alert v' = None /\
         enabled v' ClickAnimateLogo = true
     | inl e =>
         display v' = Placeholder /\
         alert v' = Some (js "Image generation failed: " +++ toString (message e)) /\
         enabled v' ClickAnimateLogo = false
     end).
Proof.
  intros c Hen Hi Ht.
  destruct (enabled_not_busy (state m) ClickGenerateLogo ltac:(discriminate) Hen)
    as (Hgi & Hgv).
  cbn [listener]. unfold handleGenerateLogo. rewrite Ht. cbn [negb]. subst c.
  destruct (settle env (GenerateLogo (prompt (state m)))) as [e|b] eqn:Hs;
    (do 3 eexists; split; [app_run|]);
    (split; [reflexivity|]); (split; [reflexivity|]);
    ticks_idle Hi; cbv zeta;
    (split;
     [(split; [|split; [|split]]);
      [view_eq Hgi Hgv|view_eq Hgi Hgv|view_eq Hgi Hgv|
       intros a Ha; apply (busy_locks _ a) in Ha; [exact Ha|reflexivity]]
     |repeat split; view_eq Hgi Hgv]).
Qed.

(** A logo is generated while a video exists. *)
Lemma generate_logo_view_witness :
  exists m' log en,
    returns
      (handle (exampleEnv true true (inr (js "iVBOR")) (inr (js "blob:video-1"))
                 (inr (js "AAAA")) 2))
      (listener stateWithVideo ClickGenerateLogo) (mounted stateWithVideo, [])
      (inr tt) (m', log) /\
    nth_error log 4 = Some en /\
    display (render (state (before en))) = LogoLoader /\
    display (render (state m')) = LogoImage (js "data:image/png;base64,iVBOR").
Proof.
  destruct (generate_logo_view
              (exampleEnv true true (inr (js "iVBOR")) (inr (js "blob:video-1"))
                 (inr (js "AAAA")) 2)
              (mounted stateWithVideo))
    as (m' & log & en & Hrun & Hen & _ & (Hloader & _) & (_ & _ & Hshown & _)).
  - reflexivity.
  - reflexivity.
  - reflexivity.
  - exists m', log, en. split; [exact Hrun|]. split; [exact Hen|].
    split; [exact Hloader|exact Hshown].
Defined.

(** X7.  A click on the animate button that the view offers: while
    [animateLogo] is awaited, after [n] firings of the timer the display
    column shows the video loader with message [n mod 5] of the five, the
    button reads "Animating...", no alert is shown and only the key
    banner's listener is still offered; at the end the buttons are back,
    and the view shows the video player on the URL (when it is not the
    empty string), or still the logo with the alert of the failure, the
    key banner being shown again when the error carries the signature. *)
Theorem animate_logo_view env m img :
  let c := AnimateLogo (base64 img) (mimeType img) (aspectRatio (state m)) in
  let k := interactionsBeforeAnimate env (state m) in
  let logo :=
    LogoImage (js "data:" +++ mimeType img +++ js ";base64," +++ base64 img) in
  enabled (render (state m)) ClickAnimateLogo = true ->
  imageData (state m) = Some img ->
  intervals m = [] ->
  hostResponds env ->
  exists m' log en,
    returns (handle env) (listener (state m) ClickAnimateLogo) (m, []) (inr tt)
      (m', log) /\
    nth_error log k = Some en /\
    what en = Ev (Await c) (settle env c) /\
    (forall n,
       let v := render (state (ticks n (before en))) in
       display v = VideoLoader (message_at (n mod 5)) /\
       animateLabel v = (LoaderIcon, js " Animating...") /\
       alert v = None /\
       forall a, enabled v a = true -> a = ClickSelectApiKey) /\
    (let v' := render (state m') in
     animateLabel v' = (MovieIcon, js " Animate Logo") /\
     enabled v' ClickAnimateLogo = true /\
     enabled v' ClickGenerateLogo = true /\
     match settle env c with
     | inr url =>
         display v' = (if truthy url then VideoPlayer url else logo) /\
         alert v' = None
     | inl e =>
         display v' = logo /\
         if messageIncludes e (js "Requested entity was not found")
         then
           alert v' =
             Some (js "API Key error. Please re-select your API Key and try again.") /\
           keyBanner v' = true
         else
           alert v' =
             Some (js "Video animation failed: " +++ toString (message e))
     end).
Proof.
  intros c k logo Hen Himg Hi Hhost.
  destruct (enabled_not_busy (state m) ClickAnimateLogo ltac:(discriminate) Hen)
    as (Hgi & Hgv).
  subst c k logo. unfold interactionsBeforeAnimate. cbn [listener].
  destruct (settle env (AnimateLogo (base64 img) (mimeType img) (aspectRatio (state m))))
    as [e|url] eqn:Hs;
    [destruct (messageIncludes e (js "Requested entity was not found")) eqn:Hm|];
    animate_cases env m Himg Hhost;
    do 3 eexists;
    (split; [app_run|]);
    (split; [reflexivity|]);
    (split; [reflexivity|]);
    ticks_idle Hi;
    (split;
     [intros n; cbn [before]; rewrite ticks_setInterval by exact Hi;
      cbv zeta; (split; [|split; [|split]]);
      [destruct n; reflexivity|destruct n; reflexivity|destruct n; reflexivity|
       intros a Ha; apply (busy_locks _ a) in Ha;
       [exact Ha|destruct n; apply orb_true_r]]|]);
    rewrite ticks_setInterval by exact Hi;
    destruct (firings env (AnimateLogo (base64 img) (mimeType img) (aspectRatio (state m))));
    cbv zeta; repeat split; try solve [view_eq Hgi Hgv];
    cbn; rewrite ?Himg, ?Hgi, ?Hgv; try reflexivity;
    destruct url; reflexivity.
Qed.

(** Two firings of the timer, then the video. *)
Lemma animate_logo_view_witness :
  exists m' log en,
    returns
      (handle (exampleEnv true true (inr (js "iVBOR")) (inr (js "blob:video-1"))
                 (inr (js "AAAA")) 2))
      (listener stateWithVideo ClickAnimateLogo) (mounted stateWithVideo, [])
      (inr tt) (m', log) /\
    nth_error log 11 = Some en /\
    display (render (state (ticks 2 (before en)))) =
      VideoLoader (js "Rendering cinematic magic...") /\
    display (render (state m')) = VideoPlayer (js "blob:video-1").
Proof.
  destruct (animate_logo_view
              (exampleEnv true true (inr (js "iVBOR")) (inr (js "blob:video-1"))
                 (inr (js "AAAA")) 2)
              (mounted stateWithVideo)
              {| base64 := js "iVBOR"; mimeType := js "image/png" |})
    as (m' & log & en & Hrun & Hen & _ & Hduring & (_ & _ & _ & Hshown & _)).
  - reflexivity.
  - reflexivity.
  - reflexivity.
  - split; [exists true; reflexivity|reflexivity].
  - exists m', log, en. split; [exact Hrun|]. split; [exact Hen|].
    split; [exact (proj1 (Hduring 2))|exact Hshown].
Defined.

(** X8.  The choice of an image file in the upload control: while
    [fileToBase64] is awaited no busy flag is set, so the view offers the
    listeners it offered before; at the end the view shows the file as a
    data URL of the file's own type, or the placeholder with the alert
    "Failed to read file: " and the message of the error. *)
Theorem upload_view env m file others :
  let c := FileToBase64 file in
  let change := ChangeFile (Some (file :: others)) in
  enabled (render (state m)) change = true ->
  intervals m = [] ->
  startsWith (fileType file) (js "image/") = true ->
  exists m' log en,
    returns (handle env) (listener (state m) change) (m, []) (inr tt) (m', log) /\
    nth_error log 2 = Some en /\
    what en = Ev (Await c) (settle env c) /\
    (forall a,
       enabled (render (state (before en))) a = enabled (render (state m)) a) /\
    (let v' := render (state m') in
     match settle env c with
     | inr base64 =>
         display v' =
           LogoImage (js "data:" +++ fileType file +++ js ";base64," +++ base64) /\
         alert v' = None /\
         enabled v' ClickAnimateLogo = true
     | inl e =>
         display v' = Placeholder /\
         alert v' = Some (js "Failed to read file: " +++ toString (message e)) /\
         enabled v' ClickAnimateLogo = false
     end).
Proof.
  intros c change Hen Hi Hty.
  destruct (enabled_not_busy (state m) change ltac:(discriminate) Hen)
    as (Hgi & Hgv).
  subst c change. cbn [listener]. unfold handleFileChange. cbn [firstFile].
  rewrite Hty. cbn [negb].
  destruct (settle env (FileToBase64 file)) as [e|b] eqn:Hs;
    (do 3 eexists; split; [app_run|]);
    (split; [reflexivity|]); (split; [reflexivity|]);
    ticks_idle Hi; cbv zeta;
    (split; [intros a; destruct a; reflexivity|]);
    repeat split; view_eq Hgi Hgv.
Qed.

(** The upload of a PNG file. *)
Lemma upload_view_witness :
  exists m' log,
    returns
      (handle (exampleEnv true true (inr (js "iVBOR")) (inr (js "blob:video-1"))
                 (inr (js "AAAA")) 2))
      (listener stateWithVideo (ChangeFile (Some [pngFile])))
      (mounted stateWithVideo, []) (inr tt) (m', log) /\
    display (render (state m')) = LogoImage (js "data:image/png;base64,AAAA").
Proof.
  destruct (upload_view
              (exampleEnv true true (inr (js "iVBOR")) (inr (js "blob:video-1"))
                 (inr (js "AAAA")) 2)
              (mounted stateWithVideo) pngFile [])
    as (m' & log & en & Hrun & _ & _ & _ & (Hshown & _)).
  - reflexivity.
  - reflexivity.
  - reflexivity.
  - exists m', log. split; [exact Hrun|exact Hshown].
Defined.

(** X9.  Upload, choice of a ratio, animation, on a host whose credential
    calls return: after an image file has been read, the view offers the
    ratio buttons; after a click on one the highlighted button is that one
    and the animate button is offered; the click on it awaits
    [animateLogo] exactly once, on the bytes read from the file, the type
    of the file and the ratio chosen. *)
Theorem uploaded_logo_animated_in_chosen_ratio env m file others base64 r :
  let change := ChangeFile (Some (file :: others)) in
  let c := AnimateLogo base64 (fileType file) r in
  enabled (render (state m)) change = true ->
  intervals m = [] ->
  hostResponds env ->
  startsWith (fileType file) (js "image/") = true ->
  settle env (FileToBase64 file) = inr base64 ->
  exists m1 log1 m2 log2 m3 log3,
    returns (handle env) (listener (state m) change) (m, []) (inr tt) (m1, log1) /\
    enabled (render (state m1)) (ClickRatio r) = true /\
    returns (handle env) (listener (state m1) (ClickRatio r)) (m1, []) (inr tt)
      (m2, log2) /\
    (forall b, In b (ratioButtons (render (state m2))) ->
       ratioSelected b = ratio_eqb r (ratio b)) /\
    enabled (render (state m2)) ClickAnimateLogo = true /\
    returns (handle env) (listener (state m2) ClickAnimateLogo) (m2, []) (inr tt)
      (m3, log3) /\
    filter isAnimateLogo (events log3) = [Ev (Await c) (settle env c)].
Proof.
  intros change c Hen Hi Hhost Hty Hread.
  destruct (enabled_not_busy (state m) change ltac:(discriminate) Hen)
    as (Hgi & Hgv).
  subst change c.
  assert (Hfirst : exists w,
    returns (handle env) (listener (state m) (ChangeFile (Some (file :: others))))
      (m, []) (inr tt) w /\
    fst w = after (setImageData
                     (Some {| base64 := base64; mimeType := fileType file |}))
              (after (setVideoUrl None) (after (setError None) m))).
  { cbn [listener]. unfold handleFileChange. cbn [firstFile]. rewrite Hty.
    cbn [negb]. eexists. split; [app_run|]. cbn [fst]. ticks_idle Hi.
    reflexivity. }
  destruct Hfirst as ((m1 & log1) & Hrun1 & Hm1). cbn [fst] in Hm1.
  exists m1, log1, (after (setAspectRatio r) m1).
  assert (Himg : imageData (state (after (setAspectRatio r) m1)) =
                 Some {| base64 := base64; mimeType := fileType file |})
    by (rewrite Hm1; reflexivity).
  assert (Hr : aspectRatio (state (after (setAspectRatio r) m1)) = r)
    by reflexivity.
  assert (Hi2 : intervals (after (setAspectRatio r) m1) = [])
    by (rewrite Hm1; exact Hi).
  assert (Hsel : apiKeySelected (state (after (setAspectRatio r) m1)) =
                 apiKeySelected (state m))
    by (rewrite Hm1; reflexivity).
  assert (Hen1 : enabled (render (state m1)) (ClickRatio r) = true)
    by (rewrite Hm1; cbn; rewrite Hgi, Hgv; destruct r; reflexivity).
  assert (Hen2 : enabled (render (state (after (setAspectRatio r) m1)))
                   ClickAnimateLogo = true)
    by (rewrite Hm1; cbn; rewrite Hgi, Hgv; reflexivity).
  assert (Hbuttons : forall b,
            In b (ratioButtons (render (state (after (setAspectRatio r) m1)))) ->
            ratioSelected b = ratio_eqb r (ratio b)).
  { intros b [<-|[<-|[]]]; reflexivity. }
  assert (Hrun2 : returns (handle env) (listener (state m1) (ClickRatio r)) (m1, [])
                    (inr tt)
                    (after (setAspectRatio r) m1,
                     [mkEntry m1 (Ev (SetState (setAspectRatio r)) tt)])).
  { cbn [listener]. app_run. }
  set (m2 := after (setAspectRatio r) m1) in *. clearbody m2. clear Hm1.
  cbn [listener]. unfold handleAnimateLogo. rewrite Himg, Hr.
  cbn [App.base64 App.mimeType].
  destruct Hhost as ((hasKey & Hs1) & Hs2).
  destruct (settle env (AnimateLogo base64 (fileType file) r)) as [e|url] eqn:Hs;
    [destruct (messageIncludes e (js "Requested entity was not found")) eqn:Hm|];
    destruct (aistudio env method_hasSelectedApiKey) eqn:Ha1;
    destruct (aistudio env method_openSelectKey) eqn:Ha2;
    destruct (apiKeySelected (state m2)) eqn:Hsel2;
    cbn [negb];
    do 3 eexists;
    (split; [exact Hrun1|]);
    (split; [exact Hen1|]);
    (split; [exact Hrun2|]);
    (split; [exact Hbuttons|]);
    (split; [exact Hen2|]);
    (split; [app_run|]);
    cbn [events map what app filter isAnimateLogo]; reflexivity.
Qed.

(** A PNG file, then 9:16, then the animation. *)
Lemma uploaded_logo_animated_witness :
  let env :=
    exampleEnv true true (inr (js "iVBOR")) (inr (js "blob:video-1"))
      (inr (js "AAAA")) 2 in
  let m := mounted stateWithVideo in
  exists m1 log1 m2 log2 m3 log3,
    returns (handle env) (listener (state m) (ChangeFile (Some [pngFile]))) (m, [])
      (inr tt) (m1, log1) /\
    returns (handle env) (listener (state m1) (ClickRatio ratio_9_16)) (m1, [])
      (inr tt) (m2, log2) /\
    returns (handle env) (listener (state m2) ClickAnimateLogo) (m2, []) (inr tt)
      (m3, log3) /\
    filter isAnimateLogo (events log3) =
      [Ev (Await (AnimateLogo (js "AAAA") (js "image/png") ratio_9_16))
          (inr (js "blob:video-1"))].
Proof.
  intros env m.
  destruct (uploaded_logo_animated_in_chosen_ratio env m pngFile [] (js "AAAA")
              ratio_9_16)
    as (m1 & log1 & m2 & log2 & m3 & log3 & H1 & _ & H2 & _ & _ & H3 & Hcall).
  - reflexivity.
  - reflexivity.
  - split; [exists true; reflexivity|reflexivity].
  - reflexivity.
  - reflexivity.
  - exists m1, log1, m2, log2, m3, log3.
    split; [exact H1|]. split; [exact H2|]. split; [exact H3|exact Hcall].
Defined.

(** Stepping through a handler in an arbitrary environment: the cases
    are opened as the run meets them. *)
Ltac ends_run :=
  repeat first
    [ apply ends_andThen
    | apply ends_tryCatch
    | apply ends_tryFinally
    | apply ends_perform
    | apply ends_await
    | apply ends_resolve
    | apply ends_throw
    | progress (cbn [handle fst snd negb]; cbv beta iota)
    | progress app_rewrite
    | match goal with
      | |- match ?x with inl _ => _ | inr _ => _ end => destruct x eqn:?
      | |- ends _ (if ?c then _ else _) _ _ => destruct c eqn:?
      | |- ends _ (match ?x with Some _ => _ | None => _ end) _ _ =>
          destruct x eqn:?
      end ].

(** X11.  A rejection of the host's credential interface on a request for
    a video, from the query for the selected key or from the picker, ends
    [handleAnimateLogo] rejected with that error before anything is
    started: [animateLogo] is not called, no timer is pending, and the
    alert, the display column and the controls other than the key banner
    are as they were, so the failure is not shown. *)
Theorem animate_host_rejection env m img e :
  let untouched (r : Error + unit) (w : World) :=
    r = inl e /\
    existsb isAnimateLogo (events (snd w)) = false /\
    intervals (fst w) = [] /\
    alert (render (state (fst w))) = alert (render (state m)) /\
    display (render (state (fst w))) = display (render (state m)) /\
    forall a, a <> ClickSelectApiKey ->
      enabled (render (state (fst w))) a = enabled (render (state m)) a in
  imageData (state m) = Some img ->
  intervals m = [] ->
  (aistudio env method_hasSelectedApiKey = true ->
   settle env HasSelectedApiKey = inl e ->
   ends (handle env) (listener (state m) ClickAnimateLogo) (m, []) untouched) /\
  ((aistudio env method_hasSelectedApiKey = true ->
    exists hasKey, settle env HasSelectedApiKey = inr hasKey) ->
   apiKeySelected (state m) = false ->
   aistudio env method_openSelectKey = true ->
   settle env OpenSelectKey = inl e ->
   ends (handle env) (listener (state m) ClickAnimateLogo) (m, []) untouched).
Proof.
  intros untouched Himg Hi. subst untouched. cbn [listener].
  unfold handleAnimateLogo, checkApiKey, handleSelectApiKey, setState.
  rewrite Himg. split.
  - intros Ha1 Hs1. ends_run. ticks_idle Hi. repeat split; exact Hi.
  - intros Hq Hsel Ha2 Hs2. rewrite Hsel.
    destruct (aistudio env method_hasSelectedApiKey) eqn:Ha1.
    + destruct (Hq eq_refl) as (hasKey & Hs1).
      ends_run. ticks_idle Hi.
      repeat (split; [first [reflexivity|exact Hi]|]).
      intros a Ha. destruct a; try reflexivity. exfalso. apply Ha. reflexivity.
    + ends_run. ticks_idle Hi. repeat split; exact Hi.
Qed.

(** The query for the selected key rejects. *)
Lemma animate_host_rejection_witness :
  ends (handle envHostFailure) (listener stateWithVideo ClickAnimateLogo)
    (mounted stateWithVideo, [])
    (fun r w =>
       r = inl (newError (js "host unavailable")) /\
       existsb isAnimateLogo (events (snd w)) = false).
Proof.
  destruct (animate_host_rejection envHostFailure (mounted stateWithVideo)
              {| base64 := js "iVBOR"; mimeType := js "image/png" |}
              (newError (js "host unavailable")) eq_refl eq_refl)
    as (Hquery & _).
  apply (ends_weaken _ _ _ _ _ (Hquery eq_refl eq_refl)).
  intros r w (Hr & Hnone & _). split; [exact Hr|exact Hnone].
Defined.

(** X12.  The key banner.  After the mount effect it is hidden exactly
    when the host provides the query for the selected key and answers
    yes; it stays as it was when the host has no such query or the query
    rejects, and the other controls are untouched.  After a click on its
    button it is hidden as soon as the host provides the picker and the
    picker returns, the host not being asked what was selected. *)
Theorem key_banner_after_mount_and_selection env m :
  intervals m = [] ->
  ends (handle env) mountEffect (m, [])
    (fun _ w =>
       let m1 := fst w in
       keyBanner (render (state m1)) =
         (if aistudio env method_hasSelectedApiKey
          then match settle env HasSelectedApiKey with
               | inr hasKey => negb hasKey
               | inl _ => keyBanner (render (state m))
               end
          else keyBanner (render (state m))) /\
       forall a, a <> ClickSelectApiKey ->
         enabled (render (state m1)) a = enabled (render (state m)) a) /\
  ends (handle env) (listener (state m) ClickSelectApiKey) (m, [])
    (fun _ w =>
       let m1 := fst w in
       keyBanner (render (state m1)) =
         (if aistudio env method_openSelectKey
          then match settle env OpenSelectKey with
               | inr _ => false
               | inl _ => keyBanner (render (state m))
               end
          else keyBanner (render (state m))) /\
       existsb isHostEvent (skipn 2 (events (snd w))) = false).
Proof.
  intros Hi. split.
  - unfold mountEffect, checkApiKey, setState. ends_run; ticks_idle Hi;
      (split; [reflexivity|]);
      intros a Ha; destruct a; try reflexivity; exfalso; apply Ha; reflexivity.
  - cbn [listener]. unfold handleSelectApiKey, setState.
    ends_run; ticks_idle Hi; split; reflexivity.
Qed.

(** A host with a key selected: the banner is hidden after mount. *)
Lemma key_banner_witness :
  ends
    (handle (exampleEnv true true (inr (js "iVBOR")) (inr (js "blob:video-1"))
               (inr (js "AAAA")) 2))
    mountEffect (mounted initialState, [])
    (fun _ w => keyBanner (render (state (fst w))) = false).
Proof.
  destruct (key_banner_after_mount_and_selection
              (exampleEnv true true (inr (js "iVBOR")) (inr (js "blob:video-1"))
                 (inr (js "AAAA")) 2)
              (mounted initialState) eq_refl) as (Hmount & _).
  apply (ends_weaken _ _ _ _ _ Hmount).
  intros r w (Hbanner & _). exact Hbanner.
Defined.

(** X13.  From the click to the view, through the gateway: when the
    component runs the gateway in [genv], a click on the generate button
    ends, when the first generated image of the endpoint's response has
    an image with bytes, with these bytes shown as a data URL and stored
    with the MIME type that the gateway asked the endpoint for; and it
    ends with the placeholder and an alert made of "Image generation
    failed: " and the message of the gateway's error on a missing
    credential, a rejection of the endpoint, a response without images,
    and a first entry without an image, where the error is the engine's.
    Nothing is said of the view for an image without bytes, on which the
    gateway resolves with [undefined]. *)
Theorem generation_outcome_reaches_the_view genv env m :
  let key := Gateway.API_KEY genv 0 in
  let p := Gateway.generateImagesParameters (prompt (state m)) in
  let answer := Gateway.generateImages genv 0 (toString key) p in
  runsGateway genv env ->
  enabled (render (state m)) ClickGenerateLogo = true ->
  intervals m = [] ->
  truthy (trim (prompt (state m))) = true ->
  ends (handle env) (listener (state m) ClickGenerateLogo) (m, [])
    (fun r w =>
       let s' := state (fst w) in
       let failed (msg : jsstring) :=
         alert (render s') = Some (js "Image generation failed: " +++ msg) /\
         display (render s') = Placeholder in
       r = inr tt /\
       if negb (truthy_opt key)
       then failed (js "API_KEY environment variable not set.")
       else
         match answer with
         | inl e => failed (toString (message e))
         | inr response =>
             match Gateway.generatedImages response with
             | Some (first :: _) =>
                 match Gateway.image first with
                 | Some img =>
                     forall bytes, Gateway.imageBytes img = Some bytes ->
                       imageData s' =
                         Some {| base64 := bytes;
                                 mimeType := Gateway.gi_outputMimeType p |} /\
                       alert (render s') = None /\
                       display (render s') =
                         LogoImage (js "data:image/png;base64," +++ bytes)
                 | None =>
                     failed (toString
                               (message (Gateway.readOfUndefined (js "imageBytes"))))
                 end
             | Some [] | None =>
                 failed (js "Image generation failed or returned no images.")
             end
         end).
Proof.
  intros key p answer (Hgen & _) Hen Hi Ht.
  destruct (enabled_not_busy (state m) ClickGenerateLogo ltac:(discriminate) Hen)
    as (Hgi & Hgv).
  pose proof (GatewayFacts.generateLogo_run genv [] (prompt (state m))) as Hrun.
  cbv zeta in Hrun. cbn [Gateway.count List.length filter] in Hrun.
  fold key p answer in Hrun. unfold Gateway.firstImage in Hrun.
  cbn [listener]. unfold handleGenerateLogo, setState. rewrite Ht. cbn [negb].
  destruct (truthy_opt key); cbn [negb];
    [destruct answer as [e|response];
     [|destruct (Gateway.generatedImages response) as [[|first others]|];
       [|destruct (Gateway.image first) as [img|];
         [destruct (Gateway.imageBytes img) as [bytes|]|]|]]|];
    try pose proof (Hgen _ _ _ _ Hrun eq_refl) as Hlogo;
    ends_run; ticks_idle Hi; cbv zeta;
    (split; [reflexivity|]);
    try (intros bytes' Hbytes; inversion Hbytes; subst);
    repeat split; view_eq Hgi Hgv.
Qed.

(** The gateway of the scenario answers one image. *)
Lemma generation_outcome_witness :
  ends
    (handle (exampleEnv true true (inr (js "iVBOR")) (inr (js "blob:video-1"))
               (inr (js "AAAA")) 2))
    (listener stateWithVideo ClickGenerateLogo) (mounted stateWithVideo, [])
    (fun r w =>
       r = inr tt /\
       display (render (state (fst w))) =
         LogoImage (js "data:image/png;base64,iVBOR")).
Proof.
  eapply ends_weaken.
  - apply (generation_outcome_reaches_the_view Gateway.envTwoPolls
             (exampleEnv true true (inr (js "iVBOR")) (inr (js "blob:video-1"))
                (inr (js "AAAA")) 2)
             (mounted stateWithVideo)).
    + split.
      * intros prompt r log x H Hx.
        rewrite (envTwoPolls_generateLogo prompt r log H) in Hx.
        inversion Hx. reflexivity.
      * intros i mt a r log H. symmetry.
        exact (proj1 (envTwoPolls_animateLogo i mt a r log H)).
    + reflexivity.
    + reflexivity.
    + reflexivity.
  - intros r w (Hr & Hview). split; [exact Hr|].
    exact (proj2 (proj2 (Hview (js "iVBOR") eq_refl))).
Defined.

(** X14.  When the component runs the gateway in [genv] and the video
    service rejects the submit call or a status query with [e], a click
    on the animate button ends with nothing in progress and the logo still
    displayed; when the message of [e] carries the signature "Requested
    entity was not found" the alert asks to select the key again and the
    key banner is shown, otherwise the alert is "Video animation failed: "
    with the message of [e]. *)
Theorem service_rejection_reaches_the_view genv env m img N e :
  let key := Gateway.API_KEY genv 0 in
  let p :=
    Gateway.generateVideosParameters (base64 img) (mimeType img)
      (aspectRatio (state m)) in
  let start := Gateway.generateVideos genv 0 (toString key) p in
  runsGateway genv env ->
  hostResponds env ->
  enabled (render (state m)) ClickAnimateLogo = true ->
  imageData (state m) = Some img ->
  intervals m = [] ->
  truthy_opt key = true ->
  Failures.flagFalseThenRejected genv 0 (toString key) start N e ->
  ends (handle env) (listener (state m) ClickAnimateLogo) (m, [])
    (fun r w =>
       let v := render (state (fst w)) in
       r = inr tt /\
       idle (fst w) /\
       display v =
         LogoImage (js "data:" +++ mimeType img +++ js ";base64," +++ base64 img) /\
       if messageIncludes e (js "Requested entity was not found")
       then
         alert v =
           Some (js "API Key error. Please re-select your API Key and try again.") /\
         keyBanner v = true
       else
         alert v = Some (js "Video animation failed: " +++ toString (message e))).
Proof.
  intros key p start (_ & Hani) ((hasKey & Hs1) & Hs2) Hen Himg Hi Hk Hrej.
  destruct (enabled_not_busy (state m) ClickAnimateLogo ltac:(discriminate) Hen)
    as (Hgi & Hgv).
  assert (Hvideo : settle env (AnimateLogo (base64 img) (mimeType img)
                                 (aspectRatio (state m))) = inl e).
  { exact (Hani _ _ _ _ _
             (FailureFacts.remote_rejection_run genv [] (base64 img) (mimeType img)
                (aspectRatio (state m)) N e Hk Hrej)). }
  cbn [listener].
  unfold handleAnimateLogo, checkApiKey, handleSelectApiKey, setState.
  rewrite Himg.
  destruct (messageIncludes e (js "Requested entity was not found")) eqn:Hm;
    ends_run; ticks_idle Hi; rewrite ticks_setInterval by exact Hi;
    destruct (firings env (AnimateLogo (base64 img) (mimeType img)
                             (aspectRatio (state m))));
    cbv zeta; unfold idle;
    repeat split; try exact Hgi;
    try solve [view_eq Hgi Hgv];
    cbn; rewrite ?Himg, ?Hgi, ?Hgv, ?Nat.eqb_refl; reflexivity.
Qed.

(** The environment of the component that runs [envEntityNotFound]. *)
Lemma envEntityNotFound_runs :
  runsGateway Failures.envEntityNotFound
    (exampleEnv true true
       (inl (newError (js "Image generation failed or returned no images.")))
       (inl (newError (js "404: Requested entity was not found.")))
       (inr (js "AAAA")) 2).
Proof.
  split.
  - intros prompt r log x H Hx.
    destruct (returns_det H
                (GatewayFacts.generateLogo_run Failures.envEntityNotFound [] prompt))
      as (-> & _).
    inversion Hx. reflexivity.
  - intros i mt a r log H.
    assert (Hrej : Failures.flagFalseThenRejected Failures.envEntityNotFound 0 (js "K1")
                     (inl (newError (js "404: Requested entity was not found.")))
                     0 (newError (js "404: Requested entity was not found."))).
    { split; [|reflexivity]. intros k Hk. exfalso. lia. }
    destruct (returns_det H
                (FailureFacts.remote_rejection_run Failures.envEntityNotFound [] i mt a 0 _
                   eq_refl Hrej)) as (-> & _).
    reflexivity.
Qed.

(** The submit call answers 404 with the signature. *)
Lemma service_rejection_witness :
  ends
    (handle (exampleEnv true true
               (inl (newError (js "Image generation failed or returned no images.")))
               (inl (newError (js "404: Requested entity was not found.")))
               (inr (js "AAAA")) 2))
    (listener stateWithVideo ClickAnimateLogo) (mounted stateWithVideo, [])
    (fun r w =>
       alert (render (state (fst w))) =
         Some (js "API Key error. Please re-select your API Key and try again.") /\
       keyBanner (render (state (fst w))) = true).
Proof.
  eapply ends_weaken.
  - apply (service_rejection_reaches_the_view Failures.envEntityNotFound
             (exampleEnv true true
                (inl (newError (js "Image generation failed or returned no images.")))
                (inl (newError (js "404: Requested entity was not found.")))
                (inr (js "AAAA")) 2)
             (mounted stateWithVideo)
             {| base64 := js "iVBOR"; mimeType := js "image/png" |}
             0 (newError (js "404: Requested entity was not found."))).
    + exact envEntityNotFound_runs.
    + split; [exists true; reflexivity|reflexivity].
    + reflexivity.
    + reflexivity.
    + reflexivity.
    + reflexivity.
    + split; [|reflexivity]. intros k Hk. exfalso. lia.
  - intros r w (_ & _ & _ & Halert). exact Halert.
Defined.

(** The run of [animateLogo] whose download succeeds. *)
Lemma successful_download_run genv imageData mimeType aspectRatio N operation
  videoResponse videoBlob :
  let key := Gateway.API_KEY genv 0 in
  let p := Gateway.generateVideosParameters imageData mimeType aspectRatio in
  let start := Gateway.generateVideos genv 0 (toString key) p in
  let key2 := Gateway.API_KEY genv 1 in
  let url :=
    toString (Gateway.downloadLinkOf operation) +++ js "&key=" +++ toString key2 in
  truthy_opt key = true ->
  Gateway.flagFalseThenTrue genv 0 (toString key) start N operation ->
  truthy_opt (Gateway.downloadLinkOf operation) = true ->
  truthy_opt key2 = true ->
  Gateway.fetch genv 0 url = inr videoResponse ->
  Gateway.ok videoResponse = true ->
  Gateway.blob genv 0 videoResponse = inr videoBlob ->
  exists log,
    returns (Gateway.handle genv) (Gateway.animateLogo imageData mimeType aspectRatio)
      [] (inr (Gateway.createObjectURL genv 0 videoBlob)) log.
Proof.
  intros key p start key2 url Hk Hf Hl Hk2 Hfetch Hok Hblob.
  pose proof (GatewayFacts.animateLogo_run genv [] imageData mimeType aspectRatio N
                operation Hk Hf) as Hrun.
  cbv zeta in Hrun.
  pose proof (GatewayFacts.count_submitAndPollLog genv [] imageData mimeType
                aspectRatio N operation Hf) as Hc.
  unfold Gateway.downloadPhase in Hrun. cbv zeta in Hrun.
  rewrite !GatewayFacts.count_app, !Hc in Hrun.
  cbn [Gateway.count List.length filter Nat.add] in Hrun.
  fold key2 in Hrun. fold url in Hrun.
  rewrite Hl, Hk2, Hfetch, Hok, Hblob in Hrun. cbn [negb fst snd] in Hrun.
  eexists. exact Hrun.
Qed.

(** X17.  From the click to the view, through the gateway, when all goes
    well: the component runs the gateway in [genv], the job is complete
    after [N] status queries with a result location, the credential is
    still set, the download is OK and its blob is read.  Then a click on
    the animate button ends with nothing in progress, the object URL of
    the blob stored as the video and shown in the player, the image kept
    and no alert. *)
Theorem animation_outcome_reaches_the_view
  genv env m img N operation videoResponse videoBlob :
  let key := Gateway.API_KEY genv 0 in
  let p :=
    Gateway.generateVideosParameters (base64 img) (mimeType img)
      (aspectRatio (state m)) in
  let start := Gateway.generateVideos genv 0 (toString key) p in
  let key2 := Gateway.API_KEY genv 1 in
  let url :=
    toString (Gateway.downloadLinkOf operation) +++ js "&key=" +++ toString key2 in
  let objectUrl := Gateway.createObjectURL genv 0 videoBlob in
  runsGateway genv env ->
  hostResponds env ->
  enabled (render (state m)) ClickAnimateLogo = true ->
  imageData (state m) = Some img ->
  intervals m = [] ->
  truthy_opt key = true ->
  Gateway.flagFalseThenTrue genv 0 (toString key) start N operation ->
  truthy_opt (Gateway.downloadLinkOf operation) = true ->
  truthy_opt key2 = true ->
  Gateway.fetch genv 0 url = inr videoResponse ->
  Gateway.ok videoResponse = true ->
  Gateway.blob genv 0 videoResponse = inr videoBlob ->
  ends (handle env) (listener (state m) ClickAnimateLogo) (m, [])
    (fun r w =>
       let s' := state (fst w) in
       r = inr tt /\
       idle (fst w) /\
       videoUrl s' = Some objectUrl /\
       imageData s' = Some img /\
       alert (render s') = None /\
       display (render s') =
         if truthy objectUrl then VideoPlayer objectUrl
         else LogoImage (js "data:" +++ mimeType img +++ js ";base64," +++ base64 img)).
Proof.
  intros key p start key2 url objectUrl (_ & Hani) ((hasKey & Hs1) & Hs2)
    Hen Himg Hi Hk Hf Hl Hk2 Hfetch Hok Hblob.
  destruct (enabled_not_busy (state m) ClickAnimateLogo ltac:(discriminate) Hen)
    as (Hgi & Hgv).
  assert (Hvideo : settle env (AnimateLogo (base64 img) (mimeType img)
                                 (aspectRatio (state m))) = inr objectUrl).
  { destruct (successful_download_run genv (base64 img) (mimeType img)
                (aspectRatio (state m)) N operation videoResponse videoBlob
                Hk Hf Hl Hk2 Hfetch Hok Hblob) as (log & Hrun).
    exact (Hani _ _ _ _ _ Hrun). }
  cbn [listener].
  unfold handleAnimateLogo, checkApiKey, handleSelectApiKey, setState.
  rewrite Himg.
  ends_run; ticks_idle Hi; rewrite ticks_setInterval by exact Hi;
    destruct (firings env (AnimateLogo (base64 img) (mimeType img)
                             (aspectRatio (state m))));
    cbv zeta; unfold idle;
    repeat split; try exact Hgi; try exact Himg;
    try solve [view_eq Hgi Hgv];
    cbn; rewrite ?Himg, ?Hgi, ?Hgv, ?Nat.eqb_refl; try reflexivity;
    destruct objectUrl; reflexivity.
Qed.

(** The gateway of the scenario: two status queries, then the download. *)
Lemma animation_outcome_witness :
  ends
    (handle (exampleEnv true true (inr (js "iVBOR")) (inr (js "blob:video-1"))
               (inr (js "AAAA")) 2))
    (listener stateWithVideo ClickAnimateLogo) (mounted stateWithVideo, [])
    (fun r w =>
       r = inr tt /\
       display (render (state (fst w))) = VideoPlayer (js "blob:video-1")).
Proof.
  eapply ends_weaken.
  - apply (animation_outcome_reaches_the_view Gateway.envTwoPolls
             (exampleEnv true true (inr (js "iVBOR")) (inr (js "blob:video-1"))
                (inr (js "AAAA")) 2)
             (mounted stateWithVideo)
             {| base64 := js "iVBOR"; mimeType := js "image/png" |}
             2 (Gateway.operationWith 2 true (Some (js "https://v/1?alt=media")))
             {| Gateway.ok := true; Gateway.statusText := js "OK";
                Gateway.responseId := 1 |}
             [0; 0; 0; 24]%N).
    + split.
      * intros prompt r log x H Hx.
        rewrite (envTwoPolls_generateLogo prompt r log H) in Hx.
        inversion Hx. reflexivity.
      * intros i mt a r log H. symmetry.
        exact (proj1 (envTwoPolls_animateLogo i mt a r log H)).
    + split; [exists true; reflexivity|reflexivity].
    + reflexivity.
    + reflexivity.
    + reflexivity.
    + reflexivity.
    + split; [|split; reflexivity].
      intros k Hk. destruct k as [|[|k]].
      * eexists. split; reflexivity.
      * eexists. split; reflexivity.
      * exfalso. lia.
    + reflexivity.
    + reflexivity.
    + reflexivity.
    + reflexivity.
    + reflexivity.
  - intros r w (Hr & _ & _ & _ & _ & Hshown). split; [exact Hr|exact Hshown].
Defined.

(** X15.  [handleAnimateLogo] decides on the picker with the selection
    state of the render it was created in, not with the answer it has just
    stored: the picker is opened exactly when that state is false and the
    host provides it, and when [animateLogo] is awaited the stored state,
    hence the key banner, is the host's answer if the earlier state was
    true or no picker is provided, and true otherwise. *)
Theorem animation_requested_on_stale_selection env m img hasKey :
  let c := AnimateLogo (base64 img) (mimeType img) (aspectRatio (state m)) in
  let k := interactionsBeforeAnimate env (state m) in
  let offered := aistudio env method_openSelectKey in
  imageData (state m) = Some img ->
  intervals m = [] ->
  aistudio env method_hasSelectedApiKey = true ->
  settle env HasSelectedApiKey = inr hasKey ->
  settle env OpenSelectKey = inr tt ->
  ends (handle env) (listener (state m) ClickAnimateLogo) (m, [])
    (fun r w =>
       exists en,
         nth_error (snd w) k = Some en /\
         what en = Ev (Await c) (settle env c) /\
         existsb isOpenSelectKey (events (firstn k (snd w))) =
           negb (apiKeySelected (state m)) && offered /\
         keyBanner (render (state (before en))) =
           negb (if apiKeySelected (state m) then hasKey
                 else if offered then true else hasKey)).
Proof.
  intros c k offered Himg Hi Ha1 Hs1 Hs2. subst c k offered.
  unfold interactionsBeforeAnimate. cbn [listener].
  unfold handleAnimateLogo, checkApiKey, handleSelectApiKey, setState.
  rewrite Himg, Ha1.
  destruct (apiKeySelected (state m)) eqn:Hsel; cbn [negb];
    [|destruct (aistudio env method_openSelectKey) eqn:Ha2];
    ends_run; ticks_idle Hi;
    (eexists; split; [reflexivity|]); repeat split.
Qed.

(** The state says selected, the host says no: no picker, and the banner
    is back when the call is made. *)
Lemma stale_selection_witness :
  ends
    (handle (exampleEnv true false (inr (js "iVBOR")) (inr (js "blob:video-1"))
               (inr (js "AAAA")) 2))
    (listener stateKeySelected ClickAnimateLogo) (mounted stateKeySelected, [])
    (fun r w =>
       exists en,
         nth_error (snd w) 8 = Some en /\
         existsb isOpenSelectKey (events (firstn 8 (snd w))) = false /\
         keyBanner (render (state (before en))) = true).
Proof.
  eapply ends_weaken.
  - apply (animation_requested_on_stale_selection
             (exampleEnv true false (inr (js "iVBOR")) (inr (js "blob:video-1"))
                (inr (js "AAAA")) 2)
             (mounted stateKeySelected)
             {| base64 := js "iVBOR"; mimeType := js "image/png" |} false);
      reflexivity.
  - intros r w (en & Hen & _ & Hpick & Hbanner).
    exists en. split; [exact Hen|]. split; [exact Hpick|exact Hbanner].
Defined.

(** Every listener keeps a settled machine settled. *)
Lemma listener_keeps_settled env m a :
  settled m ->
  ends (handle env) (listener (state m) a) (m, []) (fun _ w => settled (fst w)).
Proof.
  intros ((Hgi & Hgv & Hi) & Hmsg & Hvid & Halert).
  assert (Hsettled : settled m) by (repeat split; assumption).
  destruct a as [value| |files|r| |]; cbn [listener].
  - unfold setState. ends_run. exact Hsettled.
  - unfold handleGenerateLogo, setState. ends_run.
    all: ticks_idle Hi.
    all: repeat split; try assumption; try discriminate.
  - unfold handleFileChange, setState. ends_run.
    all: ticks_idle Hi.
    all: repeat split; try assumption; try discriminate.
  - unfold setState. ends_run. exact Hsettled.
  - unfold handleSelectApiKey, setState. ends_run.
    all: ticks_idle Hi.
    all: exact Hsettled.
  - unfold handleAnimateLogo, checkApiKey, handleSelectApiKey, setState. ends_run.
    all: ticks_idle Hi.
    all: try rewrite ticks_setInterval by exact Hi.
    all: try match goal with
             | |- context [firings ?ev ?c] => destruct (firings ev c)
             end.
    all: try exact Hsettled.
    all: repeat split; try assumption; try discriminate;
      try (cbn; rewrite ?Nat.eqb_refl; reflexivity);
      intros Hnone; cbn in Hnone;
      first [congruence|apply Hvid; reflexivity].
Qed.

(** X16.  In every state that a session reaches (mount, the mount
    effect, then any listeners that the view offers, one after the other,
    in any environments) nothing is in progress and no timer is pending,
    the progress message is empty, a video is present only with an image,
    and the stored error, if any, is not the empty string, so it is
    shown. *)
Theorem reachable_states_are_settled m : reachable m -> settled m.
Proof.
  induction 1 as [env r m log Hrun|env m a r m' log Hreach IH Hen Hrun].
  - assert (Hends : ends (handle env) mountEffect (mounted initialState, [])
                      (fun _ w => settled (fst w))).
    { unfold mountEffect, checkApiKey, setState. ends_run.
      all: rewrite ?ticks_no_interval by reflexivity.
      all: repeat split. }
    exact (ends_returns _ _ _ _ _ _ Hends Hrun).
  - exact (ends_returns _ _ _ _ _ _ (listener_keeps_settled env m a IH) Hrun).
Qed.

(** Mount, then a generated logo. *)
Lemma reachable_settled_witness :
  exists m,
    reachable m /\
    settled m /\
    display (render (state m)) = LogoImage (js "data:image/png;base64,iVBOR").
Proof.
  assert (Hlogo : exists m,
            reachable m /\
            display (render (state m)) = LogoImage (js "data:image/png;base64,iVBOR")).
  { eexists. split.
    - eapply (@reachable_action
                (exampleEnv true true (inr (js "iVBOR"))
                   (inr (js "blob:video-1")) (inr (js "AAAA")) 2)
                _ ClickGenerateLogo).
      + eapply (@reachable_mounted
                  (exampleEnv true true (inr (js "iVBOR"))
                     (inr (js "blob:video-1")) (inr (js "AAAA")) 2)).
        exists 20. lazy. reflexivity.
      + reflexivity.
      + exists 40. lazy. reflexivity.
    - reflexivity. }
  destruct Hlogo as (m & Hreach & Hshown).
  exists m. split; [exact Hreach|]. split; [|exact Hshown].
  exact (reachable_states_are_settled m Hreach).
Defined.

End ViewFacts.

(** ** Facts about the result of a completed job *)

Module LocationFacts.
Import Gateway Failures Locations AsyncFacts GatewayFacts.

(** [downloadLinkOf] reads the result location of the handle. *)
Lemma downloadLinkOf_location operation location :
  downloadLinkOf operation = Some location <-> resultLocation operation location.
Proof.
  unfold downloadLinkOf, resultLocation. split.
  - destruct (response operation) as [r|]; [|discriminate].
    destruct (generatedVideos r) as [[|first others]|] eqn:Hg; try discriminate.
    cbn [nth_error]. destruct (video first) as [vid|] eqn:Hv; [|discriminate].
    intros Hu. exists r, first, others, vid. repeat split; assumption.
  - intros (r & first & others & vid & -> & -> & Hv & Hu).
    cbn [nth_error]. rewrite Hv. exact Hu.
Qed.

Lemma downloadLinkOf_absent operation :
  (forall location, resultLocation operation location -> location = []) ->
  truthy_opt (downloadLinkOf operation) = false.
Proof.
  intros Habsent. destruct (downloadLinkOf operation) as [u|] eqn:Hu; [|reflexivity].
  apply downloadLinkOf_location in Hu. rewrite (Habsent u Hu). reflexivity.
Qed.

Lemma downloadLinkOf_present operation location :
  resultLocation operation location -> location <> [] ->
  downloadLinkOf operation = Some location /\
  truthy_opt (downloadLinkOf operation) = true.
Proof.
  intros Hl Hne. apply downloadLinkOf_location in Hl. rewrite Hl.
  split; [reflexivity|]. destruct location; [exfalso; apply Hne; reflexivity|reflexivity].
Qed.

(** C4, amended.  Once the job is complete, on handle [operation]: when
    the result location is absent from the handle (missing at any level
    of it, or the empty string), [animateLogo] fails with the
    missing-result error and makes no further interaction, so no
    download.  Otherwise it reads the credential again.  When the
    credential is still set, it fetches the location with ["&key="] and
    the credential appended; on the response of the fetch it fails with
    the download error exactly when the status is not OK, making no
    further interaction, and when the status is OK and the body is read
    it returns the object URL made from the blob.  When the credential
    is no longer set, the fetch rejects or the read of the body rejects,
    it fails with that error. *)
Theorem animateLogo_result_location_and_download
  env log imageData mimeType aspectRatio N operation :
  let key := API_KEY env (count KApiKey log) in
  let p := generateVideosParameters imageData mimeType aspectRatio in
  let start := generateVideos env (count KGenerateVideos log) (toString key) p in
  let base := count KGetVideosOperation log in
  let key2 := API_KEY env (S (count KApiKey log)) in
  truthy_opt key = true ->
  flagFalseThenTrue env base (toString key) start N operation ->
  exists r tail,
    returns (handle env) (animateLogo imageData mimeType aspectRatio) log r
      (log ++ submitAndPollLog env log (toString key) p N ++ tail) /\
    ((forall location, resultLocation operation location -> location = []) ->
       r = inl missingResultError /\ tail = []) /\
    (forall location,
       resultLocation operation location -> location <> [] ->
       let url := location +++ js "&key=" +++ toString key2 in
       let fetched := fetch env (count KFetch log) url in
       (truthy_opt key2 = false ->
          r = inl apiKeyError /\ tail = [Ev ProcessEnvApiKey key2]) /\
       (truthy_opt key2 = true ->
          firstn 2 tail = [Ev ProcessEnvApiKey key2; Ev (Fetch url) fetched] /\
          (forall e, fetched = inl e -> r = inl e /\ List.length tail = 2) /\
          (forall videoResponse, fetched = inr videoResponse ->
             let blobbed := blob env (count KBlob log) videoResponse in
             (ok videoResponse = false <->
                r = inl (downloadError videoResponse) /\ List.length tail = 2) /\
             (ok videoResponse = true ->
                (forall e, blobbed = inl e ->
                   r = inl e /\
                   skipn 2 tail = [Ev (ResponseBlob videoResponse) (inl e)]) /\
                (forall videoBlob, blobbed = inr videoBlob ->
                   let handle :=
                     createObjectURL env (count KCreateObjectURL log) videoBlob in
                   r = inr handle /\
                   skipn 2 tail =
                     [ Ev (ResponseBlob videoResponse) (inr videoBlob);
                       Ev (CreateObjectURL videoBlob) handle ]))))).
Proof.
  intros key p start base key2 Hk Hf.
  pose proof (animateLogo_run env log imageData mimeType aspectRatio N operation
                Hk Hf) as Hrun.
  cbv zeta in Hrun. rewrite <- app_assoc in Hrun.
  pose proof (count_submitAndPollLog env log imageData mimeType aspectRatio N
                operation Hf) as Hc.
  unfold downloadPhase in Hrun. cbv zeta in Hrun.
  rewrite !count_app, !Hc, !Nat.add_0_r in Hrun.
  replace (count KApiKey log + 1) with (S (count KApiKey log)) in Hrun by lia.
  fold key p in Hrun. fold key2 in Hrun.
  destruct (truthy_opt (downloadLinkOf operation)) eqn:Hl; cbn [negb] in Hrun.
  2: { do 2 eexists. split; [exact Hrun|]. split.
       - intros _. split; reflexivity.
       - intros location Hloc Hne.
         destruct (downloadLinkOf_present operation location Hloc Hne) as (_ & Ht).
         congruence. }
  assert (Hpresent : forall location,
            resultLocation operation location -> location <> [] ->
            toString (downloadLinkOf operation) = location).
  { intros location Hloc Hne.
    destruct (downloadLinkOf_present operation location Hloc Hne) as (-> & _).
    reflexivity. }
  assert (Habsent : (forall location,
                       resultLocation operation location -> location = []) ->
                    False).
  { intros Ha. rewrite (downloadLinkOf_absent operation Ha) in Hl. discriminate. }
  destruct (truthy_opt key2) eqn:Hk2; cbn [negb] in Hrun.
  2: { do 2 eexists. split; [exact Hrun|]. split.
       - intros Ha. destruct (Habsent Ha).
       - intros location Hloc Hne. cbv zeta. split; [|discriminate].
         intros _. split; reflexivity. }
  destruct (fetch env (count KFetch log)
              (toString (downloadLinkOf operation) +++ js "&key=" +++ toString key2))
    as [e|videoResponse] eqn:Hfetch.
  { do 2 eexists. split; [exact Hrun|]. split.
    - intros Ha. destruct (Habsent Ha).
    - intros location Hloc Hne. cbv zeta.
      rewrite <- (Hpresent location Hloc Hne), Hfetch.
      split; [discriminate|]. intros _. split; [reflexivity|]. split.
      + intros e' He. inversion He; subst e'. split; reflexivity.
      + intros v Hv. discriminate. }
  destruct (ok videoResponse) eqn:Hok; cbn [negb] in Hrun.
  2: { do 2 eexists. split; [exact Hrun|]. split.
       - intros Ha. destruct (Habsent Ha).
       - intros location Hloc Hne. cbv zeta.
         rewrite <- (Hpresent location Hloc Hne), Hfetch.
         split; [discriminate|]. intros _. split; [reflexivity|]. split.
         + intros e' He. discriminate.
         + intros v Hv. inversion Hv; subst v. rewrite Hok. split.
           * split; [intros _; split; reflexivity|reflexivity].
           * discriminate. }
  destruct (blob env (count KBlob log) videoResponse) as [e|videoBlob] eqn:Hb.
  { do 2 eexists. split; [exact Hrun|]. split.
    - intros Ha. destruct (Habsent Ha).
    - intros location Hloc Hne. cbv zeta.
      rewrite <- (Hpresent location Hloc Hne), Hfetch.
      split; [discriminate|]. intros _. split; [reflexivity|]. split.
      + intros e' He. discriminate.
      + intros v Hv. inversion Hv; subst v. rewrite Hok, Hb. split.
        * split; [discriminate|]. intros (_ & Hlen). discriminate.
        * intros _. split.
          -- intros e' He. inversion He; subst e'. split; reflexivity.
          -- intros b Hinj. discriminate. }
  do 2 eexists. split; [exact Hrun|]. split.
  - intros Ha. destruct (Habsent Ha).
  - intros location Hloc Hne. cbv zeta.
    rewrite <- (Hpresent location Hloc Hne), Hfetch.
    split; [discriminate|]. intros _. split; [reflexivity|]. split.
    + intros e' He. discriminate.
    + intros v Hv. inversion Hv; subst v. rewrite Hok, Hb. split.
      * split; [discriminate|]. intros (_ & Hlen). discriminate.
      * intros _. split.
        -- intros e' He. discriminate.
        -- intros b Hinj. inversion Hinj; subst b. split; reflexivity.
Qed.

(** A completed job without a response, and one whose download succeeds. *)
Lemma animateLogo_result_location_witness :
  (exists log,
     returns (handle envNoResult)
       (animateLogo (js "iVBOR") (js "image/png") ratio_16_9) []
       (inl missingResultError) log /\
     count KFetch log = 0) /\
  (exists tail,
     returns (handle envTwoPolls)
       (animateLogo (js "iVBOR") (js "image/png") ratio_16_9) []
       (inr (js "blob:video-1"))
       (submitAndPollLog envTwoPolls [] (js "K1")
          (generateVideosParameters (js "iVBOR") (js "image/png") ratio_16_9) 2
        ++ tail) /\
     firstn 2 tail =
       [ Ev ProcessEnvApiKey (Some (js "K2"));
         Ev (Fetch (js "https://v/1?alt=media&key=K2"))
            (inr {| ok := true; statusText := js "OK"; responseId := 1 |}) ]).
Proof.
  split.
  - destruct (animateLogo_result_location_and_download
                envNoResult [] (js "iVBOR") (js "image/png") ratio_16_9 0
                operationWithoutResponse)
      as (r & tail & Hrun & Habsent & _).
    + reflexivity.
    + split; [|split; reflexivity]. intros k Hk. exfalso. lia.
    + destruct Habsent as (-> & ->).
      * intros location (r' & first & others & vid & Hr & _). discriminate.
      * eexists. split; [exact Hrun|]. reflexivity.
  - destruct (animateLogo_result_location_and_download
                envTwoPolls [] (js "iVBOR") (js "image/png") ratio_16_9 2
                (operationWith 2 true (Some (js "https://v/1?alt=media"))))
      as (r & tail & Hrun & _ & Hpresent).
    + reflexivity.
    + split; [|split; reflexivity].
      intros k Hk. destruct k as [|[|k]].
      * eexists. split; reflexivity.
      * eexists. split; reflexivity.
      * exfalso. lia.
    + destruct (Hpresent (js "https://v/1?alt=media")) as (_ & Hset).
      * do 4 eexists. repeat split; reflexivity.
      * discriminate.
      * destruct (Hset eq_refl) as (Hfirst & _ & Hresponse).
        destruct (Hresponse _ eq_refl) as (_ & Hok).
        destruct (Hok eq_refl) as (_ & Hblob).
        destruct (Hblob _ eq_refl) as (Hr & _). rewrite Hr in Hrun.
        exists tail. split; [exact Hrun|exact Hfirst].
Defined.

(** C4 as stated fails on completed jobs that have a result location:
    when the credential is no longer set, nothing is fetched; when the
    fetch rejects there is no response, and the call fails with the error
    of the fetch; when the response is OK and the read of its body
    rejects, no handle is returned. *)
Lemma located_result_without_download_or_handle :
  let operation := operationWith 0 true (Some (js "https://v/1?alt=media")) in
  let call := animateLogo (js "iVBOR") (js "image/png") ratio_16_9 in
  let p := generateVideosParameters (js "iVBOR") (js "image/png") ratio_16_9 in
  resultLocation operation (js "https://v/1?alt=media") /\
  (exists log,
     flagFalseThenTrue envKeyWithdrawn 0 (js "K1")
       (generateVideos envKeyWithdrawn 0 (js "K1") p) 0 operation /\
     returns (handle envKeyWithdrawn) call [] (inl apiKeyError) log /\
     count KFetch log = 0) /\
  (exists log,
     flagFalseThenTrue envFetchRejects 0 (js "K1")
       (generateVideos envFetchRejects 0 (js "K1") p) 0 operation /\
     returns (handle envFetchRejects) call [] (inl (newError (js "Failed to fetch")))
       log /\
     count KFetch log = 1 /\
     count KCreateObjectURL log = 0) /\
  (exists log videoResponse,
     flagFalseThenTrue envBlobRejects 0 (js "K1")
       (generateVideos envBlobRejects 0 (js "K1") p) 0 operation /\
     fetch envBlobRejects 0 (js "https://v/1?alt=media&key=K1") = inr videoResponse /\
     ok videoResponse = true /\
     returns (handle envBlobRejects) call [] (inl (newError (js "network error")))
       log /\
     count KCreateObjectURL log = 0).
Proof.
  intros operation call p.
  assert (Hdone : forall env,
            generateVideos env 0 (js "K1") p = inr operation ->
            flagFalseThenTrue env 0 (js "K1") (generateVideos env 0 (js "K1") p) 0
              operation).
  { intros env Hstart. split; [|split; [exact Hstart|reflexivity]].
    intros k Hk. exfalso. lia. }
  split; [do 4 eexists; repeat split; reflexivity|].
  split; [|split].
  - eexists. split; [exact (Hdone envKeyWithdrawn eq_refl)|].
    split; [exists 40; lazy; reflexivity|reflexivity].
  - eexists. split; [exact (Hdone envFetchRejects eq_refl)|].
    split; [exists 40; lazy; reflexivity|split; reflexivity].
  - do 2 eexists. split; [exact (Hdone envBlobRejects eq_refl)|].
    split; [reflexivity|]. split; [reflexivity|].
    split; [exists 40; lazy; reflexivity|reflexivity].
Qed.

End LocationFacts.

(** ** Facts about listeners that overlap *)

Module OverlapFacts.
Import App View Overlap AsyncFacts AppFacts.

(** [advance] and [resume] cut a run of [handle] at its awaited calls:
    a listener advanced to its end, or advanced to a call and then
    resumed to its end, has run as [exec] runs it. *)
Lemma exec_step env f (t : async appE unit) w :
  exec (handle env) (S f) t w =
  match observe t with
  | RetF r0 => Some (r0, w)
  | TauF t' => exec (handle env) f t' w
  | VisF e k => let (x, w1) := handle env e w in exec (handle env) f (k x) w1
  end.
Proof. reflexivity. Qed.

Lemma advance_ends env f : forall t w r w',
  advance env f t w = Some (inl r, w') ->
  returns (handle env) t w r w'.
Proof.
  induction f as [|f IH]; intros t w r w' H; [discriminate|].
  cbn [advance] in H. pose proof (exec_step env) as Hobs.
  destruct (observe t) as [r0|t'|X e k] eqn:Ht.
  - inversion H; subst. exists 1. rewrite Hobs, Ht. reflexivity.
  - destruct (IH _ _ _ _ H) as (f' & Hf'). exists (S f'). rewrite Hobs, Ht. exact Hf'.
  - destruct e as [X c|u|meth|cb l ms|id]; try discriminate;
      match type of H with
      | (let (_, _) := ?h in _) = _ => destruct h as [x w1] eqn:Hh
      end;
      destruct (IH _ _ _ _ H) as (f' & Hf'); exists (S f'); rewrite Hobs, Ht, Hh;
      exact Hf'.
Qed.

Lemma advance_then_resume env f : forall t w p w1 r w' f',
  advance env f t w = Some (inr p, w1) ->
  resume env f' p w1 = Some (inl r, w') ->
  returns (handle env) t w r w'.
Proof.
  induction f as [|f IH]; intros t w p w1 r w' f' H Hres; [discriminate|].
  cbn [advance] in H. pose proof (exec_step env) as Hobs.
  destruct (observe t) as [r0|t'|X e k] eqn:Ht.
  - discriminate.
  - destruct (IH _ _ _ _ _ _ _ H Hres) as (f2 & Hf2). exists (S f2).
    rewrite Hobs, Ht. exact Hf2.
  - destruct e as [X c|u|meth|cb l ms|id].
    + inversion H; subst p w1. cbn [resume] in Hres.
      destruct (handle env (Await c) w) as [x w2] eqn:Hh.
      destruct (advance_ends env f' _ _ _ _ Hres) as (f2 & Hf2).
      exists (S f2). rewrite Hobs, Ht, Hh. exact Hf2.
    + destruct (handle env (SetState u) w) as [x w2] eqn:Hh.
      destruct (IH _ _ _ _ _ _ _ H Hres) as (f2 & Hf2). exists (S f2).
      rewrite Hobs, Ht, Hh. exact Hf2.
    + destruct (handle env (AistudioProvides meth) w) as [x w2] eqn:Hh.
      destruct (IH _ _ _ _ _ _ _ H Hres) as (f2 & Hf2). exists (S f2).
      rewrite Hobs, Ht, Hh. exact Hf2.
    + destruct (handle env (SetInterval cb l ms) w) as [x w2] eqn:Hh.
      destruct (IH _ _ _ _ _ _ _ H Hres) as (f2 & Hf2). exists (S f2).
      rewrite Hobs, Ht, Hh. exact Hf2.
    + destruct (handle env (ClearInterval id) w) as [x w2] eqn:Hh.
      destruct (IH _ _ _ _ _ _ _ H Hres) as (f2 & Hf2). exists (S f2).
      rewrite Hobs, Ht, Hh. exact Hf2.
Qed.

(** C5.  The claim fails when an animation is requested while an
    uploaded file is being read.  The state holds the image [iVBOR].  The
    user chooses a PNG file; its handler clears the video and awaits the
    read without setting a busy flag, so the view still offers the animate
    button, on the image [iVBOR].  The user clicks it; then the read
    settles and stores the image [AAAA]; then [animateLogo], called on
    [iVBOR], settles and its video is stored.  The state ends with the
    image [AAAA] and the video made from [iVBOR], which the view plays. *)
Theorem overlapping_animation_keeps_video_of_replaced_image :
  exists pg,
    steps envOverlap 40
      [ Dispatch (ChangeFile (Some [pngFile]));
        Dispatch ClickAnimateLogo;
        Settle 0;
        Settle 0 ]
      (opened stateWithVideo) = Some pg /\
    waiting pg = [] /\
    imageData stateWithVideo =
      Some {| base64 := js "iVBOR"; mimeType := js "image/png" |} /\
    imageData (state (fst (world pg))) =
      Some {| base64 := js "AAAA"; mimeType := js "image/png" |} /\
    videoUrl (state (fst (world pg))) = Some (js "blob:video-2") /\
    filter isAnimateLogo (events (snd (world pg))) =
      [ Ev (Await (AnimateLogo (js "iVBOR") (js "image/png") ratio_16_9))
           (inr (js "blob:video-2")) ] /\
    display (render (state (fst (world pg)))) = VideoPlayer (js "blob:video-2").
Proof.
  eexists. split; [vm_compute; reflexivity|]. repeat split.
Qed.

(** The same two requests one after the other: the animation is asked
    of the uploaded image. *)
Lemma animation_after_upload_is_of_new_image :
  exists pg,
    steps envOverlap 40
      [ Dispatch (ChangeFile (Some [pngFile]));
        Settle 0;
        Dispatch ClickAnimateLogo;
        Settle 0 ]
      (opened stateWithVideo) = Some pg /\
    filter isAnimateLogo (events (snd (world pg))) =
      [ Ev (Await (AnimateLogo (js "AAAA") (js "image/png") ratio_16_9))
           (inr (js "blob:video-2")) ].
Proof.
  eexists. split; [vm_compute; reflexivity|]. reflexivity.
Qed.

End OverlapFacts.
